(** * ArduinoJson: the variant value cell and its collections

    A shallow embedding of [src/ArduinoJson/Variant/VariantData.hpp] and of
    the collection implementation that follows it in the same source file
    ([CollectionData::add], [get], [size], [movePointers], [arrayEquals],
    [objectEquals]), with the properties the specification states about
    them.

    Addresses are integers ([Z]), the null pointer is [0].  The flag byte
    of a cell is a [Z] in [0, 256) and the bit operations of the source
    are [Z.land], [Z.lor] and [Z.lnot].  Slots live in a store indexed by
    their address; the cell of the document root lives outside that
    store. *)

From Stdlib Require Import ZArith Lia Bool List Floats.
From stdpp Require Import base option list gmap strings.

Local Open Scope Z_scope.

(** ** Flag constants

    [VariantContent.hpp], which declares the enumeration the flag byte is
    tested against, is not part of the sources at hand.  The constants are
    therefore parameters; [flags_layout] collects what the code relies on
    when it uses them. *)

Class VariantFlags := {
  VALUE_MASK : Z;
  OWNED_VALUE_BIT : Z;
  VALUE_IS_NULL : Z;
  VALUE_IS_RAW_STRING : Z;
  VALUE_IS_LINKED_STRING : Z;
  VALUE_IS_OWNED_STRING : Z;
  VALUE_IS_BOOLEAN : Z;
  NUMBER_BIT : Z;
  VALUE_IS_UNSIGNED_INTEGER : Z;
  VALUE_IS_SIGNED_INTEGER : Z;
  VALUE_IS_FLOAT : Z;
  COLLECTION_MASK : Z;
  VALUE_IS_OBJECT : Z;
  VALUE_IS_ARRAY : Z;
  OWNED_KEY_BIT : Z
}.

(** The ten kinds a cell can have, in the order of the specification. *)
Definition kinds `{VariantFlags} : list Z :=
  [ VALUE_IS_NULL; VALUE_IS_BOOLEAN; VALUE_IS_SIGNED_INTEGER;
    VALUE_IS_UNSIGNED_INTEGER; VALUE_IS_FLOAT; VALUE_IS_LINKED_STRING;
    VALUE_IS_OWNED_STRING; VALUE_IS_RAW_STRING; VALUE_IS_ARRAY;
    VALUE_IS_OBJECT ].

(** What the code assumes of the enumeration:
    - the kinds are distinct [case] labels and fit in [VALUE_MASK];
    - the owned-key bit lies outside [VALUE_MASK], inside the byte;
    - [isArray] and [isObject] test one bit each, set in no other kind,
      and [COLLECTION_MASK] is the two together;
    - [OWNED_VALUE_BIT] lies in [VALUE_MASK] and is set in the owned and
      the raw string kinds only. *)
Record flags_layout `{VariantFlags} : Prop := {
  kinds_distinct : NoDup kinds;
  kinds_in_mask : Forall (fun k => Z.land k VALUE_MASK = k) kinds;
  mask_in_byte : 0 <= VALUE_MASK < 256;
  key_bit_in_byte : 0 <= OWNED_KEY_BIT < 256;
  key_bit_outside_mask : Z.land OWNED_KEY_BIT VALUE_MASK = 0;
  array_bit_set : VALUE_IS_ARRAY <> 0;
  object_bit_set : VALUE_IS_OBJECT <> 0;
  array_bit_alone :
    Forall (fun k => k <> VALUE_IS_ARRAY -> Z.land k VALUE_IS_ARRAY = 0) kinds;
  object_bit_alone :
    Forall (fun k => k <> VALUE_IS_OBJECT -> Z.land k VALUE_IS_OBJECT = 0) kinds;
  collection_mask_def : COLLECTION_MASK = Z.lor VALUE_IS_OBJECT VALUE_IS_ARRAY;
  owned_value_in_mask : Z.land OWNED_VALUE_BIT VALUE_MASK = OWNED_VALUE_BIT;
  owned_value_kinds :
    Forall (fun k => Z.land k OWNED_VALUE_BIT <> 0 <->
                     (k = VALUE_IS_OWNED_STRING \/ k = VALUE_IS_RAW_STRING))
           kinds
}.

(** The values of the enumeration in the released library; used to run the
    model on concrete cells. *)
Definition arduino_flags : VariantFlags := {|
  VALUE_MASK := 0x7F;
  OWNED_VALUE_BIT := 0x01;
  VALUE_IS_NULL := 0;
  VALUE_IS_RAW_STRING := 0x03;
  VALUE_IS_LINKED_STRING := 0x04;
  VALUE_IS_OWNED_STRING := 0x05;
  VALUE_IS_BOOLEAN := 0x06;
  NUMBER_BIT := 0x08;
  VALUE_IS_UNSIGNED_INTEGER := 0x08;
  VALUE_IS_SIGNED_INTEGER := 0x0A;
  VALUE_IS_FLOAT := 0x0C;
  COLLECTION_MASK := 0x60;
  VALUE_IS_OBJECT := 0x20;
  VALUE_IS_ARRAY := 0x40;
  OWNED_KEY_BIT := 0x80
|}.

(** ** Data model *)

(** [CollectionData]: the head and tail pointers of a slot chain.
    [ArrayData] derives from it without adding a field, so the union
    members [asArray] and [asCollection] are one and the same storage. *)
Record CollectionData := mkCollection { head_ : Z; tail_ : Z }.

(** [JsonFloat] is [double]: a binary64 float. *)
Definition JsonFloat : Type := float.

(** [VariantContent] is a union.  The constructor records the member that
    was written last; [content_*] below are the reads of a member, also
    where the source reads a member other than the one written. *)
Inductive VariantContent :=
  | asFloat (f : JsonFloat)
  | asBoolean (b : bool)
  | asUnsignedInteger (u : Z)
  | asSignedInteger (i : Z)
  | asCollection (c : CollectionData)
  | asLinkedString (p : Z)
  | asOwnedString (n : Z).

Record VariantData := mkVariant {
  content_ : VariantContent;
  flags_ : Z
}.

Section Cell.
Context `{VariantFlags}.

(** Width of [JsonUInt] and [JsonInteger]. *)
Definition JSON_INT_BITS : Z := 64.

Definition uint8_t (x : Z) : Z := x mod 256.

(** Reads of the union members. A signed payload read as unsigned is its
    two's complement; a read that matches no written member is
    indeterminate in C++ and is given a fixed value here. *)
Definition content_asBoolean (c : VariantContent) : bool :=
  match c with asBoolean b => b | _ => false end.

Definition content_asUnsignedInteger (c : VariantContent) : Z :=
  match c with
  | asUnsignedInteger u => u
  | asSignedInteger i => i mod 2 ^ JSON_INT_BITS
  | _ => 0
  end.

Definition content_asSignedInteger (c : VariantContent) : Z :=
  match c with
  | asSignedInteger i => i
  | asUnsignedInteger u =>
      if u <? 2 ^ (JSON_INT_BITS - 1) then u else u - 2 ^ JSON_INT_BITS
  | _ => 0
  end.

Definition content_asFloat (c : VariantContent) : JsonFloat :=
  match c with asFloat f => f | _ => 0%float end.

Definition content_asCollection (c : VariantContent) : CollectionData :=
  match c with asCollection d => d | _ => mkCollection 0 0 end.

Definition content_asLinkedString (c : VariantContent) : Z :=
  match c with asLinkedString p => p | asOwnedString n => n | _ => 0 end.

(** [asLinkedString] and [asOwnedString] are two pointers in the same
    storage: reading one after the other was written gives the same
    address. *)
Definition content_asOwnedString (c : VariantContent) : Z :=
  match c with asOwnedString n => n | asLinkedString p => p | _ => 0 end.

(** *** [VariantData]: tests on the flag byte *)

Definition type (v : VariantData) : Z := Z.land (flags_ v) VALUE_MASK.

Definition isArray (v : VariantData) : bool :=
  negb (Z.land (flags_ v) VALUE_IS_ARRAY =? 0).

Definition isBoolean (v : VariantData) : bool := type v =? VALUE_IS_BOOLEAN.

Definition isCollection (v : VariantData) : bool :=
  negb (Z.land (flags_ v) COLLECTION_MASK =? 0).

Definition isFloat (v : VariantData) : bool :=
  negb (Z.land (flags_ v) NUMBER_BIT =? 0).

Definition isNull (v : VariantData) : bool := type v =? VALUE_IS_NULL.

Definition isObject (v : VariantData) : bool :=
  negb (Z.land (flags_ v) VALUE_IS_OBJECT =? 0).

Definition isString (v : VariantData) : bool :=
  (type v =? VALUE_IS_LINKED_STRING) || (type v =? VALUE_IS_OWNED_STRING).

(** *** [VariantData::asBoolean] *)
Definition VariantData_asBoolean (v : VariantData) : bool :=
  let t := type v in
  if t =? VALUE_IS_BOOLEAN then content_asBoolean (content_ v)
  else if (t =? VALUE_IS_SIGNED_INTEGER) || (t =? VALUE_IS_UNSIGNED_INTEGER)
       then negb (content_asUnsignedInteger (content_ v) =? 0)
  else if t =? VALUE_IS_FLOAT
       then negb (PrimFloat.eqb (content_asFloat (content_ v)) 0%float)
  else if t =? VALUE_IS_NULL then false
  else true.

(** *** [VariantData::setType] and the setters built on it *)
Definition setType (t : Z) (v : VariantData) : VariantData :=
  let f1 := uint8_t (Z.land (flags_ v) OWNED_KEY_BIT) in
  mkVariant (content_ v) (uint8_t (Z.lor f1 t)).

Definition set_content (c : VariantContent) (v : VariantData) : VariantData :=
  mkVariant c (flags_ v).

Definition setBoolean (value : bool) (v : VariantData) : VariantData :=
  set_content (asBoolean value) (setType VALUE_IS_BOOLEAN v).

Definition setFloat (value : JsonFloat) (v : VariantData) : VariantData :=
  set_content (asFloat value) (setType VALUE_IS_FLOAT v).

Definition setInteger_signed (value : Z) (v : VariantData) : VariantData :=
  set_content (asSignedInteger value) (setType VALUE_IS_SIGNED_INTEGER v).

Definition setInteger_unsigned (value : Z) (v : VariantData) : VariantData :=
  set_content (asUnsignedInteger value) (setType VALUE_IS_UNSIGNED_INTEGER v).

Definition setNull (v : VariantData) : VariantData := setType VALUE_IS_NULL v.

Definition setRawString (s : Z) (v : VariantData) : VariantData :=
  set_content (asOwnedString s) (setType VALUE_IS_RAW_STRING v).

Definition setLinkedString (s : Z) (v : VariantData) : VariantData :=
  set_content (asLinkedString s) (setType VALUE_IS_LINKED_STRING v).

Definition setOwnedString (s : Z) (v : VariantData) : VariantData :=
  set_content (asOwnedString s) (setType VALUE_IS_OWNED_STRING v).

(** [reset] stores the Null kind in the flag byte. *)
Definition VariantData_reset (v : VariantData) : VariantData :=
  mkVariant (content_ v) VALUE_IS_NULL.

(** [toArray] and [toObject] construct an empty collection in place. *)
Definition toArray (v : VariantData) : VariantData :=
  set_content (asCollection (mkCollection 0 0)) (setType VALUE_IS_ARRAY v).

Definition toObject (v : VariantData) : VariantData :=
  set_content (asCollection (mkCollection 0 0)) (setType VALUE_IS_OBJECT v).

(** *** [VariantData::operator=] *)
Definition VariantData_assign (this src : VariantData) : VariantData :=
  mkVariant (content_ src)
    (uint8_t (Z.lor (Z.land (flags_ this) OWNED_KEY_BIT)
                    (Z.land (flags_ src) (Z.lnot OWNED_KEY_BIT)))).

(** [VariantData()] : a Null cell; the union is left as it was. *)
Definition VariantData_new : VariantData :=
  mkVariant (asUnsignedInteger 0) VALUE_IS_NULL.

End Cell.

(** ** Memory

    A [VariantSlot] is a cell followed by the link to the next slot and the
    key pointer.  [VariantSlot.hpp] is not part of the sources at hand. *)
Record VariantSlot := mkSlot {
  data : VariantData;
  next_ : Z;
  key_ : Z
}.

(** A node of the string pool: an interned, reference-counted text. *)
Record StringNode := mkNode {
  references : Z;
  node_text : string
}.

(** The caller's character memory and the layout of a string node:
    [c_str p] is the zero-terminated text found at address [p] outside the
    pool, and [DATA_OFFSET] is [offsetof(StringNode, data)], so that the
    text of the node at address [n] starts at [n + DATA_OFFSET]. *)
Class Platform := {
  DATA_OFFSET : Z;
  c_str : Z -> string
}.

(** The state a call works on: the root cell of the document, the slots by
    address, and the resource manager (free slot addresses, the string pool
    and the addresses left for new string nodes). *)
Record State := mkState {
  root : VariantData;
  slots : gmap Z VariantSlot;
  free_slots : list Z;
  strings : list (Z * StringNode);
  free_nodes : list Z
}.

(** A [VariantData*] that is not null: the root cell or the cell of a slot
    ([VariantSlot::data()], which is the slot's own address). *)
Inductive VariantRef := RootVar | SlotVar (p : Z).

Definition set_root (v : VariantData) (st : State) : State :=
  mkState v (slots st) (free_slots st) (strings st) (free_nodes st).

Definition set_slots (m : gmap Z VariantSlot) (st : State) : State :=
  mkState (root st) m (free_slots st) (strings st) (free_nodes st).

Definition set_strings (l : list (Z * StringNode)) (st : State) : State :=
  mkState (root st) (slots st) (free_slots st) l (free_nodes st).

Definition get_var (r : VariantRef) (st : State) : option VariantData :=
  match r with
  | RootVar => Some (root st)
  | SlotVar p => data <$> slots st !! p
  end.

Definition set_var (r : VariantRef) (v : VariantData) (st : State) : State :=
  match r with
  | RootVar => set_root v st
  | SlotVar p =>
      match slots st !! p with
      | Some s => set_slots (<[p := mkSlot v (next_ s) (key_ s)]> (slots st)) st
      | None => st
      end
  end.

(** An in-place change of the cell [r] points to. *)
Definition update_var (r : VariantRef) (f : VariantData -> VariantData)
    (st : State) : State :=
  match get_var r st with
  | Some v => set_var r (f v) st
  | None => st
  end.

(** An in-place change of the collection stored in the cell. *)
Definition update_collection (r : VariantRef)
    (f : CollectionData -> CollectionData) (st : State) : State :=
  update_var r
    (fun v => set_content (asCollection (f (content_asCollection (content_ v)))) v)
    st.

Definition update_slot (p : Z) (f : VariantSlot -> VariantSlot) (st : State)
    : State :=
  match slots st !! p with
  | Some s => set_slots (<[p := f s]> (slots st)) st
  | None => st
  end.

(** An adapted string: the character pointer and whether the text may be
    linked rather than copied. [StringAdapters.hpp] is not part of the
    sources at hand; [isNull] tests the pointer. *)
Record AdaptedString := mkStr { str_ : Z; isLinked : bool }.

Definition AdaptedString_isNull (s : AdaptedString) : bool := str_ s =? 0.

Inductive CompareResult :=
  | COMPARE_RESULT_DIFFER
  | COMPARE_RESULT_EQUAL
  | COMPARE_RESULT_GREATER
  | COMPARE_RESULT_LESS.

Definition is_equal (r : CompareResult) : bool :=
  match r with COMPARE_RESULT_EQUAL => true | _ => false end.

(** The numeric conversion collaborator, for a result type [T]:
    [parseNumber<T>], the conversions [static_cast<T>] of [asFloat<T>] and
    [convertNumber<T>] of [asIntegral<T>], and the zero of [T].
    [parseNumber.hpp] and [convertNumber.hpp] are not part of the sources
    at hand. *)
Class NumberOps (T : Type) := {
  T_zero : T;
  T_of_bool : bool -> T;
  parseNumber : string -> T;
  static_cast_unsigned : Z -> T;
  static_cast_signed : Z -> T;
  static_cast_float : JsonFloat -> T;
  convertNumber_unsigned : Z -> T;
  convertNumber_signed : Z -> T;
  convertNumber_float : JsonFloat -> T
}.

Section Model.
Context `{VariantFlags} `{Platform}.

(** *** Slots

    Modelled from the spec: [VariantSlot] (its header is missing).  The
    next-slot link is kept as the distance from the slot to its successor,
    [0] for none, which is why [movePointers] leaves it alone; the key is a
    character pointer, owned by the pool when the cell's owned-key bit is
    set. A fresh slot holds a Null cell, no key and no successor. *)
Definition slot_next (p : Z) (s : VariantSlot) : Z :=
  if next_ s =? 0 then 0 else p + next_ s.

Definition setNext (this slot : Z) (st : State) : State :=
  update_slot this
    (fun s => mkSlot (data s) (if slot =? 0 then 0 else slot - this) (key_ s)) st.

Definition setNextNotNull (this slot : Z) (st : State) : State :=
  update_slot this (fun s => mkSlot (data s) (slot - this) (key_ s)) st.

Definition ownsKey (s : VariantSlot) : bool :=
  negb (Z.land (flags_ (data s)) OWNED_KEY_BIT =? 0).

Definition setKey_linked (k : Z) (s : VariantSlot) : VariantSlot :=
  mkSlot (mkVariant (content_ (data s))
                    (uint8_t (Z.land (flags_ (data s)) VALUE_MASK)))
         (next_ s) k.

Definition setKey_owned (node : Z) (s : VariantSlot) : VariantSlot :=
  mkSlot (mkVariant (content_ (data s))
                    (uint8_t (Z.lor (flags_ (data s)) OWNED_KEY_BIT)))
         (next_ s) (node + DATA_OFFSET).

Definition VariantSlot_new : VariantSlot := mkSlot VariantData_new 0 0.

(** *** Text

    The text a character pointer designates: the text of the pool node
    whose [data] field starts there, else what the caller's memory holds. *)
Definition find_node (q : Z) (l : list (Z * StringNode))
    : option (Z * StringNode) :=
  List.find (fun e => fst e + DATA_OFFSET =? q) l.

Definition text_at (st : State) (q : Z) : string :=
  if q =? 0 then EmptyString
  else match find_node q (strings st) with
       | Some e => node_text (snd e)
       | None => c_str q
       end.

Definition stringEquals (st : State) (a b : AdaptedString) : bool :=
  String.eqb (text_at st (str_ a)) (text_at st (str_ b)).

(** *** Resource manager

    Modelled from the spec: the arena and string pool of section 6
    ([ResourceManager.hpp] is missing).  [allocVariant] is
    [allocate_slot]: it hands out the next free slot address, or null when
    none is left.  [saveString] is [save_string]: an interned text gets
    one more reference, a new text gets a node with one reference, or null
    when no room is left.  [dereferenceString] is [release_string], given
    the character pointer of the node: one reference less, and the node is
    freed at zero. *)
Definition allocVariant (st : State) : Z * State :=
  match free_slots st with
  | [] => (0, st)
  | p :: rest =>
      (p, mkState (root st) (<[p := VariantSlot_new]> (slots st)) rest
                  (strings st) (free_nodes st))
  end.

Fixpoint add_reference (n : Z) (l : list (Z * StringNode))
    : list (Z * StringNode) :=
  match l with
  | [] => []
  | e :: r =>
      if fst e =? n
      then (n, mkNode (references (snd e) + 1) (node_text (snd e))) :: r
      else e :: add_reference n r
  end.

Definition saveString (text : string) (st : State) : Z * State :=
  match List.find (fun e => String.eqb (node_text (snd e)) text) (strings st) with
  | Some e => (fst e, set_strings (add_reference (fst e) (strings st)) st)
  | None =>
      match free_nodes st with
      | [] => (0, st)
      | n :: rest =>
          (n, mkState (root st) (slots st) (free_slots st)
                      (strings st ++ [(n, mkNode 1 text)]) rest)
      end
  end.

Fixpoint drop_reference (q : Z) (l : list (Z * StringNode))
    : list (Z * StringNode) * list Z :=
  match l with
  | [] => ([], [])
  | e :: r =>
      if fst e + DATA_OFFSET =? q
      then if references (snd e) - 1 =? 0
           then (r, [fst e])
           else ((fst e, mkNode (references (snd e) - 1) (node_text (snd e))) :: r, [])
      else let '(r', freed) := drop_reference q r in (e :: r', freed)
  end.

Definition dereferenceString (q : Z) (st : State) : State :=
  let '(l, freed) := drop_reference q (strings st) in
  mkState (root st) (slots st) (free_slots st) l (freed ++ free_nodes st).

(** *** [VariantData::asFloat] and [VariantData::asIntegral]

    [content_.asOwnedString->data] is the character pointer
    [DATA_OFFSET] bytes after the address the union holds. *)
Definition VariantData_asFloat {T : Type} `{NumberOps T} (st : State)
    (v : VariantData) : T :=
  let t := type v in
  if t =? VALUE_IS_BOOLEAN then T_of_bool (content_asBoolean (content_ v))
  else if t =? VALUE_IS_UNSIGNED_INTEGER
  then static_cast_unsigned (content_asUnsignedInteger (content_ v))
  else if t =? VALUE_IS_SIGNED_INTEGER
  then static_cast_signed (content_asSignedInteger (content_ v))
  else if (t =? VALUE_IS_LINKED_STRING) || (t =? VALUE_IS_OWNED_STRING)
  then parseNumber (text_at st (content_asOwnedString (content_ v) + DATA_OFFSET))
  else if t =? VALUE_IS_FLOAT
  then static_cast_float (content_asFloat (content_ v))
  else T_zero.

Definition VariantData_asIntegral {T : Type} `{NumberOps T} (st : State)
    (v : VariantData) : T :=
  let t := type v in
  if t =? VALUE_IS_BOOLEAN then T_of_bool (content_asBoolean (content_ v))
  else if t =? VALUE_IS_UNSIGNED_INTEGER
  then convertNumber_unsigned (content_asUnsignedInteger (content_ v))
  else if t =? VALUE_IS_SIGNED_INTEGER
  then convertNumber_signed (content_asSignedInteger (content_ v))
  else if t =? VALUE_IS_LINKED_STRING
  then parseNumber (text_at st (content_asLinkedString (content_ v)))
  else if t =? VALUE_IS_OWNED_STRING
  then parseNumber (text_at st (content_asOwnedString (content_ v) + DATA_OFFSET))
  else if t =? VALUE_IS_FLOAT
  then convertNumber_float (content_asFloat (content_ v))
  else T_zero.

(** *** [CollectionData] *)

(** [CollectionData::add]. [this] is the cell that holds the collection. *)
Definition CollectionData_add (this : VariantRef) (slot : Z) (st : State)
    : State :=
  match get_var this st with
  | None => st
  | Some v =>
      let tail := tail_ (content_asCollection (content_ v)) in
      if negb (tail =? 0) then
        let st1 := setNextNotNull tail slot st in
        update_collection this (fun c => mkCollection (head_ c) slot) st1
      else
        update_collection this (fun _ => mkCollection slot slot) st
  end.

(** [CollectionData::clear]. *)
Definition CollectionData_clear (this : VariantRef) (st : State) : State :=
  update_collection this (fun _ => mkCollection 0 0) st.

(** [CollectionData::get(key)]: the loop, then the method. *)
Fixpoint get_loop (fuel : nat) (st : State) (key : AdaptedString) (slot : Z)
    : Z :=
  match fuel with
  | O => 0
  | S f =>
      if slot =? 0 then 0
      else match slots st !! slot with
           | None => 0
           | Some s =>
               if stringEquals st key (mkStr (key_ s) (negb (ownsKey s)))
               then slot
               else get_loop f st key (slot_next slot s)
           end
  end.

Definition CollectionData_get (fuel : nat) (st : State) (c : CollectionData)
    (key : AdaptedString) : Z :=
  if AdaptedString_isNull key then 0 else get_loop fuel st key (head_ c).

(** Modelled from the spec: [slotSize], the count of the chain that
    starts at a slot ([VariantSlot.hpp] is missing). *)
Fixpoint slotSize (fuel : nat) (st : State) (var : Z) : Z :=
  match fuel with
  | O => 0
  | S f =>
      if var =? 0 then 0
      else match slots st !! var with
           | None => 0
           | Some s => 1 + slotSize f st (slot_next var s)
           end
  end.

(** [CollectionData::size]. *)
Definition CollectionData_size (fuel : nat) (st : State) (c : CollectionData)
    : Z :=
  slotSize fuel st (head_ c).

Section Equality.
(** [compare] is declared in [VariantCompare.hpp], which is missing: the
    two functions below take it as a parameter. *)
Variable compare : State -> VariantRef -> VariantRef -> CompareResult.

(** [arrayEquals]. *)
Fixpoint arrayEquals_loop (fuel : nat) (st : State) (a b : Z) : bool :=
  match fuel with
  | O => false
  | S f =>
      if (a =? 0) && (b =? 0) then true
      else if (a =? 0) || (b =? 0) then false
      else if negb (is_equal (compare st (SlotVar a) (SlotVar b))) then false
      else match slots st !! a, slots st !! b with
           | Some sa, Some sb =>
               arrayEquals_loop f st (slot_next a sa) (slot_next b sb)
           | _, _ => false
           end
  end.

Definition arrayEquals (fuel : nat) (st : State) (lhs rhs : CollectionData)
    : bool :=
  arrayEquals_loop fuel st (head_ lhs) (head_ rhs).

(** [objectEquals]: the loop over the left operand, with the count of the
    members seen so far, then the function. *)
Fixpoint objectEquals_loop (fuel inner : nat) (st : State)
    (rhs : CollectionData) (a : Z) (count : Z) : bool :=
  match fuel with
  | O => false
  | S f =>
      if a =? 0 then count =? CollectionData_size inner st rhs
      else match slots st !! a with
           | None => false
           | Some sa =>
               let b := CollectionData_get inner st rhs
                          (mkStr (key_ sa) (negb (ownsKey sa))) in
               if b =? 0 then false
               else if negb (is_equal (compare st (SlotVar a) (SlotVar b)))
                    then false
               else objectEquals_loop f inner st rhs (slot_next a sa) (count + 1)
           end
  end.

Definition objectEquals (fuel : nat) (st : State) (lhs rhs : CollectionData)
    : bool :=
  objectEquals_loop fuel fuel st rhs (head_ lhs) 0.

End Equality.

(** [movePointer]. *)
Definition movePointer (p offset : Z) : Z :=
  if p =? 0 then p else p + offset.

(** [VariantData::movePointers], [CollectionData::movePointers] and the
    loop of the latter over the slots of the collection. *)
Fixpoint VariantData_movePointers (fuel : nat) (variantDistance : Z)
    (this : VariantRef) (st : State) {struct fuel} : State :=
  match fuel with
  | O => st
  | S f =>
      match get_var this st with
      | None => st
      | Some v =>
          if negb (Z.land (flags_ v) COLLECTION_MASK =? 0)
          then CollectionData_movePointers f variantDistance this st
          else st
      end
  end
with CollectionData_movePointers (fuel : nat) (variantDistance : Z)
    (this : VariantRef) (st : State) {struct fuel} : State :=
  match fuel with
  | O => st
  | S f =>
      let st1 := update_collection this
                   (fun c => mkCollection (movePointer (head_ c) variantDistance)
                                          (tail_ c)) st in
      let st2 := update_collection this
                   (fun c => mkCollection (head_ c)
                                          (movePointer (tail_ c) variantDistance))
                   st1 in
      match get_var this st2 with
      | None => st2
      | Some v =>
          movePointers_loop f variantDistance
            (head_ (content_asCollection (content_ v))) st2
      end
  end
with movePointers_loop (fuel : nat) (variantDistance : Z) (slot : Z)
    (st : State) {struct fuel} : State :=
  match fuel with
  | O => st
  | S f =>
      if slot =? 0 then st
      else
        let st1 := VariantData_movePointers f variantDistance (SlotVar slot) st in
        match slots st1 !! slot with
        | None => st1
        | Some s => movePointers_loop f variantDistance (slot_next slot s) st1
        end
  end.

(** *** [VariantData]: the operations that work on memory *)

(** [asArray], [asObject], [asCollection]: the address of the collection
    inside the cell, or null. *)
Definition VariantData_asArray (this : VariantRef) (st : State)
    : option VariantRef :=
  match get_var this st with
  | Some v => if isArray v then Some this else None
  | None => None
  end.

Definition VariantData_asObject (this : VariantRef) (st : State)
    : option VariantRef :=
  match get_var this st with
  | Some v => if isObject v then Some this else None
  | None => None
  end.

(** [asString] and [asRawString], as the adapted string [copyFrom] makes
    of them. *)
Definition VariantData_asString (v : VariantData) : AdaptedString :=
  let t := type v in
  if t =? VALUE_IS_LINKED_STRING
  then mkStr (content_asLinkedString (content_ v)) true
  else if t =? VALUE_IS_OWNED_STRING
  then mkStr (content_asOwnedString (content_ v) + DATA_OFFSET) false
  else mkStr 0 true.

Definition VariantData_asRawString (v : VariantData) : AdaptedString :=
  if type v =? VALUE_IS_RAW_STRING
  then mkStr (content_asOwnedString (content_ v) + DATA_OFFSET) false
  else mkStr 0 true.

(** [release], with [slotRelease], whose definition is missing.

    Modelled from the spec: [slotRelease] gives back the key of the slot
    when the slot owns it, and releases the cell of the slot, which is
    left Null. *)
Fixpoint release (fuel : nat) (this : VariantRef) (st : State) {struct fuel}
    : State :=
  match fuel with
  | O => st
  | S f =>
      match get_var this st with
      | None => st
      | Some v =>
          let st1 :=
            if negb (Z.land (flags_ v) OWNED_VALUE_BIT =? 0)
            then dereferenceString
                   (content_asOwnedString (content_ v) + DATA_OFFSET) st
            else st in
          if isCollection v
          then release_loop f (head_ (content_asCollection (content_ v))) st1
          else st1
      end
  end
with release_loop (fuel : nat) (slot : Z) (st : State) {struct fuel} : State :=
  match fuel with
  | O => st
  | S f =>
      if slot =? 0 then st
      else
        let st1 := slotRelease f slot st in
        match slots st1 !! slot with
        | None => st1
        | Some s => release_loop f (slot_next slot s) st1
        end
  end
with slotRelease (fuel : nat) (slot : Z) (st : State) {struct fuel} : State :=
  match fuel with
  | O => st
  | S f =>
      match slots st !! slot with
      | None => st
      | Some s =>
          let st1 := if ownsKey s then dereferenceString (key_ s) st else st in
          update_var (SlotVar slot) setNull (release f (SlotVar slot) st1)
      end
  end.

(** Modelled from the spec: [ArrayData::addElement] ([ArrayData.hpp] is
    missing): on success a new slot is appended and its cell returned; when
    no slot can be allocated, or the array pointer is null, the result is
    null. *)
Definition ArrayData_addElement (this : VariantRef) (st : State)
    : option VariantRef * State :=
  let '(slot, st1) := allocVariant st in
  if slot =? 0 then (None, st1)
  else (Some (SlotVar slot), CollectionData_add this slot st1).

Definition ArrayData_addElement_static (array : option VariantRef) (st : State)
    : option VariantRef * State :=
  match array with
  | None => (None, st)
  | Some a => ArrayData_addElement a st
  end.

(** [VariantData::addElement]. *)
Definition VariantData_addElement (this : VariantRef) (st : State)
    : option VariantRef * State :=
  match get_var this st with
  | None => (None, st)
  | Some v =>
      let '(array, st1) :=
        if isNull v then (Some this, update_var this toArray st)
        else (VariantData_asArray this st, st) in
      ArrayData_addElement_static array st1
  end.

(** Modelled from the spec: adding a member to an object and
    [CollectionData::getOrAddMember] (their definitions are missing): an
    existing key gives the existing cell; otherwise a new slot is
    allocated, given the key (linked, or saved in the string pool) and
    appended. *)
Definition collectionAddMember (obj : VariantRef) (key : AdaptedString)
    (st : State) : option VariantRef * State :=
  let '(slot, st1) := allocVariant st in
  if slot =? 0 then (None, st1)
  else if isLinked key then
    let st2 := update_slot slot (setKey_linked (str_ key)) st1 in
    (Some (SlotVar slot), CollectionData_add obj slot st2)
  else
    let '(node, st2) := saveString (text_at st1 (str_ key)) st1 in
    if node =? 0 then (None, st2)
    else
      let st3 := update_slot slot (setKey_owned node) st2 in
      (Some (SlotVar slot), CollectionData_add obj slot st3).

Definition CollectionData_getOrAddMember (fuel : nat) (this : VariantRef)
    (key : AdaptedString) (st : State) : option VariantRef * State :=
  match get_var this st with
  | None => (None, st)
  | Some v =>
      let slot := CollectionData_get fuel st
                    (content_asCollection (content_ v)) key in
      if negb (slot =? 0) then (Some (SlotVar slot), st)
      else collectionAddMember this key st
  end.

(** [VariantData::getOrAddMember]. *)
Definition VariantData_getOrAddMember (fuel : nat) (this : VariantRef)
    (key : AdaptedString) (st : State) : option VariantRef * State :=
  if AdaptedString_isNull key then (None, st)
  else
    match get_var this st with
    | None => (None, st)
    | Some v =>
        let '(obj, st1) :=
          if isNull v then (Some this, update_var this toObject st)
          else (VariantData_asObject this st, st) in
        match obj with
        | None => (None, st1)
        | Some o => CollectionData_getOrAddMember fuel o key st1
        end
    end.

(** [VariantData::copyFrom], with the two collection copies it calls.

    Modelled from the spec: [ArrayData::copyFrom] and [collectionCopy]
    (their definitions are missing) deep-copy each element or member of
    the source in order, allocating a new slot for each, and stop with a
    failure at the first allocation or copy that fails. *)
Fixpoint VariantData_copyFrom (fuel : nat) (this : VariantRef)
    (src : option VariantRef) (st : State) {struct fuel} : bool * State :=
  match fuel with
  | O => (false, st)
  | S f =>
      let st := release (S f) this st in
      match src with
      | None => (true, update_var this setNull st)
      | Some sr =>
          match get_var sr st with
          | None => (false, st)
          | Some sv =>
              let t := type sv in
              if t =? VALUE_IS_ARRAY then
                ArrayData_copyFrom f this
                  (head_ (content_asCollection (content_ sv)))
                  (update_var this toArray st)
              else if t =? VALUE_IS_OBJECT then
                collectionCopy f this
                  (head_ (content_asCollection (content_ sv)))
                  (update_var this toObject st)
              else if t =? VALUE_IS_OWNED_STRING then
                let str := VariantData_asString sv in
                let '(dup, st1) := saveString (text_at st (str_ str)) st in
                if dup =? 0 then (false, st1)
                else (true, update_var this (setOwnedString dup) st1)
              else if t =? VALUE_IS_RAW_STRING then
                let str := VariantData_asRawString sv in
                let '(dup, st1) := saveString (text_at st (str_ str)) st in
                if dup =? 0 then (false, st1)
                else (true, update_var this (setRawString dup) st1)
              else (true, update_var this (fun _ => sv) st)
          end
      end
  end
with ArrayData_copyFrom (fuel : nat) (this : VariantRef) (s : Z) (st : State)
    {struct fuel} : bool * State :=
  match fuel with
  | O => (false, st)
  | S f =>
      if s =? 0 then (true, st)
      else
        let '(var, st1) := ArrayData_addElement this st in
        match var with
        | None => (false, st1)
        | Some v =>
            let '(ok, st2) := VariantData_copyFrom f v (Some (SlotVar s)) st1 in
            if negb ok then (false, st2)
            else match slots st2 !! s with
                 | None => (false, st2)
                 | Some sl => ArrayData_copyFrom f this (slot_next s sl) st2
                 end
        end
  end
with collectionCopy (fuel : nat) (dst : VariantRef) (s : Z) (st : State)
    {struct fuel} : bool * State :=
  match fuel with
  | O => (false, st)
  | S f =>
      if s =? 0 then (true, st)
      else
        match slots st !! s with
        | None => (false, st)
        | Some sl =>
            let '(var, st1) :=
              if negb (key_ sl =? 0)
              then collectionAddMember dst (mkStr (key_ sl) (negb (ownsKey sl))) st
              else ArrayData_addElement dst st in
            match var with
            | None => (false, st1)
            | Some v =>
                let '(ok, st2) :=
                  VariantData_copyFrom f v (Some (SlotVar s)) st1 in
                if negb ok then (false, st2)
                else match slots st2 !! s with
                     | None => (false, st2)
                     | Some sl2 => collectionCopy f dst (slot_next s sl2) st2
                     end
            end
        end
  end.

(** [variantCopyFrom]. *)
Definition variantCopyFrom (fuel : nat) (dst src : option VariantRef)
    (st : State) : bool * State :=
  match dst with
  | None => (false, st)
  | Some d => VariantData_copyFrom fuel d src st
  end.

End Model.

(** * Properties *)

(** ** The flag byte *)

(** Equations between bit patterns are settled bit by bit: the hypotheses
    named are read at the bit in question and the bits are case-split. *)
Ltac bit_specs :=
  repeat first
    [ rewrite Z.land_spec | rewrite Z.lor_spec
    | rewrite Z.lnot_spec by lia | rewrite Z.bits_0 ].

Ltac bit_specs_in H :=
  repeat first
    [ rewrite Z.land_spec in H | rewrite Z.lor_spec in H
    | rewrite Z.lnot_spec in H by lia | rewrite Z.bits_0 in H ].

Ltac read_bit n H :=
  let B := fresh "B" in
  pose proof (f_equal (fun z => Z.testbit z n) H) as B;
  cbv beta in B; bit_specs_in B; revert B.

Ltac split_bits :=
  repeat match goal with
         | |- context [Z.testbit ?a ?n] =>
             generalize (Z.testbit a n); intros []
         end;
  cbn; try tauto; try congruence; try discriminate.

(** Membership in a list that is written out. *)
Ltac in_list :=
  solve [repeat first [apply list_elem_of_here | apply list_elem_of_further]].

(** A decidable statement about written-out data, settled by evaluation. *)
Ltac decided := apply (bool_decide_unpack _); vm_compute; exact I.

Lemma uint8_t_land (x : Z) : uint8_t x = Z.land x 255.
Proof. unfold uint8_t. change 255 with (Z.ones 8). now rewrite Z.land_ones. Qed.

Lemma byte_land (x : Z) : 0 <= x < 256 -> Z.land x 255 = x.
Proof.
  intros Hx. rewrite <- uint8_t_land. unfold uint8_t. now apply Z.mod_small.
Qed.

Lemma land_byte (x : Z) : Z.land x 255 = x -> 0 <= x < 256.
Proof.
  intros Hx. rewrite <- uint8_t_land in Hx. unfold uint8_t in Hx.
  rewrite <- Hx. apply Z.mod_pos_bound. lia.
Qed.

Section FlagFacts.
Context `{VariantFlags} (layout : flags_layout).

Lemma kind_in_mask (k : Z) : k ∈ kinds -> Z.land k VALUE_MASK = k.
Proof.
  intros Hk. pose proof (kinds_in_mask layout) as HF.
  rewrite Forall_forall in HF. now apply HF.
Qed.

Lemma kind_no_key_bit (k : Z) : k ∈ kinds -> Z.land k OWNED_KEY_BIT = 0.
Proof.
  intros Hk. pose proof (kind_in_mask k Hk) as Hm.
  pose proof (key_bit_outside_mask layout) as Ho.
  apply Z.bits_inj'. intros n Hn.
  read_bit n Hm. read_bit n Ho. bit_specs. split_bits.
Qed.

Lemma mask_byte : Z.land VALUE_MASK 255 = VALUE_MASK.
Proof. apply byte_land, (mask_in_byte layout). Qed.

Lemma key_bit_byte : Z.land OWNED_KEY_BIT 255 = OWNED_KEY_BIT.
Proof. apply byte_land, (key_bit_in_byte layout). Qed.

Lemma kind_byte (k : Z) : k ∈ kinds -> Z.land k 255 = k.
Proof.
  intros Hk. pose proof (kind_in_mask k Hk) as Hm. pose proof mask_byte as Hb.
  apply Z.bits_inj'. intros n Hn.
  read_bit n Hm. read_bit n Hb. bit_specs. split_bits.
Qed.

(** The flag byte [setType] leaves: the owned-key bit of before, and the
    new kind. *)
Lemma flags_setType (t : Z) (v : VariantData) :
  t ∈ kinds ->
  flags_ (setType t v) = Z.lor (Z.land (flags_ v) OWNED_KEY_BIT) t.
Proof.
  intros Ht. unfold setType. cbn [flags_]. rewrite !uint8_t_land.
  pose proof (kind_byte t Ht) as Hb. pose proof key_bit_byte as Hk.
  apply Z.bits_inj'. intros n Hn.
  read_bit n Hb. read_bit n Hk. bit_specs. split_bits.
Qed.

Lemma type_setType (t : Z) (v : VariantData) :
  t ∈ kinds -> type (setType t v) = t.
Proof.
  intros Ht. unfold type. rewrite flags_setType by done.
  pose proof (kind_in_mask t Ht) as Hm.
  pose proof (key_bit_outside_mask layout) as Ho.
  apply Z.bits_inj'. intros n Hn.
  read_bit n Hm. read_bit n Ho. bit_specs. split_bits.
Qed.

Lemma key_bit_setType (t : Z) (v : VariantData) :
  t ∈ kinds ->
  Z.land (flags_ (setType t v)) OWNED_KEY_BIT = Z.land (flags_ v) OWNED_KEY_BIT.
Proof.
  intros Ht. rewrite flags_setType by done.
  pose proof (kind_no_key_bit t Ht) as Hm.
  apply Z.bits_inj'. intros n Hn.
  read_bit n Hm. bit_specs. split_bits.
Qed.

(** The bit tests of [isArray], [isObject], [isCollection] and [release]
    read the kind only. *)
Lemma flags_land_kind_bit (v : VariantData) (b : Z) :
  Z.land b VALUE_MASK = b -> Z.land (flags_ v) b = Z.land (type v) b.
Proof.
  intros Hb. unfold type. apply Z.bits_inj'. intros n Hn.
  read_bit n Hb. bit_specs. split_bits.
Qed.

Lemma isArray_kind (v : VariantData) :
  type v ∈ kinds -> isArray v = bool_decide (type v = VALUE_IS_ARRAY).
Proof.
  intros Hk. unfold isArray.
  rewrite flags_land_kind_bit by (apply kind_in_mask; unfold kinds; in_list).
  case_bool_decide as Ht.
  - rewrite Ht, Z.land_diag.
    pose proof (array_bit_set layout). now destruct (Z.eqb_spec VALUE_IS_ARRAY 0).
  - pose proof (array_bit_alone layout) as HF. rewrite Forall_forall in HF.
    now rewrite (HF _ Hk Ht).
Qed.

Lemma isObject_kind (v : VariantData) :
  type v ∈ kinds -> isObject v = bool_decide (type v = VALUE_IS_OBJECT).
Proof.
  intros Hk. unfold isObject.
  rewrite flags_land_kind_bit by (apply kind_in_mask; unfold kinds; in_list).
  case_bool_decide as Ht.
  - rewrite Ht, Z.land_diag.
    pose proof (object_bit_set layout).
    now destruct (Z.eqb_spec VALUE_IS_OBJECT 0).
  - pose proof (object_bit_alone layout) as HF. rewrite Forall_forall in HF.
    now rewrite (HF _ Hk Ht).
Qed.

Lemma isCollection_split (v : VariantData) :
  isCollection v = isObject v || isArray v.
Proof.
  unfold isCollection, isObject, isArray.
  rewrite (collection_mask_def layout), Z.land_lor_distr_r.
  destruct (Z.eqb_spec (Z.land (flags_ v) VALUE_IS_OBJECT) 0) as [->|Ho];
    destruct (Z.eqb_spec (Z.land (flags_ v) VALUE_IS_ARRAY) 0) as [->|Ha];
    cbn; try reflexivity;
    match goal with
    | |- negb (?x =? 0) = true =>
        destruct (Z.eqb_spec x 0) as [Hz|]; [|reflexivity];
        apply Z.lor_eq_0_iff in Hz; destruct Hz; congruence
    end.
Qed.

Lemma isCollection_kind (v : VariantData) :
  type v ∈ kinds ->
  isCollection v
  = bool_decide (type v = VALUE_IS_OBJECT) || bool_decide (type v = VALUE_IS_ARRAY).
Proof.
  intros Hk. now rewrite isCollection_split, isObject_kind, isArray_kind.
Qed.

Lemma owned_value_kind (v : VariantData) :
  type v ∈ kinds ->
  negb (Z.land (flags_ v) OWNED_VALUE_BIT =? 0)
  = bool_decide (type v = VALUE_IS_OWNED_STRING)
    || bool_decide (type v = VALUE_IS_RAW_STRING).
Proof.
  intros Hk. rewrite flags_land_kind_bit by apply (owned_value_in_mask layout).
  pose proof (owned_value_kinds layout) as HF. rewrite Forall_forall in HF.
  specialize (HF _ Hk).
  destruct (Z.eqb_spec (Z.land (type v) OWNED_VALUE_BIT) 0) as [Hz|Hz]; cbn.
  - symmetry. apply orb_false_intro; apply bool_decide_eq_false; tauto.
  - symmetry. apply HF in Hz as [Hz|Hz]; rewrite Hz.
    + now rewrite bool_decide_eq_true_2.
    + rewrite (bool_decide_eq_true_2 (VALUE_IS_RAW_STRING = VALUE_IS_RAW_STRING))
        by done.
      apply orb_true_r.
Qed.

(** Two kinds listed at different places are different. *)
Lemma kinds_differ (i j : nat) (a b : Z) :
  kinds !! i = Some a -> kinds !! j = Some b -> i <> j -> a <> b.
Proof.
  intros Hi Hj Hij Hab. subst b. apply Hij.
  exact (NoDup_lookup _ _ _ _ (kinds_distinct layout) Hi Hj).
Qed.

End FlagFacts.

(** The released enumeration has the layout the code assumes. *)
Lemma arduino_layout : @flags_layout arduino_flags.
Proof.
  split; try (repeat constructor; vm_compute; intuition congruence).
  apply (bool_decide_unpack _). vm_compute. exact I.
Qed.

(** All the inequalities between kinds, put in the context. *)
Ltac kinds_apart layout :=
  let ND := fresh "ND" in
  pose proof (kinds_distinct layout) as ND; unfold kinds in ND;
  repeat (apply NoDup_cons in ND as [? ND]);
  clear ND;
  repeat match goal with
         | H : _ ∉ _ :: _ |- _ => apply not_elem_of_cons in H as [? H]
         | H : _ ∉ [] |- _ => clear H
         end.

(** Decide the tests of a [switch] once the kind is known. *)
Ltac switch_on :=
  repeat match goal with
         | |- context [?a =? ?b] =>
             lazymatch b with 0 => fail | _ => idtac end;
             destruct (Z.eqb_spec a b); try congruence; cbn [orb andb negb]
         end.

(** A signed integer read through the unsigned member of the union is
    zero exactly when it is zero. *)
Lemma signed_read_as_unsigned_is_zero (i : Z) :
  - 2 ^ (JSON_INT_BITS - 1) <= i < 2 ^ (JSON_INT_BITS - 1) ->
  (i mod 2 ^ JSON_INT_BITS =? 0) = (i =? 0).
Proof.
  unfold JSON_INT_BITS. intros Hi.
  assert (Hpow : 2 ^ 64 = 2 * 2 ^ (64 - 1)) by reflexivity.
  assert (Hpos : 0 < 2 ^ (64 - 1)) by reflexivity.
  rewrite Hpow. set (P := 2 ^ (64 - 1)) in *. clearbody P. clear Hpow.
  destruct (Z.eqb_spec i 0) as [->|Hne]; [reflexivity|].
  apply Z.eqb_neq. intros Hz.
  apply Z.mod_divide in Hz; [|lia]. destruct Hz as [q Hq].
  assert (Hq3 : q = 0 \/ 1 <= q \/ q <= -1) by lia.
  destruct Hq3 as [->|[Hq1|Hq1]]; nia.
Qed.

Section CellProperties.
Context `{VariantFlags} (layout : flags_layout).

(** C6, as the code has it.  [asBoolean] is a total function.  It is
    false on a Null cell, the stored flag on a boolean, whether the stored
    number differs from zero on the three numeric kinds, and true on every
    other kind: the strings, the raw string, the array and the object. *)
Theorem asBoolean_by_kind (v : VariantData) :
  (type v = VALUE_IS_NULL -> VariantData_asBoolean v = false) /\
  (forall b, type v = VALUE_IS_BOOLEAN -> content_ v = asBoolean b ->
     VariantData_asBoolean v = b) /\
  (forall i, type v = VALUE_IS_SIGNED_INTEGER ->
     content_ v = asSignedInteger i ->
     - 2 ^ (JSON_INT_BITS - 1) <= i < 2 ^ (JSON_INT_BITS - 1) ->
     VariantData_asBoolean v = negb (i =? 0)) /\
  (forall u, type v = VALUE_IS_UNSIGNED_INTEGER ->
     content_ v = asUnsignedInteger u ->
     VariantData_asBoolean v = negb (u =? 0)) /\
  (forall f, type v = VALUE_IS_FLOAT -> content_ v = asFloat f ->
     VariantData_asBoolean v = negb (PrimFloat.eqb f 0%float)) /\
  (type v ∈ [ VALUE_IS_LINKED_STRING; VALUE_IS_OWNED_STRING;
              VALUE_IS_RAW_STRING; VALUE_IS_ARRAY; VALUE_IS_OBJECT ] ->
     VariantData_asBoolean v = true).
Proof.
  kinds_apart layout. unfold VariantData_asBoolean.
  repeat split.
  - intros ->. now switch_on.
  - intros b -> ->. now switch_on.
  - intros i -> -> Hi. switch_on. cbn [content_asUnsignedInteger].
    f_equal. now apply signed_read_as_unsigned_is_zero.
  - intros u -> ->. now switch_on.
  - intros f -> ->. now switch_on.
  - intros Hin. set (t := type v) in *. clearbody t.
    repeat (apply elem_of_cons in Hin as [->|Hin]); try (now switch_on).
Qed.

End CellProperties.

(** C6 as the specification words it fails: on an array, an object and a
    linked string [asBoolean] answers true, not the false default. *)
Lemma asBoolean_true_on_collections_and_strings :
  @VariantData_asBoolean arduino_flags
     (mkVariant (asCollection (mkCollection 0 0)) 0x40) = true /\
  @VariantData_asBoolean arduino_flags
     (mkVariant (asCollection (mkCollection 0 0)) 0x20) = true /\
  @VariantData_asBoolean arduino_flags
     (mkVariant (asLinkedString 1000) 0x04) = true.
Proof. repeat split. Qed.

(** C6 at an array cell of the released enumeration. *)
Lemma asBoolean_by_kind_witness :
  @VariantData_asBoolean arduino_flags
     (mkVariant (asCollection (mkCollection 0 0)) 0x40) = true.
Proof.
  apply (@asBoolean_by_kind arduino_flags arduino_layout
           (mkVariant (asCollection (mkCollection 0 0)) 0x40)).
  in_list.
Defined.

(** ** Reading and writing cells *)

Lemma get_var_set_var (r : VariantRef) (v : VariantData) (st : State) :
  is_Some (get_var r st) -> get_var r (set_var r v st) = Some v.
Proof.
  destruct r as [|p]; cbn; [reflexivity|].
  intros [w Hw]. destruct (slots st !! p) as [s|] eqn:Hs; [|discriminate].
  cbn. now rewrite lookup_insert_eq.
Qed.

Lemma get_var_set_var_ne (r r' : VariantRef) (v : VariantData) (st : State) :
  r <> r' -> get_var r' (set_var r v st) = get_var r' st.
Proof.
  intros Hne. destruct r as [|p], r' as [|q]; cbn; try congruence.
  - now destruct (slots st !! p).
  - destruct (slots st !! p) as [s|] eqn:Hs; [|reflexivity].
    cbn. rewrite lookup_insert_ne; congruence.
Qed.

Lemma get_var_update_var (r : VariantRef) (f : VariantData -> VariantData)
    (st : State) :
  get_var r (update_var r f st) = f <$> get_var r st.
Proof.
  unfold update_var. destruct (get_var r st) as [v|] eqn:Hv; cbn.
  - apply get_var_set_var. now rewrite Hv.
  - now rewrite Hv.
Qed.

Lemma get_var_update_var_ne (r r' : VariantRef)
    (f : VariantData -> VariantData) (st : State) :
  r <> r' -> get_var r' (update_var r f st) = get_var r' st.
Proof.
  intros Hne. unfold update_var. destruct (get_var r st); [|reflexivity].
  now apply get_var_set_var_ne.
Qed.

Lemma slots_update_var_ne (r : VariantRef) (f : VariantData -> VariantData)
    (st : State) (q : Z) :
  r <> SlotVar q -> slots (update_var r f st) !! q = slots st !! q.
Proof.
  intros Hne. unfold update_var. destruct (get_var r st) as [v|]; [|reflexivity].
  destruct r as [|p]; cbn; [reflexivity|].
  destruct (slots st !! p) as [s|]; [|reflexivity].
  cbn. rewrite lookup_insert_ne; congruence.
Qed.

(** ** A memory to run the model on

    The released layout of a string node on a 32-bit target (a pointer and
    two 16-bit counters before the text), and a caller memory that holds
    the empty string at 1000, the text 42 at 2000, the text 7 right after
    where the text of a node at 2000 would start, and the keys x, y and z. *)
Definition demo_platform : Platform := {|
  DATA_OFFSET := 8;
  c_str := fun p =>
    if p =? 1000 then ""%string
    else if p =? 2000 then "42"%string
    else if p =? 2001 then "2"%string
    else if p =? 2008 then "7"%string
    else if p =? 3000 then "x"%string
    else if p =? 3100 then "y"%string
    else if p =? 3200 then "z"%string
    else ""%string
|}.

Section Errors.
Context `{VariantFlags} `{Platform} (layout : flags_layout).

(** C8, as the code has it.  With a null key [getOrAddMember] fails:
    the result is a null reference, nothing is allocated and nothing is
    changed, whatever the cell holds. *)
Theorem getOrAddMember_null_key (fuel : nat) (this : VariantRef)
    (linked : bool) (st : State) :
  VariantData_getOrAddMember fuel this (mkStr 0 linked) st = (None, st).
Proof. reflexivity. Qed.

End Errors.

(** C8 as the specification words it fails for a key that is empty but
    not null: on a Null root cell the call returns the cell of a new
    member and leaves the root an Object. *)
Lemma getOrAddMember_empty_key_is_accepted :
  let st := mkState (@VariantData_new arduino_flags) ∅ [4000] [] [] in
  let key := mkStr 1000 true in
  @text_at demo_platform st (str_ key) = ""%string /\
  AdaptedString_isNull key = false /\
  fst (@VariantData_getOrAddMember arduino_flags demo_platform 8 RootVar key st)
    = Some (SlotVar 4000) /\
  @type arduino_flags
    (root (snd (@VariantData_getOrAddMember arduino_flags demo_platform 8
                  RootVar key st)))
    = @VALUE_IS_OBJECT arduino_flags.
Proof. vm_compute. repeat split. Qed.

Section Promotion.
Context `{VariantFlags} `{Platform} (layout : flags_layout).

Lemma isNull_kind (v : VariantData) :
  isNull v = bool_decide (type v = VALUE_IS_NULL).
Proof.
  unfold isNull. destruct (Z.eqb_spec (type v) VALUE_IS_NULL).
  - now rewrite bool_decide_eq_true_2.
  - now rewrite bool_decide_eq_false_2.
Qed.

Lemma type_toArray (v : VariantData) : type (toArray v) = VALUE_IS_ARRAY.
Proof.
  unfold toArray, set_content, type. cbn [flags_].
  apply (type_setType layout). unfold kinds. in_list.
Qed.

Lemma type_toObject (v : VariantData) : type (toObject v) = VALUE_IS_OBJECT.
Proof.
  unfold toObject, set_content, type. cbn [flags_].
  apply (type_setType layout). unfold kinds. in_list.
Qed.

(** C2, as the code has it.  On a Null cell [addElement] first makes the
    cell an empty Array; then, if a slot can be allocated, that slot
    becomes the one element of the array and its cell is returned, and if
    none can, the result is null and the cell stays an empty Array.  On a
    cell of any other kind but Array the result is null and nothing is
    changed. *)
Theorem addElement_promotion (this : VariantRef) (v : VariantData)
    (st : State) :
  get_var this st = Some v ->
  type v ∈ kinds ->
  (type v = VALUE_IS_NULL ->
   forall p rest, free_slots st = p :: rest -> p <> 0 -> this <> SlotVar p ->
     fst (VariantData_addElement this st) = Some (SlotVar p) /\
     get_var this (snd (VariantData_addElement this st))
       = Some (mkVariant (asCollection (mkCollection p p)) (flags_ (toArray v))) /\
     type (toArray v) = VALUE_IS_ARRAY /\
     slots (snd (VariantData_addElement this st)) !! p = Some VariantSlot_new) /\
  (type v = VALUE_IS_NULL -> free_slots st = [] ->
     VariantData_addElement this st = (None, update_var this toArray st) /\
     get_var this (update_var this toArray st)
       = Some (mkVariant (asCollection (mkCollection 0 0)) (flags_ (toArray v)))) /\
  (type v <> VALUE_IS_NULL -> type v <> VALUE_IS_ARRAY ->
     VariantData_addElement this st = (None, st)).
Proof.
  intros Hv Hk. unfold VariantData_addElement. rewrite Hv, isNull_kind.
  split; [|split].
  - intros Hnull p rest Hfree Hp Hne.
    rewrite bool_decide_eq_true_2 by done.
    cbn [ArrayData_addElement_static]. unfold ArrayData_addElement, allocVariant.
    replace (free_slots (update_var this toArray st)) with (p :: rest)
      by (rewrite <- Hfree; unfold update_var; rewrite Hv;
          destruct this as [|q]; cbn; [reflexivity|];
          now destruct (slots st !! q)).
    destruct (Z.eqb_spec p 0) as [|_]; [done|]. cbn [fst snd].
    set (st1 := update_var this toArray st).
    set (st2 := mkState _ _ _ _ _).
    assert (Hthis2 : get_var this st2 = Some (toArray v)).
    { transitivity (get_var this st1).
      - destruct this as [|q]; cbn; [reflexivity|].
        rewrite lookup_insert_ne by congruence. reflexivity.
      - subst st1. now rewrite get_var_update_var, Hv. }
    unfold CollectionData_add. rewrite Hthis2.
    cbn [toArray set_content content_ content_asCollection tail_].
    cbn [Z.eqb negb]. unfold update_collection.
    repeat split.
    + rewrite get_var_update_var, Hthis2. reflexivity.
    + apply type_toArray.
    + rewrite slots_update_var_ne by done. subst st2. cbn.
      now rewrite lookup_insert_eq.
  - intros Hnull Hfree. rewrite bool_decide_eq_true_2 by done.
    cbn [ArrayData_addElement_static]. unfold ArrayData_addElement, allocVariant.
    replace (free_slots (update_var this toArray st)) with (@nil Z)
      by (rewrite <- Hfree; unfold update_var; rewrite Hv;
          destruct this as [|q]; cbn; [reflexivity|];
          now destruct (slots st !! q)).
    cbn. split; [reflexivity|]. now rewrite get_var_update_var, Hv.
  - intros Hnn Hna. rewrite bool_decide_eq_false_2 by done.
    unfold VariantData_asArray. rewrite Hv, (isArray_kind layout) by done.
    now rewrite bool_decide_eq_false_2.
Qed.

End Promotion.

(** C2 at a Null root with one free slot. *)
Lemma addElement_promotion_witness :
  fst (@VariantData_addElement arduino_flags RootVar
         (mkState (@VariantData_new arduino_flags) ∅ [4000] [] []))
  = Some (SlotVar 4000).
Proof.
  destruct (@addElement_promotion arduino_flags arduino_layout RootVar
              (@VariantData_new arduino_flags)
              (mkState (@VariantData_new arduino_flags) ∅ [4000] [] [])
              eq_refl) as [W _].
  - unfold kinds. in_list.
  - apply (W eq_refl 4000 []); [reflexivity | lia | discriminate].
Defined.

(** C2 as the specification words it fails when the arena is exhausted:
    the Null root is made an Array, nothing is appended to it and the
    result is null. *)
Lemma addElement_without_free_slot :
  let r := @VariantData_addElement arduino_flags RootVar
             (mkState (@VariantData_new arduino_flags) ∅ [] [] []) in
  fst r = None /\
  @isArray arduino_flags (root (snd r)) = true /\
  head_ (content_asCollection (content_ (root (snd r)))) = 0.
Proof. vm_compute. repeat split. Qed.

(** ** Release and the null source *)

Section Release.
Context `{VariantFlags} `{Platform} (layout : flags_layout).

Lemma dom_slots_update_var (r : VariantRef) (f : VariantData -> VariantData)
    (st : State) :
  dom (slots (update_var r f st)) = dom (slots st).
Proof.
  unfold update_var. destruct (get_var r st) as [v|]; [|reflexivity].
  destruct r as [|p]; cbn; [reflexivity|].
  destruct (slots st !! p) as [s|] eqn:Hs; [|reflexivity].
  cbn. rewrite dom_insert_L. apply elem_of_dom_2 in Hs.
  apply subseteq_union_1_L. now apply singleton_subseteq_l.
Qed.

Lemma slots_dereferenceString (q : Z) (st : State) :
  slots (dereferenceString q st) = slots st.
Proof. unfold dereferenceString. now destruct (drop_reference q (strings st)). Qed.

Lemma root_dereferenceString (q : Z) (st : State) :
  root (dereferenceString q st) = root st.
Proof. unfold dereferenceString. now destruct (drop_reference q (strings st)). Qed.

(** The equations of [release] and its companions. *)
Lemma release_S (f : nat) (this : VariantRef) (st : State) :
  release (S f) this st =
  match get_var this st with
  | None => st
  | Some v =>
      let st1 :=
        if negb (Z.land (flags_ v) OWNED_VALUE_BIT =? 0)
        then dereferenceString
               (content_asOwnedString (content_ v) + DATA_OFFSET) st
        else st in
      if isCollection v
      then release_loop f (head_ (content_asCollection (content_ v))) st1
      else st1
  end.
Proof. reflexivity. Qed.

Lemma release_loop_S (f : nat) (slot : Z) (st : State) :
  release_loop (S f) slot st =
  if slot =? 0 then st
  else match slots (slotRelease f slot st) !! slot with
       | None => slotRelease f slot st
       | Some s => release_loop f (slot_next slot s) (slotRelease f slot st)
       end.
Proof. reflexivity. Qed.

Lemma slotRelease_S (f : nat) (slot : Z) (st : State) :
  slotRelease (S f) slot st =
  match slots st !! slot with
  | None => st
  | Some s =>
      update_var (SlotVar slot) setNull
        (release f (SlotVar slot)
           (if ownsKey s then dereferenceString (key_ s) st else st))
  end.
Proof. reflexivity. Qed.

(** [release] frees no slot: the cells that exist before exist after. *)
Lemma release_keeps_slots (fuel : nat) :
  (forall this st, dom (slots (release fuel this st)) = dom (slots st)) /\
  (forall slot st, dom (slots (release_loop fuel slot st)) = dom (slots st)) /\
  (forall slot st, dom (slots (slotRelease fuel slot st)) = dom (slots st)).
Proof.
  induction fuel as [|f [IH1 [IH2 IH3]]]; [now repeat split|].
  split; [|split].
  - intros this st. rewrite release_S.
    destruct (get_var this st) as [v|]; [|reflexivity].
    cbv zeta. destruct (isCollection v).
    + rewrite IH2. destruct (negb _); [apply f_equal, slots_dereferenceString|done].
    + destruct (negb _); [apply f_equal, slots_dereferenceString|done].
  - intros slot st. rewrite release_loop_S. destruct (slot =? 0); [reflexivity|].
    destruct (slots (slotRelease f slot st) !! slot).
    + now rewrite IH2, IH3.
    + apply IH3.
  - intros slot st. rewrite slotRelease_S.
    destruct (slots st !! slot) as [s|]; [|reflexivity].
    rewrite dom_slots_update_var, IH1.
    destruct (ownsKey s); [apply f_equal, slots_dereferenceString|done].
Qed.

Lemma release_keeps_cell (fuel : nat) (this r : VariantRef) (st : State) :
  is_Some (get_var r st) -> is_Some (get_var r (release fuel this st)).
Proof.
  destruct r as [|p]; cbn; [eauto|].
  rewrite !fmap_is_Some, <- !elem_of_dom.
  now rewrite (proj1 (release_keeps_slots fuel)).
Qed.

End Release.

(** ** Numbers read from strings *)

Section Numbers.
Context `{VariantFlags} `{Platform} (layout : flags_layout).
Context {T : Type} `{NumberOps T}.

(** The text of a string cell: what [asString] designates. *)
Definition string_text (st : State) (v : VariantData) : string :=
  text_at st (str_ (VariantData_asString v)).

(** What the code does on string kinds: [asIntegral] parses the text of
    the cell, for both kinds, and so does [asFloat] for an owned string. *)
Lemma asIntegral_parses_text (st : State) (v : VariantData) :
  type v = VALUE_IS_LINKED_STRING \/ type v = VALUE_IS_OWNED_STRING ->
  VariantData_asIntegral st v = parseNumber (string_text st v).
Proof.
  kinds_apart layout. unfold VariantData_asIntegral, string_text,
    VariantData_asString.
  intros [Ht|Ht]; rewrite Ht; now switch_on.
Qed.

Lemma asFloat_parses_owned_text (st : State) (v : VariantData) :
  type v = VALUE_IS_OWNED_STRING ->
  VariantData_asFloat st v = parseNumber (string_text st v).
Proof.
  kinds_apart layout. unfold VariantData_asFloat, string_text,
    VariantData_asString.
  intros Ht; rewrite Ht; now switch_on.
Qed.

(** On a linked string [asFloat] parses what lies [DATA_OFFSET] bytes
    after the text. *)
Lemma asFloat_linked_reads_at_offset (st : State) (v : VariantData) (p : Z) :
  type v = VALUE_IS_LINKED_STRING ->
  content_ v = asLinkedString p ->
  VariantData_asFloat st v = parseNumber (text_at st (p + DATA_OFFSET)).
Proof.
  kinds_apart layout. unfold VariantData_asFloat.
  intros Ht Hc; rewrite Ht, Hc; now switch_on.
Qed.

End Numbers.

(** C5 at a linked string cell.  The cell links the text 42 at address
    2000.  [asIntegral] parses that text; [asFloat] parses the text 7
    found eight bytes further. *)
Theorem asFloat_on_linked_string_misses_the_text :
  forall (T : Type) (N : NumberOps T),
  let st := mkState (@VariantData_new arduino_flags) ∅ [] [] [] in
  let cell := mkVariant (asLinkedString 2000) 0x04 in
  @string_text arduino_flags demo_platform st cell = "42"%string /\
  @VariantData_asIntegral arduino_flags demo_platform T N st cell
    = parseNumber "42"%string /\
  @VariantData_asFloat arduino_flags demo_platform T N st cell
    = parseNumber "7"%string.
Proof. intros T N. repeat split. Qed.

(** ** Slot chains

    [chain m p l]: following the next links from the slot pointer [p] in
    the store [m] visits exactly the slots [l], in this order, and then
    reaches null. *)
Inductive chain (m : gmap Z VariantSlot) : Z -> list Z -> Prop :=
  | chain_nil : chain m 0 []
  | chain_cons (p : Z) (s : VariantSlot) (l : list Z) :
      p <> 0 -> m !! p = Some s -> chain m (slot_next p s) l ->
      chain m p (p :: l).

(** The invariant of a collection held by the cell [this]: the chain from
    its head is [l], its tail is the last slot of [l] (null if there is
    none), and its head is null exactly when [l] is empty. *)
Definition collection_at (this : VariantRef) (st : State) (l : list Z) : Prop :=
  exists v, get_var this st = Some v /\
    chain (slots st) (head_ (content_asCollection (content_ v))) l /\
    tail_ (content_asCollection (content_ v)) = default 0 (last l) /\
    (head_ (content_asCollection (content_ v)) = 0 <-> l = []).

(** Appending slots one after the other. *)
Definition add_all (this : VariantRef) (xs : list Z) (st : State) : State :=
  fold_left (fun st x => CollectionData_add this x st) xs st.

Lemma chain_null (m : gmap Z VariantSlot) (p : Z) (l : list Z) :
  chain m p l -> (p = 0 <-> l = []).
Proof. intros [|q s l' Hq _ _]; split; congruence. Qed.

Lemma chain_functional (m : gmap Z VariantSlot) (p : Z) (l1 l2 : list Z) :
  chain m p l1 -> chain m p l2 -> l1 = l2.
Proof.
  intros H1. revert l2. induction H1 as [|p s l Hp Hs _ IH]; intros l2 H2.
  - inversion H2; congruence.
  - inversion H2 as [|p' s' l' Hp' Hs' Hc']; subst; [congruence|].
    rewrite Hs in Hs'. injection Hs' as <-. f_equal. now apply IH.
Qed.

Lemma chain_suffix (m : gmap Z VariantSlot) (p q : Z) (l1 l2 : list Z) :
  chain m p (l1 ++ q :: l2) -> chain m q (q :: l2).
Proof.
  revert p. induction l1 as [|a l1 IH]; intros p Hc; cbn in Hc.
  - inversion Hc; subst. econstructor; eauto.
  - inversion Hc; subst. eauto.
Qed.

Lemma chain_NoDup (m : gmap Z VariantSlot) (p : Z) (l : list Z) :
  chain m p l -> NoDup l.
Proof.
  induction 1 as [|p s l Hp Hs Hc IH]; constructor; [|assumption].
  intros Hin. apply list_elem_of_split in Hin as (l1 & l2 & ->).
  pose proof (chain_suffix _ _ _ _ _ Hc) as Hq.
  pose proof (chain_cons m p s _ Hp Hs Hc) as Hfull.
  pose proof (chain_functional _ _ _ _ Hq Hfull) as Heq.
  apply (f_equal length) in Heq. cbn in Heq. rewrite length_app in Heq.
  cbn in Heq. lia.
Qed.

Lemma chain_in_store (m : gmap Z VariantSlot) (p : Z) (l : list Z) :
  chain m p l -> forall q, q ∈ l -> q <> 0 /\ is_Some (m !! q).
Proof.
  induction 1 as [|p s l Hp Hs Hc IH]; intros q Hq.
  - now apply elem_of_nil in Hq.
  - apply elem_of_cons in Hq as [->|Hq]; eauto.
Qed.

(** A chain reads the links of its own slots only. *)
Lemma chain_frame (m m' : gmap Z VariantSlot) (p : Z) (l : list Z) :
  chain m p l ->
  (forall q, q ∈ l -> next_ <$> m' !! q = next_ <$> m !! q) ->
  chain m' p l.
Proof.
  induction 1 as [|p s l Hp Hs Hc IH]; intros Hsame; [constructor|].
  pose proof (Hsame p (list_elem_of_here _ _)) as Hn. rewrite Hs in Hn.
  destruct (m' !! p) as [s'|] eqn:Hs'; [|discriminate].
  cbn in Hn. injection Hn as Hn.
  apply (chain_cons m' p s'); [assumption | assumption |].
  replace (slot_next p s') with (slot_next p s)
    by (unfold slot_next; now rewrite Hn).
  apply IH. intros q Hq. apply Hsame. now apply list_elem_of_further.
Qed.

(** Linking a fresh slot after the last slot of a chain. *)
Lemma chain_snoc (m : gmap Z VariantSlot) (p t slot : Z) (l : list Z)
    (st ss : VariantSlot) :
  chain m p l -> last l = Some t -> m !! t = Some st ->
  slot <> 0 -> slot ∉ l -> m !! slot = Some ss -> next_ ss = 0 ->
  chain (<[t := mkSlot (data st) (slot - t) (key_ st)]> m) p (l ++ [slot]).
Proof.
  intros Hc. pose proof (chain_NoDup _ _ _ Hc) as Hnd.
  induction Hc as [|p s l Hp Hs Hc IH]; intros Hlast Ht Hslot Hnin Hss Hnext;
    [discriminate|].
  apply not_elem_of_cons in Hnin as [Hne Hnin].
  apply NoDup_cons in Hnd as [Hpl Hnd].
  destruct l as [|a l].
  - cbn in Hlast. injection Hlast as <-. rewrite Hs in Ht. injection Ht as <-.
    cbn. apply (chain_cons _ p (mkSlot (data s) (slot - p) (key_ s)));
      [assumption | apply lookup_insert_eq |].
    unfold slot_next. cbn [next_].
    destruct (Z.eqb_spec (slot - p) 0) as [|_]; [lia|].
    replace (p + (slot - p)) with slot by lia.
    apply (chain_cons _ slot ss); [assumption | |].
    + rewrite lookup_insert_ne by congruence. assumption.
    + unfold slot_next. rewrite Hnext. cbn. constructor.
  - assert (Hlast' : last (a :: l) = Some t) by exact Hlast.
    assert (Hpt : p <> t).
    { intros ->. apply Hpl.
      rewrite last_Some in Hlast'. destruct Hlast' as [l' Hl'].
      rewrite Hl'. apply elem_of_app. right. apply list_elem_of_here. }
    cbn. apply (chain_cons _ p s); [assumption | |].
    + rewrite lookup_insert_ne by congruence. assumption.
    + apply IH; assumption.
Qed.

Lemma links_update_var (r : VariantRef) (f : VariantData -> VariantData)
    (st : State) (q : Z) :
  next_ <$> slots (update_var r f st) !! q = next_ <$> slots st !! q.
Proof.
  unfold update_var. destruct (get_var r st) as [v|]; [|reflexivity].
  destruct r as [|p]; cbn; [reflexivity|].
  destruct (slots st !! p) as [s|] eqn:Hs; [|reflexivity]. cbn.
  destruct (decide (p = q)) as [->|Hne].
  - now rewrite lookup_insert_eq, Hs.
  - now rewrite lookup_insert_ne.
Qed.

Lemma slotSize_chain (st : State) (p : Z) (l : list Z) (fuel : nat) :
  chain (slots st) p l -> (length l < fuel)%nat ->
  slotSize fuel st p = Z.of_nat (length l).
Proof.
  intros Hc. revert fuel.
  induction Hc as [|p s l Hp Hs Hc IH]; intros fuel Hf.
  - destruct fuel; [lia|reflexivity].
  - destruct fuel as [|f]; [cbn in Hf; lia|]. cbn [slotSize].
    destruct (Z.eqb_spec p 0) as [|_]; [congruence|]. rewrite Hs.
    rewrite IH by (cbn in Hf; lia). cbn [length]. lia.
Qed.

(** One [add]: the chain gains the slot at its end, the tail is the slot,
    and no slot outside the chain is touched. *)
Lemma add_step (this : VariantRef) (slot : Z) (st : State) (l : list Z)
    (ss : VariantSlot) :
  collection_at this st l ->
  slot <> 0 -> slot ∉ l -> slots st !! slot = Some ss -> next_ ss = 0 ->
  this <> SlotVar slot -> (forall q, q ∈ l -> this <> SlotVar q) ->
  collection_at this (CollectionData_add this slot st) (l ++ [slot]) /\
  (forall q, q ∉ l -> this <> SlotVar q ->
     slots (CollectionData_add this slot st) !! q = slots st !! q).
Proof.
  intros (v & Hv & Hc & Ht & Hh) Hslot Hnin Hss Hnext Hthis Hl.
  unfold CollectionData_add. rewrite Hv.
  destruct (last l) as [t|] eqn:Hlast.
  - (* a tail exists *)
    cbn in Ht. rewrite Ht.
    assert (Htl : t ∈ l).
    { apply last_Some in Hlast as [l' ->]. apply elem_of_app. right.
      apply list_elem_of_here. }
    destruct (chain_in_store _ _ _ Hc t Htl) as [Ht0 [s_t Hst]].
    destruct (Z.eqb_spec t 0) as [|_]; [congruence|]. cbn [negb].
    unfold setNextNotNull, update_slot. rewrite Hst.
    set (st1 := set_slots _ st).
    assert (Hv1 : get_var this st1 = Some v).
    { rewrite <- Hv. destruct this as [|q]; cbn; [reflexivity|].
      rewrite lookup_insert_ne; [reflexivity|].
      intros ->. now apply (Hl q Htl). }
    unfold update_collection. split.
    + exists (set_content
                (asCollection
                   (mkCollection (head_ (content_asCollection (content_ v))) slot))
                v).
      rewrite get_var_update_var, Hv1. split; [reflexivity|].
      cbn [set_content content_ content_asCollection head_ tail_].
      split; [|split].
      * eapply chain_frame; [|intros q _; apply links_update_var].
        subst st1. cbn [slots set_slots].
        eapply chain_snoc; eauto.
      * now rewrite last_snoc.
      * split; [|intros Habs; now destruct l].
        intros Hz. apply Hh in Hz. subst l. discriminate.
    + intros q Hq Hqthis. rewrite slots_update_var_ne by done.
      subst st1. cbn [slots set_slots]. rewrite lookup_insert_ne; [reflexivity|].
      intros ->. contradiction.
  - (* the collection is empty *)
    apply last_None in Hlast. subst l. cbn in Ht. rewrite Ht. cbn [Z.eqb negb].
    unfold update_collection. split.
    + exists (set_content (asCollection (mkCollection slot slot)) v).
      rewrite get_var_update_var, Hv. split; [reflexivity|].
      cbn [set_content content_ content_asCollection head_ tail_ app].
      split; [|split].
      * eapply chain_frame; [|intros q _; apply links_update_var].
        apply (chain_cons _ slot ss); [assumption | assumption |].
        unfold slot_next. rewrite Hnext. constructor.
      * reflexivity.
      * split; [congruence | discriminate].
    + intros q _ Hqthis. now rewrite slots_update_var_ne.
Qed.

Lemma add_all_spec (this : VariantRef) (ys : list Z) :
  forall (l : list Z) (st : State),
  collection_at this st l ->
  NoDup (l ++ ys) ->
  Forall (fun q => this <> SlotVar q) (l ++ ys) ->
  Forall (fun x => x <> 0 /\ exists s, slots st !! x = Some s /\ next_ s = 0) ys ->
  collection_at this (add_all this ys st) (l ++ ys).
Proof.
  induction ys as [|y ys IH]; intros l st Hcoll Hnd Hthis Hfresh.
  - now rewrite app_nil_r.
  - cbn [add_all fold_left].
    apply Forall_cons in Hfresh as [(Hy0 & sy & Hsy & Hny) Hfresh].
    pose proof Hnd as Hnd'. apply NoDup_app in Hnd' as (_ & Hdisj & Hndy).
    apply NoDup_cons in Hndy as [Hyys _].
    rewrite Forall_app in Hthis. destruct Hthis as [Hthl Hthy].
    apply Forall_cons in Hthy as [Hthy Hthys].
    rewrite Forall_forall in Hthl.
    assert (Hyl : y ∉ l).
    { intros Hin. apply (Hdisj y Hin). apply list_elem_of_here. }
    destruct (add_step this y st l sy Hcoll Hy0 Hyl Hsy Hny Hthy Hthl)
      as [Hcoll' Hframe].
    replace (l ++ y :: ys) with ((l ++ [y]) ++ ys)
      by (now rewrite <- app_assoc).
    apply IH.
    + assumption.
    + now rewrite <- app_assoc.
    + rewrite Forall_app. split; [|assumption].
      rewrite Forall_app. split; [now rewrite Forall_forall|].
      now repeat constructor.
    + rewrite Forall_forall in Hfresh, Hthys. rewrite Forall_forall.
      intros x Hx. destruct (Hfresh x Hx) as (Hx0 & sx & Hsx & Hnx).
      split; [assumption|]. exists sx. split; [|assumption].
      rewrite Hframe; [assumption | | now apply Hthys].
      intros Hin. apply (Hdisj x Hin). now apply list_elem_of_further.
Qed.

(** C7.  [add] keeps the invariant of a collection: appending fresh slots
    [xs] (not null, without a successor, distinct from each other, from
    the slots of the collection and from the cell that holds it) to a
    collection whose chain is [l] gives, after every append, a collection
    whose chain is [l] followed by the slots appended so far, in the order
    they were appended; its tail is the last of them, its head is null
    only if the chain is empty, and [size] is the number of slots. *)
Theorem add_keeps_collection_invariant (this : VariantRef) (st : State)
    (l xs : list Z) :
  collection_at this st l ->
  NoDup (l ++ xs) ->
  Forall (fun q => this <> SlotVar q) (l ++ xs) ->
  Forall (fun x => x <> 0 /\ exists s, slots st !! x = Some s /\ next_ s = 0) xs ->
  forall ys zs, xs = ys ++ zs ->
    collection_at this (add_all this ys st) (l ++ ys) /\
    (forall v, get_var this (add_all this ys st) = Some v ->
       tail_ (content_asCollection (content_ v)) = default 0 (last (l ++ ys)) /\
       forall fuel, (length (l ++ ys) < fuel)%nat ->
         CollectionData_size fuel (add_all this ys st)
           (content_asCollection (content_ v))
         = Z.of_nat (length (l ++ ys))).
Proof.
  intros Hcoll Hnd Hthis Hfresh ys zs ->.
  assert (Hmain : collection_at this (add_all this ys st) (l ++ ys)).
  { apply add_all_spec.
    - assumption.
    - rewrite app_assoc in Hnd. now apply NoDup_app in Hnd as [? _].
    - rewrite app_assoc, Forall_app in Hthis. tauto.
    - rewrite Forall_app in Hfresh. tauto. }
  split; [assumption|].
  intros v Hv. destruct Hmain as (v0 & Hv0 & Hc & Ht & _).
  rewrite Hv in Hv0. injection Hv0 as <-.
  split; [assumption|].
  intros fuel Hfuel. unfold CollectionData_size. now apply slotSize_chain.
Qed.

(** C7 at three slots [a], [b], [c] appended to the empty array of the
    root: the chain is [a; b; c], the tail is [c] and the size is 3. *)
Lemma add_keeps_collection_invariant_witness :
  let st := mkState (mkVariant (asCollection (mkCollection 0 0)) 0x40)
              (<[4000 := mkSlot (mkVariant (asUnsignedInteger 0) 0) 0 0]>
                 (<[4016 := mkSlot (mkVariant (asUnsignedInteger 0) 0) 0 0]>
                    (<[4032 := mkSlot (mkVariant (asUnsignedInteger 0) 0) 0 0]> ∅)))
              [] [] [] in
  collection_at RootVar (add_all RootVar [4000; 4016; 4032] st)
    [4000; 4016; 4032] /\
  tail_ (content_asCollection
           (content_ (root (add_all RootVar [4000; 4016; 4032] st)))) = 4032 /\
  CollectionData_size 4 (add_all RootVar [4000; 4016; 4032] st)
    (content_asCollection
       (content_ (root (add_all RootVar [4000; 4016; 4032] st)))) = 3.
Proof.
  intros st.
  destruct (add_keeps_collection_invariant RootVar st [] [4000; 4016; 4032])
    with (ys := [4000; 4016; 4032]) (zs := @nil Z) as [W1 W2].
  - exists (root st). split; [reflexivity|]. cbn. repeat split; try constructor.
  - cbn. apply (bool_decide_unpack _). vm_compute. exact I.
  - repeat constructor; discriminate.
  - repeat constructor; try lia; eexists; (split; [vm_compute; reflexivity|reflexivity]).
  - reflexivity.
  - split; [exact W1|].
    destruct (W2 _ eq_refl) as [W3 W4]. split; [exact W3|].
    apply (W4 4%nat). cbn. lia.
Defined.

(** ** Object equality *)

Section ObjectEquality.
Context `{VariantFlags} `{Platform}.
Variable compare : State -> VariantRef -> VariantRef -> CompareResult.

(** The first slot of [lb] whose key has the text [k]. *)
Definition first_match (st : State) (lb : list Z) (k : string) : option Z :=
  List.find
    (fun b => match slots st !! b with
              | Some s => String.eqb k (text_at st (key_ s))
              | None => false
              end) lb.

(** What the specification asks of one member [a] of the left operand:
    it has a key, the key is found in the right operand, and the value
    found first compares equal. *)
Definition member_matches (st : State) (lb : list Z) (a : Z) : bool :=
  match slots st !! a with
  | None => false
  | Some sa =>
      negb (key_ sa =? 0) &&
      match first_match st lb (text_at st (key_ sa)) with
      | Some b => is_equal (compare st (SlotVar a) (SlotVar b))
      | None => false
      end
  end.

Lemma get_loop_chain (st : State) (key : AdaptedString) (p : Z) (lb : list Z)
    (fuel : nat) :
  chain (slots st) p lb -> (length lb < fuel)%nat ->
  get_loop fuel st key p
  = default 0 (first_match st lb (text_at st (str_ key))).
Proof.
  intros Hc. revert fuel.
  induction Hc as [|p s l Hp Hs Hc IH]; intros fuel Hf.
  - destruct fuel; [lia|reflexivity].
  - destruct fuel as [|f]; [cbn in Hf; lia|]. cbn [get_loop].
    destruct (Z.eqb_spec p 0) as [|_]; [congruence|]. rewrite Hs.
    unfold first_match. cbn [List.find]. rewrite Hs.
    unfold stringEquals. cbn [str_].
    destruct (String.eqb _ _); [reflexivity|].
    apply IH. cbn in Hf. lia.
Qed.

Lemma first_match_in (st : State) (lb : list Z) (k : string) (b : Z) :
  first_match st lb k = Some b -> b ∈ lb.
Proof.
  unfold first_match. intros Hf. apply find_some in Hf as [Hin _].
  now apply list_elem_of_In.
Qed.

Lemma objectEquals_loop_chain (st : State) (rhs : CollectionData)
    (a : Z) (la lb : list Z) (fuel inner : nat) (count : Z) :
  chain (slots st) a la -> chain (slots st) (head_ rhs) lb ->
  (length la < fuel)%nat -> (length lb < inner)%nat ->
  objectEquals_loop compare fuel inner st rhs a count
  = forallb (member_matches st lb) la
    && (count + Z.of_nat (length la) =? Z.of_nat (length lb)).
Proof.
  intros Ha Hb. revert fuel count.
  induction Ha as [|a sa la Hp Hs Ha IH]; intros fuel count Hf Hi.
  - destruct fuel; [lia|]. cbn [objectEquals_loop forallb length andb].
    cbn [Z.eqb]. unfold CollectionData_size.
    rewrite (slotSize_chain st _ lb) by assumption. now rewrite Z.add_0_r.
  - destruct fuel as [|f]; [cbn in Hf; lia|]. cbn [objectEquals_loop].
    destruct (Z.eqb_spec a 0) as [|_]; [congruence|]. rewrite Hs.
    cbn [forallb]. unfold member_matches at 1. rewrite Hs.
    unfold CollectionData_get, AdaptedString_isNull. cbn [str_].
    destruct (Z.eqb_spec (key_ sa) 0) as [Hk|Hk]; cbn [negb andb].
    + reflexivity.
    + rewrite (get_loop_chain st _ _ lb) by assumption. cbn [str_].
      destruct (first_match st lb (text_at st (key_ sa))) as [b|] eqn:Hfm;
        cbn [default from_option id].
      * apply first_match_in in Hfm.
        destruct (chain_in_store _ _ _ Hb b Hfm) as [Hb0 _].
        destruct (Z.eqb_spec b 0) as [|_]; [congruence|].
        destruct (is_equal (compare st (SlotVar a) (SlotVar b)));
          cbn [negb andb]; [|reflexivity].
        rewrite IH by (cbn in Hf; lia || assumption).
        f_equal. cbn [length]. f_equal. lia.
      * reflexivity.
Qed.

(** The text of the key of a slot, as the lookup reads it. *)
Definition key_text (st : State) (q : Z) : string :=
  match slots st !! q with
  | Some s => text_at st (key_ s)
  | None => EmptyString
  end.

(** In a chain of distinct keys, the first match of a key is its slot. *)
Lemma first_match_unique (st : State) (la : list Z) (x : Z) :
  NoDup (key_text st <$> la) -> x ∈ la -> is_Some (slots st !! x) ->
  first_match st la (key_text st x) = Some x.
Proof.
  induction la as [|y la IH]; intros Hnd Hx Hsx; [now apply elem_of_nil in Hx|].
  cbn [fmap list_fmap] in Hnd. apply NoDup_cons in Hnd as [Hy Hnd].
  unfold first_match. cbn [List.find].
  destruct (decide (y = x)) as [->|Hne].
  - destruct Hsx as [sx Hsx]. unfold key_text. rewrite Hsx.
    now rewrite String.eqb_refl.
  - apply elem_of_cons in Hx as [->|Hx]; [done|].
    assert (Hdiff : key_text st x <> key_text st y).
    { intros Heq. apply Hy. rewrite <- Heq. apply list_elem_of_fmap.
      now exists x. }
    destruct (slots st !! y) as [sy|] eqn:Hsy.
    + replace (text_at st (key_ sy)) with (key_text st y)
        by (unfold key_text; now rewrite Hsy).
      destruct (String.eqb_spec (key_text st x) (key_text st y)) as [|_];
        [done|].
      now apply IH.
    + now apply IH.
Qed.

Lemma first_match_key (st : State) (la : list Z) (k : string) (b : Z) :
  first_match st la k = Some b ->
  b ∈ la /\ key_text st b = k /\ is_Some (slots st !! b).
Proof.
  unfold first_match. intros Hf. apply find_some in Hf as [Hin Hp].
  split; [now apply list_elem_of_In|]. unfold key_text.
  destruct (slots st !! b) as [s|]; [|discriminate].
  apply String.eqb_eq in Hp. split; [now symmetry|eauto].
Qed.

(** The decision of [objectEquals], as a function of the two lists of
    members. *)
Definition members_equal (st : State) (la lb : list Z) : bool :=
  forallb (member_matches st lb) la
  && (Z.of_nat (length la) =? Z.of_nat (length lb)).

(** The two lists of members have the same keys, and the members of the
    same key have equal values. *)
Definition same_members (st : State) (la lb : list Z) : Prop :=
  (forall a, a ∈ la ->
     exists sa b, slots st !! a = Some sa /\ key_ sa <> 0 /\ b ∈ lb /\
       key_text st b = key_text st a /\
       compare st (SlotVar a) (SlotVar b) = COMPARE_RESULT_EQUAL) /\
  (forall b, b ∈ lb -> exists a, a ∈ la /\ key_text st a = key_text st b).

Lemma members_equal_sets (st : State) (la lb : list Z) :
  NoDup (key_text st <$> la) -> NoDup (key_text st <$> lb) ->
  (forall b, b ∈ lb -> is_Some (slots st !! b)) ->
  (members_equal st la lb = true <-> same_members st la lb).
Proof.
  intros Hna Hnb Hsb. unfold members_equal.
  rewrite andb_true_iff, forallb_forall, Z.eqb_eq. split.
  - intros [Hall Hlen].
    assert (H1 : forall a, a ∈ la ->
      exists sa b, slots st !! a = Some sa /\ key_ sa <> 0 /\ b ∈ lb /\
        key_text st b = key_text st a /\
        compare st (SlotVar a) (SlotVar b) = COMPARE_RESULT_EQUAL).
    { intros a Ha. apply list_elem_of_In in Ha. specialize (Hall a Ha).
      unfold member_matches in Hall.
      destruct (slots st !! a) as [sa|] eqn:Hsa; [|discriminate].
      destruct (Z.eqb_spec (key_ sa) 0) as [|Hk0]; [discriminate|].
      cbn in Hall.
      destruct (first_match st lb (text_at st (key_ sa))) as [b|] eqn:Hfm;
        [|discriminate].
      apply first_match_key in Hfm as (Hb & Hk & _).
      exists sa, b. split; [reflexivity|]. split; [assumption|].
      split; [assumption|]. split.
      + rewrite Hk. unfold key_text. now rewrite Hsa.
      + destruct (compare st (SlotVar a) (SlotVar b)); done. }
    split; [exact H1|].
    assert (Hsub : (key_text st <$> la) ⊆+ (key_text st <$> lb)).
    { apply NoDup_submseteq; [assumption|]. intros k Hk.
      apply list_elem_of_fmap in Hk as (a & -> & Ha).
      destruct (H1 a Ha) as (sa & b & _ & _ & Hb & Hkb & _).
      rewrite <- Hkb. apply list_elem_of_fmap. now exists b. }
    apply submseteq_length_Permutation in Hsub; [|rewrite !length_fmap; lia].
    intros b Hb.
    assert (Hkb : key_text st b ∈ key_text st <$> la).
    { rewrite Hsub. apply list_elem_of_fmap. now exists b. }
    apply list_elem_of_fmap in Hkb as (a & Heq & Ha).
    exists a. split; [assumption|now symmetry].
  - intros [H1 H2]. split.
    + intros a Ha. apply list_elem_of_In in Ha.
      destruct (H1 a Ha) as (sa & b & Hsa & Hk0 & Hb & Hkb & Heq).
      unfold member_matches. rewrite Hsa.
      destruct (Z.eqb_spec (key_ sa) 0) as [|_]; [done|]. cbn [negb andb].
      replace (text_at st (key_ sa)) with (key_text st b)
        by (rewrite Hkb; unfold key_text; now rewrite Hsa).
      rewrite first_match_unique by (assumption || now apply Hsb).
      now rewrite Heq.
    + f_equal.
      rewrite <- (length_fmap (key_text st) la), <- (length_fmap (key_text st) lb).
      apply Permutation_length. apply NoDup_Permutation; try assumption.
      intros k. split; intros Hk; apply list_elem_of_fmap in Hk as (x & -> & Hx).
      * destruct (H1 x Hx) as (sa & b & _ & _ & Hb & Hkb & _).
        rewrite <- Hkb. apply list_elem_of_fmap. now exists b.
      * destruct (H2 x Hx) as (a & Ha & Hka).
        rewrite <- Hka. apply list_elem_of_fmap. now exists a.
Qed.

Lemma same_members_perm (st : State) (la lb la' lb' : list Z) :
  la' ≡ₚ la -> lb' ≡ₚ lb -> same_members st la lb -> same_members st la' lb'.
Proof.
  intros Hpa Hpb [H1 H2]. split.
  - intros a Ha. rewrite Hpa in Ha.
    destruct (H1 a Ha) as (sa & b & Hsa & Hk0 & Hb & Hkb & Heq).
    exists sa, b. rewrite Hpb. done.
  - intros b Hb. rewrite Hpb in Hb. destruct (H2 b Hb) as (a & Ha & Hka).
    exists a. rewrite Hpa. done.
Qed.

Lemma members_equal_perm (st : State) (la lb la' lb' : list Z) :
  NoDup (key_text st <$> la) -> NoDup (key_text st <$> lb) ->
  (forall b, b ∈ lb -> is_Some (slots st !! b)) ->
  la' ≡ₚ la -> lb' ≡ₚ lb ->
  members_equal st la' lb' = members_equal st la lb.
Proof.
  intros Hna Hnb Hsb Hpa Hpb. apply Bool.eq_iff_eq_true.
  rewrite (members_equal_sets st la lb) by assumption.
  rewrite (members_equal_sets st la' lb').
  - split; apply same_members_perm; done.
  - now rewrite Hpa.
  - now rewrite Hpb.
  - intros b Hb. rewrite Hpb in Hb. now apply Hsb.
Qed.

(** C3.  Two objects are equal exactly when every member of the left
    operand has a key that is found in the right operand (first match, by
    the content of the key) with a value that compares equal, and the
    right operand has as many members as the left one.  So a key of the
    left operand that the right one lacks, or a different number of
    members, makes the objects unequal.

    When no key occurs twice in either operand, this is the equality of
    the two sets of keys with equal values at each key: a key that only
    the right operand has makes the objects unequal, and the order of the
    members does not matter, the decision [members_equal] being the same
    for any reordering of either list of members. *)
Theorem objectEquals_iff (fuel : nat) (st : State) (lhs rhs : CollectionData)
    (la lb : list Z) :
  chain (slots st) (head_ lhs) la ->
  chain (slots st) (head_ rhs) lb ->
  (length la < fuel)%nat -> (length lb < fuel)%nat ->
  (objectEquals compare fuel st lhs rhs = true <->
     (forall a, a ∈ la ->
        exists sa b, slots st !! a = Some sa /\ key_ sa <> 0 /\
          first_match st lb (text_at st (key_ sa)) = Some b /\
          compare st (SlotVar a) (SlotVar b) = COMPARE_RESULT_EQUAL) /\
     length lb = length la) /\
  ((exists a sa, a ∈ la /\ slots st !! a = Some sa /\
      first_match st lb (text_at st (key_ sa)) = None) ->
   objectEquals compare fuel st lhs rhs = false) /\
  (length lb <> length la -> objectEquals compare fuel st lhs rhs = false) /\
  objectEquals compare fuel st lhs rhs = members_equal st la lb /\
  (NoDup (key_text st <$> la) -> NoDup (key_text st <$> lb) ->
   (objectEquals compare fuel st lhs rhs = true <-> same_members st la lb) /\
   ((exists b, b ∈ lb /\ forall a, a ∈ la -> key_text st a <> key_text st b) ->
    objectEquals compare fuel st lhs rhs = false) /\
   (forall la' lb', la' ≡ₚ la -> lb' ≡ₚ lb ->
      members_equal st la' lb' = objectEquals compare fuel st lhs rhs)).
Proof.
  intros Ha Hb Hfa Hfb.
  assert (Hdef : objectEquals compare fuel st lhs rhs = members_equal st la lb).
  { unfold objectEquals, members_equal.
    rewrite (objectEquals_loop_chain st rhs _ la lb) by assumption.
    now rewrite Z.add_0_l. }
  assert (Hmem : forall a,
    member_matches st lb a = true <->
    exists sa b, slots st !! a = Some sa /\ key_ sa <> 0 /\
      first_match st lb (text_at st (key_ sa)) = Some b /\
      compare st (SlotVar a) (SlotVar b) = COMPARE_RESULT_EQUAL).
  { intros a. unfold member_matches. split.
    - destruct (slots st !! a) as [sa|]; [|discriminate].
      destruct (Z.eqb_spec (key_ sa) 0) as [|Hk]; [discriminate|]. cbn.
      destruct (first_match st lb _) as [b|] eqn:Hfm; [|discriminate].
      intros Heq. exists sa, b. repeat split; try assumption.
      destruct (compare st (SlotVar a) (SlotVar b)); done.
    - intros (sa & b & -> & Hk & -> & ->).
      destruct (Z.eqb_spec (key_ sa) 0); done. }
  assert (Hsb : forall b, b ∈ lb -> is_Some (slots st !! b)).
  { intros b Hin. now apply (chain_in_store _ _ _ Hb). }
  split; [|split; [|split; [|split; [exact Hdef|]]]].
  - rewrite Hdef. unfold members_equal.
    rewrite andb_true_iff, forallb_forall, Z.eqb_eq. split.
    + intros [Hall Hlen]. split; [|lia].
      intros a Hin. apply Hmem, Hall. now apply list_elem_of_In.
    + intros [Hall Hlen]. split; [|lia].
      intros a Hin. apply Hmem, Hall. now apply list_elem_of_In.
  - intros (a & sa & Hin & Hsa & Hnone). rewrite Hdef. unfold members_equal.
    apply andb_false_intro1. apply not_true_is_false. intros Hall.
    rewrite forallb_forall in Hall.
    specialize (Hall a (proj1 (list_elem_of_In _ _) Hin)).
    apply Hmem in Hall as (sa' & b & Hsa' & _ & Hfm & _). congruence.
  - intros Hlen. rewrite Hdef. unfold members_equal.
    apply andb_false_intro2. apply Z.eqb_neq. lia.
  - intros Hna Hnb. split; [|split].
    + rewrite Hdef. now apply members_equal_sets.
    + intros (b & Hin & Hnone). apply not_true_is_false. rewrite Hdef.
      intros Heq. apply (members_equal_sets st la lb Hna Hnb Hsb) in Heq.
      destruct Heq as [_ H2]. destruct (H2 b Hin) as (a & Hina & Hk).
      exact (Hnone a Hina Hk).
    + intros la' lb' Hpa Hpb. rewrite Hdef.
      now apply members_equal_perm.
Qed.

End ObjectEquality.

(** ** Value equality

    Modelled from the spec: [compare] ([VariantCompare.hpp] is missing), as
    far as section 4.3 describes it, that is as an equality: cells of
    compatible kinds are equal when their values are (booleans, numbers by
    numeric value across the integer and float kinds, strings and raw
    strings by their text), arrays by [arrayEquals], objects by
    [objectEquals]; cells of incompatible kinds differ.  [n] bounds the
    length of a chain and [fuel] the nesting. *)

(** An integer and a float have the same numeric value. *)
Definition float_equals_int (f : JsonFloat) (i : Z) : bool :=
  match Prim2SF f with
  | S754_zero _ => i =? 0
  | S754_finite s m e =>
      let mz := if s then Z.neg m else Z.pos m in
      if 0 <=? e then i =? mz * 2 ^ e else mz =? i * 2 ^ (- e)
  | _ => false
  end.

Section Compare.
Context `{VariantFlags} `{Platform}.

Definition is_string_kind (t : Z) : bool :=
  (t =? VALUE_IS_LINKED_STRING) || (t =? VALUE_IS_OWNED_STRING).

Definition is_integer_kind (t : Z) : bool :=
  (t =? VALUE_IS_SIGNED_INTEGER) || (t =? VALUE_IS_UNSIGNED_INTEGER).

Definition integer_value (v : VariantData) : Z :=
  if type v =? VALUE_IS_SIGNED_INTEGER
  then content_asSignedInteger (content_ v)
  else content_asUnsignedInteger (content_ v).

Definition numbers_equal (va vb : VariantData) : bool :=
  match is_integer_kind (type va), is_integer_kind (type vb) with
  | true, true => integer_value va =? integer_value vb
  | true, false =>
      float_equals_int (content_asFloat (content_ vb)) (integer_value va)
  | false, true =>
      float_equals_int (content_asFloat (content_ va)) (integer_value vb)
  | false, false =>
      PrimFloat.eqb (content_asFloat (content_ va)) (content_asFloat (content_ vb))
  end.

Definition raw_text (st : State) (v : VariantData) : string :=
  text_at st (str_ (VariantData_asRawString v)).

Definition compare_of_bool (b : bool) : CompareResult :=
  if b then COMPARE_RESULT_EQUAL else COMPARE_RESULT_DIFFER.

Fixpoint variantCompare (n fuel : nat) (st : State) (a b : VariantRef)
    {struct fuel} : CompareResult :=
  match fuel with
  | O => COMPARE_RESULT_DIFFER
  | S f =>
      match get_var a st, get_var b st with
      | Some va, Some vb =>
          let ta := type va in
          let tb := type vb in
          if ta =? VALUE_IS_ARRAY then
            compare_of_bool
              ((tb =? VALUE_IS_ARRAY) &&
               arrayEquals (variantCompare n f) n st
                 (content_asCollection (content_ va))
                 (content_asCollection (content_ vb)))
          else if ta =? VALUE_IS_OBJECT then
            compare_of_bool
              ((tb =? VALUE_IS_OBJECT) &&
               objectEquals (variantCompare n f) n st
                 (content_asCollection (content_ va))
                 (content_asCollection (content_ vb)))
          else if is_string_kind ta then
            compare_of_bool
              (is_string_kind tb &&
               String.eqb (string_text st va) (string_text st vb))
          else if ta =? VALUE_IS_RAW_STRING then
            compare_of_bool
              ((tb =? VALUE_IS_RAW_STRING) &&
               String.eqb (raw_text st va) (raw_text st vb))
          else if ta =? VALUE_IS_BOOLEAN then
            compare_of_bool
              ((tb =? VALUE_IS_BOOLEAN) &&
               Bool.eqb (content_asBoolean (content_ va))
                        (content_asBoolean (content_ vb)))
          else if is_integer_kind ta || (ta =? VALUE_IS_FLOAT) then
            compare_of_bool
              ((is_integer_kind tb || (tb =? VALUE_IS_FLOAT)) &&
               numbers_equal va vb)
          else if ta =? VALUE_IS_NULL then
            compare_of_bool (tb =? VALUE_IS_NULL)
          else COMPARE_RESULT_DIFFER
      | _, _ => COMPARE_RESULT_DIFFER
      end
  end.

End Compare.

(** Four objects in one store: [{"x":1,"y":2}] from slot 100,
    [{"y":2,"x":1}] from slot 200, [{"x":1}] at slot 300 and
    [{"x":1,"y":2,"z":3}] from slot 400.  The keys are linked to the
    caller's memory; the values are unsigned integers. *)
Definition member (key value next : Z) : VariantSlot :=
  mkSlot (mkVariant (asUnsignedInteger value) 0x08) next key.

Definition demo_objects : State :=
  mkState (mkVariant (asUnsignedInteger 0) 0)
    (list_to_map
       [ (100, member 3000 1 16); (116, member 3100 2 0);
         (200, member 3100 2 16); (216, member 3000 1 0);
         (300, member 3000 1 0);
         (400, member 3000 1 16); (416, member 3100 2 16);
         (432, member 3200 3 0) ])
    [] [] [].

Definition demo_compare : State -> VariantRef -> VariantRef -> CompareResult :=
  @variantCompare arduino_flags demo_platform 8 8.

(** The examples of the specification: equal in another order, unequal
    with a missing key on either side. *)
Lemma objectEquals_examples :
  @objectEquals arduino_flags demo_platform demo_compare 8 demo_objects
     (mkCollection 100 116) (mkCollection 200 216) = true /\
  @objectEquals arduino_flags demo_platform demo_compare 8 demo_objects
     (mkCollection 200 216) (mkCollection 100 116) = true /\
  @objectEquals arduino_flags demo_platform demo_compare 8 demo_objects
     (mkCollection 100 116) (mkCollection 300 300) = false /\
  @objectEquals arduino_flags demo_platform demo_compare 8 demo_objects
     (mkCollection 300 300) (mkCollection 100 116) = false /\
  @objectEquals arduino_flags demo_platform demo_compare 8 demo_objects
     (mkCollection 100 116) (mkCollection 400 432) = false.
Proof. vm_compute. repeat split. Qed.

(** Chains in a store that is written out. *)
Ltac chain_steps :=
  repeat first
    [ apply chain_nil
    | eapply chain_cons; [lia | vm_compute; reflexivity | vm_compute ] ].

(** C3 at [{"x":1,"y":2}] against [{"x":1,"y":2,"z":3}], two objects of
    distinct keys: the key [z] that only the right operand has makes them
    unequal. *)
Lemma objectEquals_iff_witness :
  @objectEquals arduino_flags demo_platform demo_compare 8 demo_objects
     (mkCollection 100 116) (mkCollection 400 432) = false.
Proof.
  destruct (@objectEquals_iff arduino_flags demo_platform demo_compare 8
              demo_objects (mkCollection 100 116) (mkCollection 400 432)
              [100; 116] [400; 416; 432])
    as (_ & _ & _ & _ & W).
  - chain_steps.
  - chain_steps.
  - cbn. lia.
  - cbn. lia.
  - destruct W as (_ & W & _).
    + decided.
    + decided.
    + apply W. exists 432. split; [in_list|]. intros a Ha.
      repeat (apply elem_of_cons in Ha as [->|Ha]);
        try (now apply elem_of_nil in Ha); vm_compute; discriminate.
Defined.

(** Without distinct keys neither holds.  With the key [x] twice on the
    left, [{"x":1,"x":1}] equals [{"x":1,"y":2}], whose key [y] the left
    operand lacks; and [{"x":2,"x":2}] equals [{"x":2,"x":1}] but not
    [{"x":1,"x":2}], the same right operand in the other order. *)
Definition repeated_keys : State :=
  mkState (mkVariant (asUnsignedInteger 0) 0)
    (list_to_map
       [ (100, member 3000 1 16); (116, member 3000 1 0);
         (200, member 3000 1 16); (216, member 3100 2 0);
         (300, member 3000 2 16); (316, member 3000 2 0);
         (400, member 3000 2 16); (416, member 3000 1 0);
         (500, member 3000 1 16); (516, member 3000 2 0) ])
    [] [] [].

Lemma objectEquals_repeated_keys :
  @objectEquals arduino_flags demo_platform demo_compare 8 repeated_keys
     (mkCollection 100 116) (mkCollection 200 216) = true /\
  @objectEquals arduino_flags demo_platform demo_compare 8 repeated_keys
     (mkCollection 300 316) (mkCollection 400 416) = true /\
  @objectEquals arduino_flags demo_platform demo_compare 8 repeated_keys
     (mkCollection 300 316) (mkCollection 500 516) = false.
Proof. vm_compute. repeat split. Qed.

(** ** Rebasing

    A document is a tree: [tree n m v fp] says that the cell [v] is, in
    the store [m], the root of a tree of nesting at most [n] whose slots
    are [fp], each linked once. A collection cell holds a proper chain:
    its tail is the last slot, and a link that is set leads to a slot. *)
Section Rebase.
Context `{VariantFlags}.

Fixpoint tree (n : nat) (m : gmap Z VariantSlot) (v : VariantData)
    (fp : list Z) : Prop :=
  if isCollection v then
    match n with
    | O => False
    | S k =>
        exists c l fps,
          content_ v = asCollection c /\
          chain m (head_ c) l /\
          tail_ c = default 0 (last l) /\
          Forall (fun p => forall s, m !! p = Some s -> next_ s <> 0 ->
                                     p + next_ s <> 0) l /\
          Forall2 (fun p fpp => exists s, m !! p = Some s /\
                                          tree k m (data s) fpp) l fps /\
          fp = l ++ concat fps /\
          NoDup fp
    end
  else fp = [].

(** The pool moved by [d]: every slot is found [d] further, and the free
    slots with them; the pointers stored in the cells are not changed. *)
Definition relocate (d : Z) (st : State) : State :=
  mkState (root st) (kmap (fun a => a + d) (slots st))
          (map (fun a => a + d) (free_slots st)) (strings st) (free_nodes st).

(** What [movePointers] makes of one cell. *)
Definition moved_cell (d : Z) (v : VariantData) : VariantData :=
  if isCollection v then
    set_content
      (asCollection
         (mkCollection
            (movePointer (head_ (content_asCollection (content_ v))) d)
            (movePointer (tail_ (content_asCollection (content_ v))) d)))
      v
  else v.

Definition moved_slot (d : Z) (s : VariantSlot) : VariantSlot :=
  mkSlot (moved_cell d (data s)) (next_ s) (key_ s).

(** [st'] is [st] with the cells of the slots in [S] moved, and the root
    too when [r] is set. *)
Definition rebased (d : Z) (r : bool) (S : Z -> Prop) (st st' : State) : Prop :=
  root st' = (if r then moved_cell d (root st) else root st) /\
  (forall a, S a -> slots st' !! a = moved_slot d <$> slots st !! a) /\
  (forall a, ~ S a -> slots st' !! a = slots st !! a) /\
  free_slots st' = free_slots st /\
  strings st' = strings st /\
  free_nodes st' = free_nodes st.

Definition is_root (this : VariantRef) : bool :=
  match this with RootVar => true | SlotVar _ => false end.

End Rebase.

Section RebaseProofs.
Context `{VariantFlags}.

Lemma VariantData_movePointers_S (f : nat) (d : Z) (this : VariantRef)
    (st : State) :
  VariantData_movePointers (S f) d this st =
  match get_var this st with
  | None => st
  | Some v =>
      if isCollection v then CollectionData_movePointers f d this st else st
  end.
Proof. reflexivity. Qed.

Lemma CollectionData_movePointers_S (f : nat) (d : Z) (this : VariantRef)
    (st : State) :
  CollectionData_movePointers (S f) d this st =
  let st1 := update_collection this
               (fun c => mkCollection (movePointer (head_ c) d) (tail_ c)) st in
  let st2 := update_collection this
               (fun c => mkCollection (head_ c) (movePointer (tail_ c) d)) st1 in
  match get_var this st2 with
  | None => st2
  | Some v => movePointers_loop f d (head_ (content_asCollection (content_ v))) st2
  end.
Proof. reflexivity. Qed.

Lemma movePointers_loop_S (f : nat) (d : Z) (slot : Z) (st : State) :
  movePointers_loop (S f) d slot st =
  if slot =? 0 then st
  else match slots (VariantData_movePointers f d (SlotVar slot) st) !! slot with
       | None => VariantData_movePointers f d (SlotVar slot) st
       | Some s =>
           movePointers_loop f d (slot_next slot s)
             (VariantData_movePointers f d (SlotVar slot) st)
       end.
Proof. reflexivity. Qed.

Lemma update_var_twice (r : VariantRef) (f g : VariantData -> VariantData)
    (st : State) :
  update_var r g (update_var r f st) = update_var r (fun v => g (f v)) st.
Proof.
  unfold update_var at 1. rewrite get_var_update_var.
  unfold update_var. destruct (get_var r st) as [v|] eqn:Hv; cbn [fmap option_fmap option_map].
  - destruct r as [|p]; cbn; [reflexivity|].
    cbn in Hv. destruct (slots st !! p) as [s|] eqn:Hs; [|discriminate].
    cbn. rewrite lookup_insert_eq. cbn. unfold set_slots. cbn.
    now rewrite insert_insert_eq.
  - reflexivity.
Qed.

(** The two pointer updates of a collection cell amount to [moved_cell]. *)
Lemma move_head_tail (d : Z) (this : VariantRef) (v : VariantData)
    (st : State) :
  get_var this st = Some v -> isCollection v = true ->
  update_collection this
    (fun c => mkCollection (head_ c) (movePointer (tail_ c) d))
    (update_collection this
       (fun c => mkCollection (movePointer (head_ c) d) (tail_ c)) st)
  = update_var this (moved_cell d) st.
Proof.
  intros Hv Hc. unfold update_collection. rewrite update_var_twice.
  unfold update_var. rewrite Hv. f_equal.
  unfold moved_cell. rewrite Hc. reflexivity.
Qed.

Lemma isCollection_moved_cell (d : Z) (v : VariantData) :
  isCollection (moved_cell d v) = isCollection v.
Proof.
  unfold moved_cell. destruct (isCollection v) eqn:Hc; [|assumption].
  unfold isCollection, set_content in *. assumption.
Qed.

End RebaseProofs.

Section RebaseTree.
Context `{VariantFlags}.

Lemma moved_cell_leaf (d : Z) (v : VariantData) :
  isCollection v = false -> moved_cell d v = v.
Proof. intros Hc. unfold moved_cell. now rewrite Hc. Qed.

Lemma rebased_ext (d : Z) (r : bool) (S S' : Z -> Prop) (st st' : State) :
  (forall a, S a <-> S' a) -> rebased d r S st st' -> rebased d r S' st st'.
Proof.
  intros Hext (Hr & Hin & Hout & Hrest). split; [assumption|].
  split; [|split; [|assumption]].
  - intros a Ha. apply Hin, Hext, Ha.
  - intros a Ha. apply Hout. intros Hs. apply Ha, Hext, Hs.
Qed.

Lemma rebased_nothing (d : Z) (st : State) :
  rebased d false (fun _ => False) st st.
Proof. repeat split; intros; tauto. Qed.

Lemma rebased_trans (d : Z) (r1 r2 : bool) (S1 S2 : Z -> Prop)
    (st st1 st2 : State) :
  rebased d r1 S1 st st1 -> rebased d r2 S2 st1 st2 ->
  (forall a, S1 a -> S2 a -> False) ->
  (forall a, S1 a \/ ~ S1 a) ->
  r1 && r2 = false ->
  rebased d (r1 || r2) (fun a => S1 a \/ S2 a) st st2.
Proof.
  intros (Hr1 & Hin1 & Hout1 & Hf1 & Hs1 & Hn1)
         (Hr2 & Hin2 & Hout2 & Hf2 & Hs2 & Hn2) Hdisj Hdec Hrr.
  split; [|split; [|split; [|repeat split; congruence]]].
  - rewrite Hr2, Hr1. destruct r1, r2; try reflexivity; discriminate.
  - intros a [Ha|Ha].
    + rewrite Hout2 by (intros Hb; exact (Hdisj a Ha Hb)). now apply Hin1.
    + rewrite Hin2 by assumption.
      rewrite Hout1 by (intros Hb; exact (Hdisj a Hb Ha)). reflexivity.
  - intros a Ha. rewrite Hout2, Hout1; tauto.
Qed.

(** Moving the cell [this] points to, and nothing else. *)
Lemma rebased_cell (d : Z) (this : VariantRef) (v : VariantData) (st : State) :
  get_var this st = Some v ->
  rebased d (is_root this) (fun a => SlotVar a = this) st
    (update_var this (moved_cell d) st).
Proof.
  intros Hv. unfold update_var. rewrite Hv.
  destruct this as [|p]; cbn in *.
  - injection Hv as <-. repeat split; intros; congruence.
  - destruct (slots st !! p) as [s|] eqn:Hs; [|discriminate].
    cbn in Hv. injection Hv as <-. cbn.
    split; [reflexivity|]. split; [|split; [|now repeat split]].
    + intros a [= ->]. cbn [slots set_slots].
      now rewrite lookup_insert_eq, Hs.
    + intros a Ha. cbn [slots set_slots].
      rewrite lookup_insert_ne; [reflexivity|]. congruence.
Qed.

(** The statement for the trees of nesting at most [k] in the store [m],
    moved by [d]: running [movePointers] on the cell [this], whose slots
    have been relocated but not yet rebased, moves that cell and the cells
    of the slots of its tree, and nothing else. *)
Definition rebases_trees (k : nat) (m : gmap Z VariantSlot) (d : Z) : Prop :=
  forall v fp, tree k m v fp ->
  forall this st fuel,
    (forall p, p ∈ fp -> p + d <> 0) ->
    get_var this st = Some v ->
    (forall p, p ∈ fp -> slots st !! (p + d) = m !! p) ->
    (forall p, p ∈ fp -> this <> SlotVar (p + d)) ->
    (4 * length fp + 3 <= fuel)%nat ->
    rebased d (is_root this)
      (fun a => SlotVar a = this \/ exists p, p ∈ fp /\ a = p + d) st
      (VariantData_movePointers fuel d this st).

Lemma rebases_leaf (d : Z) (v : VariantData) (this : VariantRef) (st : State)
    (fuel : nat) :
  isCollection v = false -> get_var this st = Some v -> (1 <= fuel)%nat ->
  rebased d (is_root this)
    (fun a => SlotVar a = this \/ exists p, p ∈ @nil Z /\ a = p + d) st
    (VariantData_movePointers fuel d this st).
Proof.
  intros Hc Hv Hf. destruct fuel as [|f]; [lia|].
  rewrite VariantData_movePointers_S, Hv, Hc.
  split; [|split; [|split; [|now repeat split]]].
  - destruct this; cbn in *; [|reflexivity].
    injection Hv as ->. now rewrite moved_cell_leaf.
  - intros a [<-|(p & Hp & _)]; [|now apply elem_of_nil in Hp].
    cbn in Hv. destruct (slots st !! a) as [s|]; [|discriminate].
    cbn in *. injection Hv as <-. destruct s as [dv nx ky].
    unfold moved_slot. cbn in *. now rewrite moved_cell_leaf.
  - reflexivity.
Qed.

Lemma footprint_split (p : Z) (l fp0 R : list Z) :
  NoDup ((p :: l) ++ fp0 ++ R) ->
  NoDup (l ++ R) /\ (p ∉ fp0) /\ (p ∉ (l ++ R)) /\
  (forall q, q ∈ fp0 -> q ∉ (l ++ R)).
Proof.
  intros Hnd.
  assert (Hperm : Permutation ((p :: l) ++ (fp0 ++ R)) (p :: (fp0 ++ (l ++ R)))).
  { cbn. constructor. apply Permutation_app_swap_app. }
  rewrite Hperm in Hnd. apply NoDup_cons in Hnd as [Hp Hnd].
  apply NoDup_app in Hnd as (_ & Hdisj & Hrest).
  rewrite not_elem_of_app in Hp. destruct Hp as [Hp1 Hp2].
  repeat split; assumption.
Qed.

(** The loop of [CollectionData::movePointers] over a chain whose slots
    hold trees of nesting at most [k]. *)
Lemma loop_rebased (k : nat) (m : gmap Z VariantSlot) (d : Z) :
  rebases_trees k m d ->
  forall (p : Z) (l : list Z), chain m p l ->
  forall (fps : list (list Z)) (st : State) (fuel : nat),
    Forall (fun p => forall s, m !! p = Some s -> next_ s <> 0 ->
                               p + next_ s <> 0) l ->
    Forall2 (fun p fpp => exists s, m !! p = Some s /\
                                    tree k m (data s) fpp) l fps ->
    NoDup (l ++ concat fps) ->
    (forall q, q ∈ l ++ concat fps -> q + d <> 0) ->
    (forall q, q ∈ l ++ concat fps -> slots st !! (q + d) = m !! q) ->
    (4 * length (l ++ concat fps) + 1 <= fuel)%nat ->
    rebased d false (fun a => exists q, q ∈ l ++ concat fps /\ a = q + d) st
      (movePointers_loop fuel d (movePointer p d) st).
Proof.
  intros IHk p l Hchain.
  induction Hchain as [|p s l Hp Hs Hchain IHl];
    intros fps st fuel Hproper Hkids Hnd Hnz Hlink Hfuel.
  - apply Forall2_nil_inv_l in Hkids. subst fps. cbn in *.
    destruct fuel as [|f]; [lia|]. rewrite movePointers_loop_S. cbn.
    eapply rebased_ext; [|apply rebased_nothing].
    intros a. split; [tauto|]. intros (q & Hq & _). now apply elem_of_nil in Hq.
  - apply Forall2_cons_inv_l in Hkids as (fp0 & fps' & Hkid & Hkids & ->).
    destruct Hkid as (s' & Hs' & Htree). rewrite Hs in Hs'. injection Hs' as <-.
    apply Forall_cons in Hproper as [Hlinkp Hproper].
    cbn [concat] in *.
    destruct (footprint_split _ _ _ _ Hnd) as (Hnd' & Hpfp0 & Hprest & Hdisj).
    assert (Hpd : p + d <> 0) by (apply Hnz; cbn; apply list_elem_of_here).
    unfold movePointer at 1. destruct (Z.eqb_spec p 0) as [|_]; [congruence|].
    destruct fuel as [|g]; [lia|]. rewrite movePointers_loop_S.
    destruct (Z.eqb_spec (p + d) 0) as [|_]; [congruence|].
    rewrite length_app in Hfuel. cbn [length] in Hfuel.
    rewrite length_app in Hfuel.
    (* the cell of the slot and its tree *)
    assert (Hchild :
      rebased d false
        (fun a => SlotVar a = SlotVar (p + d) \/ exists q, q ∈ fp0 /\ a = q + d)
        st (VariantData_movePointers g d (SlotVar (p + d)) st)).
    { apply (IHk (data s) fp0 Htree (SlotVar (p + d)) st g).
      - intros q Hq. apply Hnz. cbn. right.
        rewrite elem_of_app. right. rewrite elem_of_app. now left.
      - cbn. rewrite Hlink by (cbn; apply list_elem_of_here). now rewrite Hs.
      - intros q Hq. apply Hlink. cbn. right.
        rewrite elem_of_app. right. rewrite elem_of_app. now left.
      - intros q Hq [= Heq]. assert (q = p) by lia. subst q. contradiction.
      - lia. }
    set (st1 := VariantData_movePointers g d (SlotVar (p + d)) st) in *.
    destruct Hchild as (Hr1 & Hin1 & Hout1 & Hrest1).
    rewrite (Hin1 (p + d)) by now left.
    rewrite Hlink by (cbn; apply list_elem_of_here). rewrite Hs. cbn [fmap option_fmap option_map].
    (* the link is the same, to the relocated successor *)
    assert (Hnext : slot_next (p + d) (moved_slot d s)
                    = movePointer (slot_next p s) d).
    { unfold slot_next, movePointer. cbn [moved_slot next_].
      destruct (Z.eqb_spec (next_ s) 0) as [Hz|Hz]; [reflexivity|].
      specialize (Hlinkp s Hs Hz).
      destruct (Z.eqb_spec (p + next_ s) 0) as [|_]; [congruence|]. lia. }
    rewrite Hnext.
    (* the rest of the chain *)
    assert (Hrest :
      rebased d false (fun a => exists q, q ∈ l ++ concat fps' /\ a = q + d) st1
        (movePointers_loop g d (movePointer (slot_next p s) d) st1)).
    { apply IHl; try assumption.
      - intros q Hq. apply Hnz. cbn. right.
        rewrite elem_of_app in Hq. rewrite !elem_of_app. tauto.
      - intros q Hq. rewrite Hout1.
        + apply Hlink. cbn. right.
          rewrite elem_of_app in Hq. rewrite !elem_of_app. tauto.
        + intros [[= Heq]|(q' & Hq' & Heq)].
          * assert (q = p) by lia. subst q. contradiction.
          * assert (q = q') by lia. subst q'. exact (Hdisj q Hq' Hq).
      - rewrite length_app. lia. }
    pose proof (rebased_trans d false false _ _ st st1 _
                  (conj Hr1 (conj Hin1 (conj Hout1 Hrest1))) Hrest) as Hall.
    eapply rebased_ext; [|apply Hall].
    + intros a. split.
      * intros [[[= ->]|(q & Hq & ->)]|(q & Hq & ->)].
        -- exists p. split; [cbn; apply list_elem_of_here|reflexivity].
        -- exists q. split; [|reflexivity]. cbn. right.
           rewrite !elem_of_app. tauto.
        -- exists q. split; [|reflexivity]. cbn. right.
           rewrite elem_of_app in Hq. rewrite !elem_of_app. tauto.
      * intros (q & Hq & ->). cbn in Hq. apply elem_of_cons in Hq as [->|Hq].
        -- left. now left.
        -- rewrite !elem_of_app in Hq. destruct Hq as [Hq|[Hq|Hq]].
           ++ right. exists q. rewrite elem_of_app. tauto.
           ++ left. right. now exists q.
           ++ right. exists q. rewrite elem_of_app. tauto.
    + intros a [[= ->]|(q' & Hq' & ->)] (q & Hq & Heq).
      * assert (q = p) by lia. subst q. contradiction.
      * assert (q = q') by lia. subst q'. exact (Hdisj q Hq' Hq).
    + intros a. destruct (decide (a = p + d)) as [->|Hne]; [left; now left|].
      destruct (decide (a - d ∈ fp0)) as [Hin|Hnin].
      * left. right. exists (a - d). split; [assumption|lia].
      * right. intros [[= ?]|(q & Hq & ->)]; [contradiction|].
        apply Hnin. now replace (q + d - d) with q by lia.
    + reflexivity.
Qed.

Lemma movePointers_rebases_tree (k : nat) (m : gmap Z VariantSlot) (d : Z) :
  rebases_trees k m d.
Proof.
  induction k as [|k IHk]; intros v fp Htree this st fuel Hnz Hv Hlink Hthis Hfuel.
  - cbn in Htree. destruct (isCollection v) eqn:Hc; [contradiction|]. subst fp.
    apply (rebases_leaf d v); [assumption | assumption | lia].
  - cbn [tree] in Htree. destruct (isCollection v) eqn:Hc.
    2:{ subst fp. apply (rebases_leaf d v); [assumption | assumption | lia]. }
    destruct Htree as (c & l & fps & Hcont & Hchain & Htail & Hproper & Hkids
                       & -> & Hnd).
    destruct fuel as [|[|f]]; [lia | lia |].
    rewrite VariantData_movePointers_S, Hv, Hc.
    rewrite CollectionData_movePointers_S. cbv zeta.
    rewrite (move_head_tail d this v st Hv Hc).
    rewrite get_var_update_var, Hv. cbn [fmap option_fmap option_map].
    replace (head_ (content_asCollection (content_ (moved_cell d v))))
      with (movePointer (head_ c) d)
      by (unfold moved_cell; rewrite Hc, Hcont; reflexivity).
    pose proof (rebased_cell d this v st Hv) as Hcell.
    set (st2 := update_var this (moved_cell d) st) in *.
    assert (Hloop :
      rebased d false (fun a => exists q, q ∈ l ++ concat fps /\ a = q + d) st2
        (movePointers_loop f d (movePointer (head_ c) d) st2)).
    { apply (loop_rebased k m d IHk (head_ c) l Hchain fps st2 f);
        try assumption.
      - intros q Hq. subst st2. rewrite slots_update_var_ne by now apply Hthis.
        now apply Hlink.
      - lia. }
    pose proof (rebased_trans d (is_root this) false _ _ st st2 _ Hcell Hloop)
      as Hall.
    rewrite orb_false_r in Hall. apply Hall.
    + intros a <- (q & Hq & ->). exact (Hthis q Hq eq_refl).
    + intros a. destruct this as [|b]; [right; discriminate|].
      destruct (decide (a = b)) as [->|Hne]; [now left|].
      right. intros [= ?]. contradiction.
    + apply andb_false_r.
Qed.

End RebaseTree.

Section RebaseRoundTrip.
Context `{VariantFlags}.

Local Instance add_inj (d : Z) : Inj (=) (=) (fun a : Z => a + d).
Proof. intros a b Hab. lia. Qed.

Lemma movePointer_back (x d : Z) :
  (x <> 0 -> x + d <> 0) -> movePointer (movePointer x d) (- d) = x.
Proof.
  intros Hx. unfold movePointer. destruct (Z.eqb_spec x 0) as [->|Hne].
  - reflexivity.
  - destruct (Z.eqb_spec (x + d) 0) as [Hz|_]; [now apply Hx in Hz|]. lia.
Qed.

Lemma elem_of_concat (x : Z) (ls : list (list Z)) :
  x ∈ concat ls <-> exists l, x ∈ l /\ l ∈ ls.
Proof.
  rewrite list_elem_of_In, in_concat. split.
  - intros (l & Hl & Hx). exists l. now rewrite !list_elem_of_In.
  - intros (l & Hx & Hl). exists l. now rewrite <- !list_elem_of_In.
Qed.

(** The slots of a tree are not null, are in the store, and hold trees
    of their own inside the footprint. *)
Lemma tree_slots (n : nat) (m : gmap Z VariantSlot) :
  forall v fp, tree n m v fp ->
  forall p, p ∈ fp ->
    p <> 0 /\ exists s k fpp, m !! p = Some s /\ tree k m (data s) fpp /\
                              (forall q, q ∈ fpp -> q ∈ fp).
Proof.
  induction n as [|n IH]; intros v fp Htree p Hp; cbn [tree] in Htree;
    destruct (isCollection v); try contradiction;
    try (subst fp; now apply elem_of_nil in Hp).
  destruct Htree as (c & l & fps & _ & Hchain & _ & _ & Hkids & -> & _).
  apply elem_of_app in Hp as [Hp|Hp].
  - split; [exact (proj1 (chain_in_store _ _ _ Hchain p Hp))|].
    apply list_elem_of_lookup in Hp as [i Hi].
    destruct (Forall2_lookup_l _ _ _ _ _ Hkids Hi) as (fpp & Hfpp & s & Hs & Ht).
    exists s, n, fpp. repeat split; try assumption.
    intros q Hq. apply elem_of_app. right.
    apply elem_of_concat. exists fpp. split; [assumption|].
    apply list_elem_of_lookup. eauto.
  - apply elem_of_concat in Hp as (fpp & Hpf & Hfpp).
    apply list_elem_of_lookup in Hfpp as [i Hi].
    destruct (Forall2_lookup_r _ _ _ _ _ Hkids Hi) as (q & Hq & s & Hs & Ht).
    destruct (IH _ _ Ht p Hpf) as (Hp0 & s' & k & fpp' & Hs' & Ht' & Hsub).
    split; [assumption|]. exists s', k, fpp'. repeat split; try assumption.
    intros r Hr. apply elem_of_app. right.
    apply elem_of_concat. exists fpp. split; [now apply Hsub|].
    apply list_elem_of_lookup. eauto.
Qed.

(** Moving a cell of a tree by [d] and back by [-d] restores it. *)
Lemma moved_cell_back (n : nat) (m : gmap Z VariantSlot) (v : VariantData)
    (fp : list Z) (d : Z) :
  tree n m v fp -> (forall p, p ∈ fp -> p + d <> 0) ->
  moved_cell (- d) (moved_cell d v) = v.
Proof.
  intros Htree Hnz. unfold moved_cell at 1. rewrite isCollection_moved_cell.
  destruct (isCollection v) eqn:Hc; [|now apply moved_cell_leaf].
  destruct n as [|n]; cbn [tree] in Htree; rewrite Hc in Htree; [contradiction|].
  destruct Htree as (c & l & fps & Hcont & Hchain & Htail & _ & _ & -> & _).
  unfold moved_cell. rewrite Hc. destruct v as [cont fl]. cbn in *. subst cont.
  unfold set_content. cbn. destruct c as [hd tl]. cbn in *.
  rewrite !movePointer_back; [reflexivity | |].
  - intros Htl. subst tl. destruct (last l) as [t|] eqn:Hlast; [|contradiction].
    apply Hnz. apply elem_of_app. left.
    apply last_Some in Hlast as [l' ->]. apply elem_of_app. right.
    apply list_elem_of_here.
  - intros Hhd. inversion Hchain as [|? s l' ? ? ?]; subst; [contradiction|].
    apply Hnz. cbn. apply list_elem_of_here.
Qed.

Lemma fmap_concat (f : Z -> Z) (ls : list (list Z)) :
  f <$> concat ls = concat (fmap (M := list) f <$> ls).
Proof.
  induction ls as [|l ls IH]; [reflexivity|].
  cbn. now rewrite fmap_app, IH.
Qed.

(** A proper chain, relocated by [d] with its cells moved, is the proper
    chain of the relocated slots. *)
Lemma chain_relocated (m m' : gmap Z VariantSlot) (d p : Z) (l : list Z) :
  chain m p l ->
  Forall (fun p => forall s, m !! p = Some s -> next_ s <> 0 ->
                             p + next_ s <> 0) l ->
  (forall q, q ∈ l -> q + d <> 0) ->
  (forall q, q ∈ l -> m' !! (q + d) = moved_slot d <$> m !! q) ->
  chain m' (movePointer p d) ((fun a => a + d) <$> l) /\
  Forall (fun p' => forall s', m' !! p' = Some s' -> next_ s' <> 0 ->
                               p' + next_ s' <> 0) ((fun a => a + d) <$> l).
Proof.
  intros Hchain. induction Hchain as [|p s l Hp Hs Hchain IH];
    intros Hproper Hnz Hlink.
  - cbn. split; constructor.
  - apply Forall_cons in Hproper as [Hlinkp Hproper].
    destruct IH as [IHc IHp]; [assumption | | |].
    { intros q Hq. apply Hnz. now apply list_elem_of_further. }
    { intros q Hq. apply Hlink. now apply list_elem_of_further. }
    assert (Hpd : p + d <> 0) by (apply Hnz, list_elem_of_here).
    assert (Hs' : m' !! (p + d) = Some (moved_slot d s)).
    { rewrite Hlink by apply list_elem_of_here. now rewrite Hs. }
    unfold movePointer at 1. destruct (Z.eqb_spec p 0) as [|_]; [congruence|].
    cbn [fmap list_fmap]. split.
    + apply (chain_cons m' (p + d) (moved_slot d s)); [assumption|assumption|].
      replace (slot_next (p + d) (moved_slot d s))
        with (movePointer (slot_next p s) d); [exact IHc|].
      unfold slot_next, movePointer. cbn [moved_slot next_].
      destruct (Z.eqb_spec (next_ s) 0) as [Hz|Hz]; [reflexivity|].
      specialize (Hlinkp s Hs Hz).
      destruct (Z.eqb_spec (p + next_ s) 0) as [|_]; [congruence|]. lia.
    + constructor; [|exact IHp].
      intros s' Hs'' Hn. rewrite Hs' in Hs''. injection Hs'' as <-.
      cbn [moved_slot next_] in *.
      specialize (Hlinkp s Hs Hn).
      assert (Hsn : slot_next p s = p + next_ s).
      { unfold slot_next. now destruct (Z.eqb_spec (next_ s) 0). }
      rewrite Hsn in Hchain.
      inversion Hchain as [|q sq l' Hq Hsq Hc' Heq]; subst; [congruence|].
      assert (Hqd : p + next_ s + d <> 0).
      { apply Hnz. apply list_elem_of_further, list_elem_of_here. }
      lia.
Qed.

(** A tree, relocated by [d] with its cells moved, is a tree. *)
Lemma tree_relocated (n : nat) (m m' : gmap Z VariantSlot) (d : Z) :
  forall v fp, tree n m v fp ->
  (forall p, p ∈ fp -> p + d <> 0) ->
  (forall p, p ∈ fp -> m' !! (p + d) = moved_slot d <$> m !! p) ->
  tree n m' (moved_cell d v) ((fun a => a + d) <$> fp).
Proof.
  induction n as [|n IH]; intros v fp Htree Hnz Hlink; cbn [tree] in *;
    rewrite isCollection_moved_cell; destruct (isCollection v) eqn:Hc;
    try contradiction; try (now subst fp).
  destruct Htree as (c & l & fps & Hcont & Hchain & Htail & Hproper & Hkids
                     & -> & Hnd).
  destruct (chain_relocated m m' d (head_ c) l Hchain Hproper) as [Hc' Hp'].
  { intros q Hq. apply Hnz. apply elem_of_app. now left. }
  { intros q Hq. apply Hlink. apply elem_of_app. now left. }
  exists (mkCollection (movePointer (head_ c) d) (movePointer (tail_ c) d)),
         ((fun a => a + d) <$> l), (fmap (M := list) (fun a => a + d) <$> fps).
  split; [|split; [|split; [|split; [|split; [|split]]]]].
  - unfold moved_cell. rewrite Hc, Hcont. reflexivity.
  - exact Hc'.
  - cbn [tail_]. rewrite Htail, fmap_last.
    destruct (last l) as [t|] eqn:Hlast; cbn; [|reflexivity].
    unfold movePointer. destruct (Z.eqb_spec t 0) as [->|_]; [|reflexivity].
    apply last_Some in Hlast as [l' ->].
    destruct (chain_in_store _ _ _ Hchain 0) as [Habs _]; [|congruence].
    apply elem_of_app. right. apply list_elem_of_here.
  - exact Hp'.
  - apply Forall2_fmap. apply Forall2_same_length_lookup.
    split; [now apply Forall2_length in Hkids|].
    intros i p fpp Hi Hfi.
    destruct (Forall2_lookup_lr _ _ _ _ _ _ Hkids Hi Hfi) as (s & Hs & Ht).
    assert (Hpin : p ∈ l) by (apply list_elem_of_lookup; eauto).
    assert (Hsub : forall q, q ∈ fpp -> q ∈ l ++ concat fps).
    { intros q Hq. apply elem_of_app. right. apply elem_of_concat.
      exists fpp. split; [assumption|]. apply list_elem_of_lookup. eauto. }
    exists (moved_slot d s). split.
    + rewrite Hlink by (apply elem_of_app; now left). now rewrite Hs.
    + cbn [moved_slot data]. apply IH; [assumption | |].
      * intros q Hq. apply Hnz. now apply Hsub.
      * intros q Hq. apply Hlink. now apply Hsub.
  - now rewrite fmap_app, fmap_concat.
  - now apply (NoDup_fmap_2 (fun a => a + d)).
Qed.

End RebaseRoundTrip.

Lemma state_eq (st st' : State) :
  root st' = root st -> slots st' = slots st ->
  free_slots st' = free_slots st -> strings st' = strings st ->
  free_nodes st' = free_nodes st -> st' = st.
Proof. destruct st, st'. cbn. congruence. Qed.

Section RebaseTheorem.
Context `{VariantFlags}.

Local Instance shift_inj (d : Z) : Inj (=) (=) (fun a : Z => a + d).
Proof. intros a b Hab. lia. Qed.

Lemma slots_relocate (d : Z) (st : State) (a : Z) :
  slots (relocate d st) !! (a + d) = slots st !! a.
Proof. cbn. apply (lookup_kmap (fun a => a + d)). Qed.

(** C1.  For a document that is a tree, and a distance [d] that sends
    none of its slots to the null address: relocating the pool by [d]
    and calling [movePointers(d)] on the root, then relocating the pool
    back and calling [movePointers(-d)], gives back the state the
    document started in: every head and tail pointer of every collection
    has its original value, and the links of the slots, which are not
    rebased, still lead to the same slots. *)
Theorem movePointers_round_trip (n : nat) (st : State) (fp : list Z) (d : Z)
    (fuel : nat) :
  tree n (slots st) (root st) fp ->
  (forall p, p ∈ fp -> p + d <> 0) ->
  (4 * length fp + 3 <= fuel)%nat ->
  VariantData_movePointers fuel (- d) RootVar
    (relocate (- d)
       (VariantData_movePointers fuel d RootVar (relocate d st)))
  = st.
Proof.
  intros Htree Hnz Hfuel.
  (* first pass *)
  pose proof (movePointers_rebases_tree n (slots st) d (root st) fp Htree
                RootVar (relocate d st) fuel Hnz eq_refl
                (fun p _ => slots_relocate d st p)
                (fun p _ => ltac:(discriminate)) Hfuel) as Hone.
  set (stB := VariantData_movePointers fuel d RootVar (relocate d st)) in *.
  destruct Hone as (HrB & HinB & HoutB & HfB & HsB & HnB). cbn in HrB.
  assert (HslotsB : forall p, p ∈ fp ->
            slots stB !! (p + d) = moved_slot d <$> slots st !! p).
  { intros p Hp. rewrite HinB by (right; now exists p).
    now rewrite slots_relocate. }
  (* the document is a tree at its new place *)
  pose proof (tree_relocated n (slots st) (slots stB) d (root st) fp Htree
                Hnz HslotsB) as HtreeB.
  rewrite <- HrB in HtreeB.
  (* second pass *)
  assert (HnzB : forall p, p ∈ (fun a => a + d) <$> fp -> p + - d <> 0).
  { intros p Hp. apply list_elem_of_fmap in Hp as (q & -> & Hq).
    destruct (tree_slots _ _ _ _ Htree q Hq) as [Hq0 _]. lia. }
  pose proof (movePointers_rebases_tree n (slots stB) (- d) (root stB) _ HtreeB
                RootVar (relocate (- d) stB) fuel HnzB eq_refl
                (fun p _ => slots_relocate (- d) stB p)
                (fun p _ => ltac:(discriminate))
                ltac:(rewrite length_fmap; exact Hfuel)) as Htwo.
  set (stD := VariantData_movePointers fuel (- d) RootVar (relocate (- d) stB))
    in *.
  destruct Htwo as (HrD & HinD & HoutD & HfD & HsD & HnD). cbn in HrD.
  apply state_eq.
  - rewrite HrD, HrB. exact (moved_cell_back n _ _ fp d Htree Hnz).
  - apply map_eq. intros a.
    assert (HaB : slots (relocate (- d) stB) !! a = slots stB !! (a + d)).
    { replace a with (a + d + - d) at 1 by lia. apply slots_relocate. }
    destruct (decide (a ∈ fp)) as [Hin|Hnin].
    + rewrite HinD.
      2:{ right. exists (a + d). split; [|lia].
          apply list_elem_of_fmap. now exists a. }
      rewrite HaB, HslotsB by assumption.
      destruct (tree_slots _ _ _ _ Htree a Hin)
        as (_ & s & k & fpp & Hs & Hts & Hsub).
      rewrite Hs. cbn. f_equal. destruct s as [dv nx ky].
      unfold moved_slot. cbn in *. f_equal.
      apply (moved_cell_back k (slots st) dv fpp d Hts).
      intros q Hq. apply Hnz, Hsub, Hq.
    + rewrite HoutD.
      2:{ intros [[=]|(q & Hq & ->)].
          apply list_elem_of_fmap in Hq as (q' & -> & Hq').
          apply Hnin. now replace (q' + d + - d) with q' by lia. }
      rewrite HaB, HoutB.
      2:{ intros [[=]|(q & Hq & Heq)].
          apply Hnin. now replace a with q by lia. }
      apply slots_relocate.
  - rewrite HfD. cbn. rewrite HfB. cbn. rewrite map_map.
    rewrite <- (map_id (free_slots st)) at 2. apply map_ext. intros a. lia.
  - rewrite HsD. cbn. now rewrite HsB.
  - rewrite HnD. cbn. now rewrite HnB.
Qed.

End RebaseTheorem.

(** A document to rebase: the root array [[1, [7]]], its two slots at 100
    and 116 and the slot of the inner array at 200. *)
Definition demo_document : State :=
  mkState (mkVariant (asCollection (mkCollection 100 116)) 0x40)
    (list_to_map
       [ (100, mkSlot (mkVariant (asUnsignedInteger 1) 0x08) 16 0);
         (116, mkSlot (mkVariant (asCollection (mkCollection 200 200)) 0x40) 0 0);
         (200, mkSlot (mkVariant (asUnsignedInteger 7) 0x08) 0 0) ])
    [] [] [].

Lemma demo_document_tree :
  @tree arduino_flags 2 (slots demo_document) (root demo_document)
    [100; 116; 200].
Proof.
  exists (mkCollection 100 116), [100; 116], [[]; [200]].
  split; [reflexivity|]. split; [chain_steps|]. split; [reflexivity|].
  split; [|split; [|split; [reflexivity|]]].
  - repeat constructor; intros s Hs Hn; vm_compute in Hs;
      injection Hs as <-; cbn in *; lia.
  - constructor; [|constructor; [|constructor]].
    + eexists. split; [vm_compute; reflexivity|]. reflexivity.
    + eexists. split; [vm_compute; reflexivity|].
      exists (mkCollection 200 200), [200], [[]].
      split; [reflexivity|]. split; [chain_steps|]. split; [reflexivity|].
      split; [|split; [|split; [reflexivity|]]].
      * repeat constructor; intros s Hs Hn; vm_compute in Hs;
          injection Hs as <-; cbn in *; lia.
      * constructor; [|constructor].
        eexists. split; [vm_compute; reflexivity|]. reflexivity.
      * apply (bool_decide_unpack _). vm_compute. exact I.
  - apply (bool_decide_unpack _). vm_compute. exact I.
Qed.

(** C1 at that document, moved by 4096 bytes and back. *)
Lemma movePointers_round_trip_witness :
  @VariantData_movePointers arduino_flags 15 (- 4096) RootVar
    (@relocate (- 4096)
       (@VariantData_movePointers arduino_flags 15 4096 RootVar
          (@relocate 4096 demo_document)))
  = demo_document.
Proof.
  apply (@movePointers_round_trip arduino_flags 2 demo_document
           [100; 116; 200] 4096 15 demo_document_tree).
  - intros p Hp. repeat (apply elem_of_cons in Hp as [->|Hp]); try lia.
    now apply elem_of_nil in Hp.
  - cbn. lia.
Defined.

(** ** The string pool under copies and releases

    A copy only adds references to the nodes of the pool and a release
    only gives references back: the pool keeps its nodes and their texts,
    and the count of each node is its count at the start plus what has
    been added to it since ([shift_refs]). *)
Section Pool.
Context `{Platform}.

Definition shift_entry (delta : Z -> Z) (e : Z * StringNode) : Z * StringNode :=
  (fst e, mkNode (references (snd e) + delta (fst e)) (node_text (snd e))).

Definition shift_refs (delta : Z -> Z) (l : list (Z * StringNode))
    : list (Z * StringNode) :=
  map (shift_entry delta) l.

(** The pool is well formed: its nodes have distinct addresses, not
    null, a text pointer that is not null, and at least one reference. *)
Definition pool_ok (l : list (Z * StringNode)) : Prop :=
  NoDup (fst <$> l) /\
  Forall (fun e => fst e <> 0 /\ fst e + DATA_OFFSET <> 0 /\
                   1 <= references (snd e)) l.

(** One more, or one less, reference to the node [n]. *)
Definition plus_one (n : Z) (delta : Z -> Z) : Z -> Z :=
  fun m => delta m + (if m =? n then 1 else 0).

Definition minus_one (n : Z) (delta : Z -> Z) : Z -> Z :=
  fun m => delta m - (if m =? n then 1 else 0).

Lemma shift_refs_ext (d1 d2 : Z -> Z) (l : list (Z * StringNode)) :
  (forall n, d1 n = d2 n) -> shift_refs d1 l = shift_refs d2 l.
Proof.
  intros Hd. apply map_ext. intros e. unfold shift_entry. now rewrite Hd.
Qed.

Lemma shift_refs_zero (l : list (Z * StringNode)) :
  shift_refs (fun _ => 0) l = l.
Proof.
  unfold shift_refs. rewrite <- (map_id l) at 2. apply map_ext.
  intros [a [r t]]. unfold shift_entry. cbn. now rewrite Z.add_0_r.
Qed.

Lemma find_text_shift (delta : Z -> Z) (t : string) (l : list (Z * StringNode)) :
  List.find (fun e => String.eqb (node_text (snd e)) t) (shift_refs delta l)
  = shift_entry delta
      <$> List.find (fun e => String.eqb (node_text (snd e)) t) l.
Proof.
  induction l as [|e l IH]; [reflexivity|]. cbn.
  destruct (String.eqb (node_text (snd e)) t); [reflexivity|assumption].
Qed.

Lemma find_node_shift (delta : Z -> Z) (q : Z) (l : list (Z * StringNode)) :
  find_node q (shift_refs delta l) = shift_entry delta <$> find_node q l.
Proof.
  unfold find_node. induction l as [|e l IH]; [reflexivity|]. cbn.
  destruct (fst e + DATA_OFFSET =? q); [reflexivity|assumption].
Qed.

Lemma add_reference_absent (n : Z) (l : list (Z * StringNode)) :
  n ∉ fst <$> l -> add_reference n l = l.
Proof.
  induction l as [|e l IH]; intros Hn; [reflexivity|]. cbn in *.
  apply not_elem_of_cons in Hn as [Hne Hn].
  destruct (Z.eqb_spec (fst e) n) as [|_]; [congruence|]. now rewrite IH.
Qed.

Lemma shift_refs_absent (n : Z) (delta : Z -> Z) (k : Z -> Z)
    (l : list (Z * StringNode)) :
  n ∉ fst <$> l -> (forall m, m <> n -> k m = delta m) ->
  shift_refs k l = shift_refs delta l.
Proof.
  intros Hn Hk. unfold shift_refs.
  induction l as [|e l IH]; [reflexivity|]. cbn in *.
  apply not_elem_of_cons in Hn as [Hne Hn]. rewrite IH by assumption.
  f_equal. unfold shift_entry. rewrite Hk by congruence. reflexivity.
Qed.

Lemma add_reference_shift (n : Z) (delta : Z -> Z) (l : list (Z * StringNode)) :
  NoDup (fst <$> l) ->
  add_reference n (shift_refs delta l) = shift_refs (plus_one n delta) l.
Proof.
  induction l as [|e l IH]; intros Hnd; [reflexivity|].
  cbn [fmap list_fmap] in Hnd. apply NoDup_cons in Hnd as [Hfresh Hnd].
  change (shift_refs delta (e :: l))
    with (shift_entry delta e :: shift_refs delta l).
  change (shift_refs (plus_one n delta) (e :: l))
    with (shift_entry (plus_one n delta) e :: shift_refs (plus_one n delta) l).
  cbn [add_reference shift_entry fst snd references node_text].
  destruct (Z.eqb_spec (fst e) n) as [Heq|Hne].
  - subst n. f_equal.
    + unfold shift_entry, plus_one. rewrite Z.eqb_refl. f_equal. f_equal. lia.
    + symmetry. apply (shift_refs_absent (fst e)); [assumption|].
      intros m Hm. unfold plus_one. destruct (Z.eqb_spec m (fst e)); [congruence|lia].
  - rewrite IH by assumption. f_equal. unfold shift_entry, plus_one.
    destruct (Z.eqb_spec (fst e) n); [congruence|]. now rewrite Z.add_0_r.
Qed.

Lemma drop_reference_absent (q : Z) (l : list (Z * StringNode)) :
  (forall e, e ∈ l -> fst e + DATA_OFFSET <> q) -> drop_reference q l = (l, []).
Proof.
  induction l as [|e l IH]; intros Hq; [reflexivity|]. cbn.
  destruct (Z.eqb_spec (fst e + DATA_OFFSET) q) as [Heq|_].
  - exfalso. exact (Hq e (list_elem_of_here _ _) Heq).
  - rewrite IH; [reflexivity|]. intros e' He'. apply Hq.
    now apply list_elem_of_further.
Qed.

Lemma drop_reference_shift (n : Z) (delta : Z -> Z) (l : list (Z * StringNode)) :
  NoDup (fst <$> l) ->
  (forall e, e ∈ l -> fst e = n -> references (snd e) + delta n - 1 <> 0) ->
  drop_reference (n + DATA_OFFSET) (shift_refs delta l)
  = (shift_refs (minus_one n delta) l, []).
Proof.
  induction l as [|e l IH]; intros Hnd Hpos; [reflexivity|].
  cbn [fmap list_fmap] in Hnd. apply NoDup_cons in Hnd as [Hfresh Hnd].
  change (shift_refs delta (e :: l))
    with (shift_entry delta e :: shift_refs delta l).
  change (shift_refs (minus_one n delta) (e :: l))
    with (shift_entry (minus_one n delta) e :: shift_refs (minus_one n delta) l).
  cbn [drop_reference shift_entry fst snd references node_text].
  destruct (Z.eqb_spec (fst e + DATA_OFFSET) (n + DATA_OFFSET)) as [Heq|Hne].
  - assert (Hen : fst e = n) by lia.
    specialize (Hpos e (list_elem_of_here _ _) Hen). rewrite Hen.
    destruct (Z.eqb_spec (references (snd e) + delta n - 1) 0) as [|_];
      [congruence|].
    f_equal. f_equal.
    + unfold shift_entry, minus_one. rewrite Hen, Z.eqb_refl.
      f_equal. f_equal. lia.
    + symmetry. apply (shift_refs_absent n); [now rewrite <- Hen|].
      intros m Hm. unfold minus_one. destruct (Z.eqb_spec m n); [congruence|lia].
  - rewrite IH; [|assumption|].
    + f_equal. f_equal. unfold shift_entry, minus_one.
      destruct (Z.eqb_spec (fst e) n); [lia|]. now rewrite Z.sub_0_r.
    + intros e' He'. apply Hpos. now apply list_elem_of_further.
Qed.

End Pool.

(** ** Documents

    [document k m pool v fp hs]: in the store [m] and with the string pool
    [pool], the cell [v] is the root of a well-formed document of nesting
    at most [k]; [fp] lists its slots and [hs] the pool nodes it holds a
    reference to, once per reference.  Well-formed means: the kinds are
    those of the enumeration; a collection holds a chain that ends at its
    tail; the slots of an array have no key, those of an object have one,
    owned or linked, and no two members of an object have the same key;
    an owned or raw string is a node of the pool; a float equals itself. *)
Section Documents.
Context `{VariantFlags} `{Platform}.

Definition text_in (pool : list (Z * StringNode)) (q : Z) : string :=
  if q =? 0 then EmptyString
  else match find_node q pool with
       | Some e => node_text (snd e)
       | None => c_str q
       end.

Record Kid := mkKid { kid_slot : Z; kid_fp : list Z; kid_hs : list Z }.

(** The slots of a member: its own, then those of its value. *)
Definition kid_all (kid : Kid) : list Z := kid_slot kid :: kid_fp kid.

Definition is_owned_kind (t : Z) : bool :=
  (t =? VALUE_IS_OWNED_STRING) || (t =? VALUE_IS_RAW_STRING).

(** The key of a slot of a collection of kind [t], with the pool node it
    holds, if any. *)
Definition key_ok (pool : list (Z * StringNode)) (t : Z) (s : VariantSlot)
    (hk : list Z) : Prop :=
  if t =? VALUE_IS_OBJECT then
    key_ s <> 0 /\
    (if ownsKey s
     then exists kn, key_ s = kn + DATA_OFFSET /\ kn ∈ fst <$> pool /\ hk = [kn]
     else hk = [])
  else key_ s = 0 /\ ownsKey s = false /\ hk = [].

Definition slot_key_text (m : gmap Z VariantSlot) (pool : list (Z * StringNode))
    (p : Z) : string :=
  match m !! p with
  | Some s => text_in pool (key_ s)
  | None => EmptyString
  end.

Fixpoint document (k : nat) (m : gmap Z VariantSlot)
    (pool : list (Z * StringNode)) (v : VariantData) (fp hs : list Z) : Prop :=
  type v ∈ kinds /\
  if isCollection v then
    match k with
    | O => False
    | S k' =>
        exists kids,
          chain m (head_ (content_asCollection (content_ v)))
            (kid_slot <$> kids) /\
          tail_ (content_asCollection (content_ v))
          = default 0 (last (kid_slot <$> kids)) /\
          Forall (fun kid =>
                    exists s hk hv,
                      m !! kid_slot kid = Some s /\
                      key_ok pool (type v) s hk /\
                      document k' m pool (data s) (kid_fp kid) hv /\
                      kid_hs kid = hk ++ hv) kids /\
          (type v = VALUE_IS_OBJECT ->
           NoDup (slot_key_text m pool <$> (kid_slot <$> kids))) /\
          fp = concat (kid_all <$> kids) /\
          hs = concat (kid_hs <$> kids) /\
          NoDup fp
    end
  else
    fp = [] /\
    (if is_owned_kind (type v)
     then exists nd, content_ v = asOwnedString nd /\ nd ∈ fst <$> pool /\
                     hs = [nd]
     else hs = []) /\
    (type v = VALUE_IS_FLOAT ->
     PrimFloat.eqb (content_asFloat (content_ v)) (content_asFloat (content_ v))
     = true)
  .

(** [copy_of k m pool a b fa fb hs]: the cell [b] is the root of a
    document with the slots [fb] and the pool references [hs] that has
    the shape and the values of the document of the cell [a], whose slots
    are [fa]: same kinds, members in the same order with keys of the same
    text, scalars with the same content and strings of the same text.
    The source is well formed as far as equality reads it: its kinds are
    those of the enumeration, the members of an object have distinct keys
    and a float equals itself. *)
Record Pair := mkPair {
  pair_a : Z; pair_b : Z; pair_fa : list Z; pair_fb : list Z;
  pair_hs : list Z
}.

Definition pair_all_a (pr : Pair) : list Z := pair_a pr :: pair_fa pr.

Definition pair_all_b (pr : Pair) : list Z := pair_b pr :: pair_fb pr.

Fixpoint copy_of (k : nat) (m : gmap Z VariantSlot)
    (pool : list (Z * StringNode)) (a b : VariantData) (fa fb hs : list Z)
    : Prop :=
  type a ∈ kinds /\ type b = type a /\
  if isCollection a then
    match k with
    | O => False
    | S k' =>
        exists ps,
          chain m (head_ (content_asCollection (content_ a))) (pair_a <$> ps) /\
          chain m (head_ (content_asCollection (content_ b))) (pair_b <$> ps) /\
          tail_ (content_asCollection (content_ b))
          = default 0 (last (pair_b <$> ps)) /\
          Forall (fun pr =>
                    exists sa sb hk hv,
                      m !! pair_a pr = Some sa /\
                      m !! pair_b pr = Some sb /\
                      key_ok pool (type a) sb hk /\
                      text_in pool (key_ sb) = text_in pool (key_ sa) /\
                      copy_of k' m pool (data sa) (data sb)
                        (pair_fa pr) (pair_fb pr) hv /\
                      pair_hs pr = hk ++ hv) ps /\
          (type a = VALUE_IS_OBJECT ->
           NoDup (slot_key_text m pool <$> (pair_a <$> ps))) /\
          fa = concat (pair_all_a <$> ps) /\
          fb = concat (pair_all_b <$> ps) /\
          hs = concat (pair_hs <$> ps) /\
          NoDup fb
    end
  else
    fa = [] /\ fb = [] /\
    (if is_owned_kind (type a)
     then exists nb,
            content_ b = asOwnedString nb /\ nb ∈ fst <$> pool /\ hs = [nb] /\
            text_in pool (nb + DATA_OFFSET)
            = text_in pool (content_asOwnedString (content_ a) + DATA_OFFSET)
     else content_ b = content_ a /\ hs = []) /\
    (type a = VALUE_IS_FLOAT ->
     PrimFloat.eqb (content_asFloat (content_ a)) (content_asFloat (content_ a))
     = true).

(** References added to, or given back from, the nodes listed in [hs]. *)
Definition count (n : Z) (hs : list Z) : Z :=
  Z.of_nat (count_occ Z.eq_dec hs n).

Definition plus (hs : list Z) (delta : Z -> Z) : Z -> Z :=
  fun n => delta n + count n hs.

Definition minus (hs : list Z) (delta : Z -> Z) : Z -> Z :=
  fun n => delta n - count n hs.

Lemma text_at_text_in (st : State) (q : Z) :
  text_at st q = text_in (strings st) q.
Proof. reflexivity. Qed.

Lemma text_in_shift (delta : Z -> Z) (pool : list (Z * StringNode)) (q : Z) :
  text_in (shift_refs delta pool) q = text_in pool q.
Proof.
  unfold text_in. rewrite find_node_shift.
  destruct (q =? 0); [reflexivity|]. now destruct (find_node q pool).
Qed.

Lemma addresses_shift (delta : Z -> Z) (pool : list (Z * StringNode)) :
  fst <$> shift_refs delta pool = fst <$> pool.
Proof.
  unfold shift_refs. induction pool as [|e l IH]; [reflexivity|].
  cbn. now rewrite <- IH.
Qed.

End Documents.

(** ** Deep copy *)

Section CopyEquations.
Context `{VariantFlags} `{Platform}.

(** The equations of [copyFrom] and its two loops. *)
Lemma VariantData_copyFrom_S (f : nat) (this : VariantRef)
    (src : option VariantRef) (st0 : State) :
  VariantData_copyFrom (S f) this src st0 =
  let st := release (S f) this st0 in
  match src with
  | None => (true, update_var this setNull st)
  | Some sr =>
      match get_var sr st with
      | None => (false, st)
      | Some sv =>
          let t := type sv in
          if t =? VALUE_IS_ARRAY then
            ArrayData_copyFrom f this
              (head_ (content_asCollection (content_ sv)))
              (update_var this toArray st)
          else if t =? VALUE_IS_OBJECT then
            collectionCopy f this
              (head_ (content_asCollection (content_ sv)))
              (update_var this toObject st)
          else if t =? VALUE_IS_OWNED_STRING then
            let str := VariantData_asString sv in
            let '(dup, st1) := saveString (text_at st (str_ str)) st in
            if dup =? 0 then (false, st1)
            else (true, update_var this (setOwnedString dup) st1)
          else if t =? VALUE_IS_RAW_STRING then
            let str := VariantData_asRawString sv in
            let '(dup, st1) := saveString (text_at st (str_ str)) st in
            if dup =? 0 then (false, st1)
            else (true, update_var this (setRawString dup) st1)
          else (true, update_var this (fun _ => sv) st)
      end
  end.
Proof. reflexivity. Qed.

Lemma ArrayData_copyFrom_S (f : nat) (this : VariantRef) (s : Z) (st : State) :
  ArrayData_copyFrom (S f) this s st =
  if s =? 0 then (true, st)
  else
    let '(var, st1) := ArrayData_addElement this st in
    match var with
    | None => (false, st1)
    | Some v =>
        let '(ok, st2) := VariantData_copyFrom f v (Some (SlotVar s)) st1 in
        if negb ok then (false, st2)
        else match slots st2 !! s with
             | None => (false, st2)
             | Some sl => ArrayData_copyFrom f this (slot_next s sl) st2
             end
    end.
Proof. reflexivity. Qed.

Lemma collectionCopy_S (f : nat) (dst : VariantRef) (s : Z) (st : State) :
  collectionCopy (S f) dst s st =
  if s =? 0 then (true, st)
  else
    match slots st !! s with
    | None => (false, st)
    | Some sl =>
        let '(var, st1) :=
          if negb (key_ sl =? 0)
          then collectionAddMember dst (mkStr (key_ sl) (negb (ownsKey sl))) st
          else ArrayData_addElement dst st in
        match var with
        | None => (false, st1)
        | Some v =>
            let '(ok, st2) :=
              VariantData_copyFrom f v (Some (SlotVar s)) st1 in
            if negb ok then (false, st2)
            else match slots st2 !! s with
                 | None => (false, st2)
                 | Some sl2 => collectionCopy f dst (slot_next s sl2) st2
                 end
        end
    end.
Proof. reflexivity. Qed.

End CopyEquations.

(** What a document and a copy read of the store. *)
Section DocumentFrames.
Context `{VariantFlags} `{Platform}.

Lemma in_concat_fmap {A : Type} (f : A -> list Z) (x : A) (l : list A) (q : Z) :
  x ∈ l -> q ∈ f x -> q ∈ concat (f <$> l).
Proof.
  intros Hx Hq. apply elem_of_concat. exists (f x). split; [assumption|].
  apply list_elem_of_fmap. now exists x.
Qed.

Lemma in_concat_fmap_inv {A : Type} (f : A -> list Z) (l : list A) (q : Z) :
  q ∈ concat (f <$> l) -> exists x, x ∈ l /\ q ∈ f x.
Proof.
  intros Hq. apply elem_of_concat in Hq as (l' & Hq & Hl).
  apply list_elem_of_fmap in Hl as (x & -> & Hx). now exists x.
Qed.

Lemma in_heads {A : Type} (h : A -> Z) (t : A -> list Z) (l : list A) (q : Z) :
  q ∈ h <$> l -> q ∈ concat ((fun x => h x :: t x) <$> l).
Proof.
  intros Hq. apply list_elem_of_fmap in Hq as (x & -> & Hx).
  apply (in_concat_fmap _ x); [assumption|]. apply list_elem_of_here.
Qed.

Lemma in_tails {A : Type} (h : A -> Z) (t : A -> list Z) (x : A) (l : list A)
    (q : Z) :
  x ∈ l -> q ∈ t x -> q ∈ concat ((fun x => h x :: t x) <$> l).
Proof.
  intros Hx Hq. apply (in_concat_fmap _ x); [assumption|].
  now apply list_elem_of_further.
Qed.

Lemma key_ok_same (pool : list (Z * StringNode)) (t : Z) (s s' : VariantSlot)
    (hk : list Z) :
  key_ s' = key_ s -> ownsKey s' = ownsKey s ->
  key_ok pool t s hk -> key_ok pool t s' hk.
Proof.
  intros Hk Hb. unfold key_ok. now rewrite Hk, Hb.
Qed.

Lemma slot_key_text_frame (m m' : gmap Z VariantSlot)
    (pool : list (Z * StringNode)) (l : list Z) :
  (forall q, q ∈ l -> key_ <$> m' !! q = key_ <$> m !! q) ->
  slot_key_text m' pool <$> l = slot_key_text m pool <$> l.
Proof.
  intros Hk. apply Forall_fmap_ext_1, Forall_forall. intros q Hq.
  specialize (Hk q Hq). unfold slot_key_text.
  destruct (m' !! q) as [s'|], (m !! q) as [s|]; cbn in Hk; try discriminate;
    [|reflexivity].
  injection Hk as Hk. now rewrite Hk.
Qed.

(** The slots of a document are in the store. *)
Lemma document_slots (k : nat) (m : gmap Z VariantSlot)
    (pool : list (Z * StringNode)) :
  forall v fp hs, document k m pool v fp hs ->
  forall q, q ∈ fp -> q <> 0 /\ is_Some (m !! q).
Proof.
  induction k as [|k IH]; intros v fp hs [Hkind Hdoc] q Hq; cbn in Hdoc;
    destruct (isCollection v).
  - contradiction.
  - destruct Hdoc as [-> _]. now apply elem_of_nil in Hq.
  - destruct Hdoc as (kids & Hc & _ & Hkids & _ & -> & _ & _).
    apply in_concat_fmap_inv in Hq as (kid & Hkid & Hq).
    apply elem_of_cons in Hq as [->|Hq].
    + apply (chain_in_store _ _ _ Hc). apply list_elem_of_fmap. now exists kid.
    + rewrite Forall_forall in Hkids.
      destruct (Hkids kid Hkid) as (s & hk & hv & _ & _ & Hd & _).
      exact (IH _ _ _ Hd q Hq).
  - destruct Hdoc as [-> _]. now apply elem_of_nil in Hq.
Qed.

Lemma document_frame (k : nat) (m m' : gmap Z VariantSlot)
    (pool : list (Z * StringNode)) :
  forall v fp hs, document k m pool v fp hs ->
  (forall q, q ∈ fp -> m' !! q = m !! q) ->
  document k m' pool v fp hs.
Proof.
  induction k as [|k IH]; intros v fp hs [Hkind Hdoc] Hsame;
    (split; [assumption|]); cbn in Hdoc |- *; destruct (isCollection v);
    try assumption.
  destruct Hdoc as (kids & Hc & Ht & Hkids & Hkeys & -> & -> & Hnd).
  exists kids.
  assert (Hl : forall q, q ∈ kid_slot <$> kids -> m' !! q = m !! q).
  { intros q Hq. now apply Hsame, (in_heads kid_slot kid_fp). }
  split; [|split; [assumption|split; [|split; [|done]]]].
  - eapply chain_frame; [eassumption|]. intros q Hq. now rewrite Hl.
  - rewrite Forall_forall in Hkids. apply Forall_forall. intros kid Hkid.
    destruct (Hkids kid Hkid) as (s & hk & hv & Hs & Hk & Hd & Hh).
    exists s, hk, hv. split; [|split; [assumption|split; [|assumption]]].
    + rewrite Hl; [assumption|]. apply list_elem_of_fmap. now exists kid.
    + apply (IH _ _ _ Hd). intros q Hq.
      now apply Hsame, (in_tails kid_slot kid_fp kid).
  - intros Hobj. rewrite (slot_key_text_frame m m').
    + now apply Hkeys.
    + intros q Hq. now rewrite Hl.
Qed.

Lemma copy_of_frame (k : nat) (m m' : gmap Z VariantSlot)
    (pool : list (Z * StringNode)) :
  forall a b fa fb hs, copy_of k m pool a b fa fb hs ->
  (forall q, q ∈ fa ++ fb -> m' !! q = m !! q) ->
  copy_of k m' pool a b fa fb hs.
Proof.
  induction k as [|k IH]; intros a b fa fb hs (Hkind & Hty & Hcp) Hsame;
    (split; [assumption|split; [assumption|]]); cbn in Hcp |- *;
    destruct (isCollection a); try assumption.
  destruct Hcp as (ps & Hca & Hcb & Ht & Hps & Hkeys & -> & -> & -> & Hnd).
  exists ps.
  assert (Hla : forall q, q ∈ pair_a <$> ps -> m' !! q = m !! q).
  { intros q Hq. apply Hsame, elem_of_app. left.
    now apply (in_heads pair_a pair_fa). }
  assert (Hlb : forall q, q ∈ pair_b <$> ps -> m' !! q = m !! q).
  { intros q Hq. apply Hsame, elem_of_app. right.
    now apply (in_heads pair_b pair_fb). }
  split; [|split; [|split; [assumption|split; [|split; [|done]]]]].
  - eapply chain_frame; [eassumption|]. intros q Hq. now rewrite Hla.
  - eapply chain_frame; [eassumption|]. intros q Hq. now rewrite Hlb.
  - rewrite Forall_forall in Hps. apply Forall_forall. intros pr Hpr.
    destruct (Hps pr Hpr) as (sa & sb & hk & hv & Hsa & Hsb & Hk & Htx & Hd & Hh).
    exists sa, sb, hk, hv.
    split; [|split; [|split; [assumption|split; [assumption|split;
      [|assumption]]]]].
    + rewrite Hla; [assumption|]. apply list_elem_of_fmap. now exists pr.
    + rewrite Hlb; [assumption|]. apply list_elem_of_fmap. now exists pr.
    + apply (IH _ _ _ _ _ Hd). intros q Hq. apply Hsame.
      rewrite elem_of_app. apply elem_of_app in Hq as [Hq|Hq].
      * left. now apply (in_tails pair_a pair_fa pr).
      * right. now apply (in_tails pair_b pair_fb pr).
  - intros Hobj. rewrite (slot_key_text_frame m m').
    + now apply Hkeys.
    + intros q Hq. now rewrite Hla.
Qed.

End DocumentFrames.

(** The free list holds distinct addresses, not null, at which the store
    has no slot. *)
Definition free_ok (st : State) : Prop :=
  NoDup (free_slots st) /\
  forall p, p ∈ free_slots st -> p <> 0 /\ slots st !! p = None.

Section CopySteps.
Context `{VariantFlags} `{Platform} (layout : flags_layout).

(** The kinds [copyFrom] tells apart. *)
Lemma copy_kinds :
  VALUE_IS_ARRAY <> VALUE_IS_OBJECT /\
  VALUE_IS_ARRAY <> VALUE_IS_OWNED_STRING /\
  VALUE_IS_ARRAY <> VALUE_IS_RAW_STRING /\
  VALUE_IS_OBJECT <> VALUE_IS_OWNED_STRING /\
  VALUE_IS_OBJECT <> VALUE_IS_RAW_STRING /\
  VALUE_IS_OWNED_STRING <> VALUE_IS_RAW_STRING /\
  VALUE_IS_NULL <> VALUE_IS_ARRAY /\
  VALUE_IS_NULL <> VALUE_IS_OBJECT /\
  VALUE_IS_NULL <> VALUE_IS_OWNED_STRING /\
  VALUE_IS_NULL <> VALUE_IS_RAW_STRING /\
  VALUE_IS_LINKED_STRING <> VALUE_IS_OWNED_STRING.
Proof. kinds_apart layout. repeat split; congruence. Qed.

Lemma null_is_kind : VALUE_IS_NULL ∈ kinds.
Proof. unfold kinds. in_list. Qed.

(** A Null cell holds nothing to release. *)
Lemma release_null (fuel : nat) (this : VariantRef) (st : State)
    (v : VariantData) :
  get_var this st = Some v -> type v = VALUE_IS_NULL ->
  release fuel this st = st.
Proof.
  intros Hv Ht. destruct fuel as [|f]; [reflexivity|].
  rewrite release_S, Hv. cbv zeta.
  assert (Hk : type v ∈ kinds) by (rewrite Ht; apply null_is_kind).
  destruct copy_kinds as (_ & _ & _ & _ & _ & _ & N1 & N2 & N3 & N4 & _).
  rewrite (owned_value_kind layout v Hk), (isCollection_kind layout v Hk), Ht.
  rewrite !bool_decide_eq_false_2 by assumption. reflexivity.
Qed.

(** The fields an in-place change of a cell or a slot leaves alone. *)
Lemma update_var_fields (r : VariantRef) (f : VariantData -> VariantData)
    (st : State) :
  strings (update_var r f st) = strings st /\
  free_slots (update_var r f st) = free_slots st /\
  free_nodes (update_var r f st) = free_nodes st /\
  (r <> RootVar -> root (update_var r f st) = root st).
Proof.
  unfold update_var. destruct (get_var r st) as [v|]; [|done].
  destruct r as [|p]; cbn; [done|]. now destruct (slots st !! p).
Qed.

Lemma keys_update_var (r : VariantRef) (f : VariantData -> VariantData)
    (st : State) (q : Z) :
  key_ <$> slots (update_var r f st) !! q = key_ <$> slots st !! q.
Proof.
  unfold update_var. destruct (get_var r st) as [v|]; [|reflexivity].
  destruct r as [|p]; cbn; [reflexivity|].
  destruct (slots st !! p) as [s|] eqn:Hs; [|reflexivity]. cbn.
  destruct (decide (p = q)) as [->|Hne].
  - now rewrite lookup_insert_eq, Hs.
  - now rewrite lookup_insert_ne.
Qed.

Lemma get_var_setNextNotNull (r : VariantRef) (t slot : Z) (st : State) :
  get_var r (setNextNotNull t slot st) = get_var r st.
Proof.
  unfold setNextNotNull, update_slot.
  destruct (slots st !! t) as [s|] eqn:Hs; [|reflexivity].
  destruct r as [|q]; cbn; [reflexivity|].
  destruct (decide (t = q)) as [->|Hne].
  - now rewrite lookup_insert_eq, Hs.
  - now rewrite lookup_insert_ne.
Qed.

Lemma keys_setNextNotNull (t slot : Z) (st : State) (q : Z) :
  key_ <$> slots (setNextNotNull t slot st) !! q = key_ <$> slots st !! q.
Proof.
  unfold setNextNotNull, update_slot.
  destruct (slots st !! t) as [s|] eqn:Hs; [|reflexivity]. cbn.
  destruct (decide (t = q)) as [->|Hne].
  - now rewrite lookup_insert_eq, Hs.
  - now rewrite lookup_insert_ne.
Qed.

Lemma links_setNextNotNull (t slot : Z) (st : State) (q : Z) :
  q <> t ->
  slots (setNextNotNull t slot st) !! q = slots st !! q.
Proof.
  intros Hne. unfold setNextNotNull, update_slot.
  destruct (slots st !! t) as [s|] eqn:Hs; [|reflexivity]. cbn.
  now rewrite lookup_insert_ne.
Qed.

Lemma setNextNotNull_fields (t slot : Z) (st : State) :
  strings (setNextNotNull t slot st) = strings st /\
  free_slots (setNextNotNull t slot st) = free_slots st /\
  free_nodes (setNextNotNull t slot st) = free_nodes st /\
  root (setNextNotNull t slot st) = root st.
Proof.
  unfold setNextNotNull, update_slot. now destruct (slots st !! t).
Qed.

(** What [add] leaves alone: the pool and the free lists, the cells and
    keys of all slots but the holder, the flags of the holder, and, when
    the holder is a slot outside the chain, its link and its key. *)
Lemma add_fields (this : VariantRef) (slot : Z) (st : State) :
  strings (CollectionData_add this slot st) = strings st /\
  free_slots (CollectionData_add this slot st) = free_slots st /\
  free_nodes (CollectionData_add this slot st) = free_nodes st /\
  (this <> RootVar -> root (CollectionData_add this slot st) = root st).
Proof.
  unfold CollectionData_add. destruct (get_var this st) as [v|]; [|done].
  destruct (negb _); unfold update_collection.
  - destruct (update_var_fields this
      (fun v0 => set_content
         (asCollection (mkCollection (head_ (content_asCollection (content_ v0))) slot)) v0)
      (setNextNotNull (tail_ (content_asCollection (content_ v))) slot st))
      as (-> & -> & -> & Hr).
    destruct (setNextNotNull_fields (tail_ (content_asCollection (content_ v)))
                slot st) as (-> & -> & -> & Hr').
    repeat split. intros Hne. now rewrite Hr.
  - apply update_var_fields.
Qed.

Lemma add_keeps_cells (this : VariantRef) (slot : Z) (st : State) (q : Z) :
  this <> SlotVar q ->
  data <$> slots (CollectionData_add this slot st) !! q = data <$> slots st !! q.
Proof.
  intros Hne. unfold CollectionData_add.
  destruct (get_var this st) as [v|]; [|done].
  destruct (negb _); unfold update_collection;
    rewrite slots_update_var_ne by assumption; [|reflexivity].
  exact (get_var_setNextNotNull (SlotVar q) _ _ st).
Qed.

Lemma add_keeps_keys (this : VariantRef) (slot : Z) (st : State) (q : Z) :
  key_ <$> slots (CollectionData_add this slot st) !! q = key_ <$> slots st !! q.
Proof.
  unfold CollectionData_add.
  destruct (get_var this st) as [v|]; [|done].
  destruct (negb _); unfold update_collection; rewrite keys_update_var;
    [|reflexivity].
  apply keys_setNextNotNull.
Qed.

Lemma add_keeps_flags (this : VariantRef) (slot : Z) (st : State) :
  flags_ <$> get_var this (CollectionData_add this slot st)
  = flags_ <$> get_var this st.
Proof.
  unfold CollectionData_add.
  destruct (get_var this st) as [v|] eqn:Hv; [|now rewrite Hv].
  destruct (negb _); unfold update_collection; rewrite get_var_update_var.
  - rewrite get_var_setNextNotNull, Hv. reflexivity.
  - rewrite Hv. reflexivity.
Qed.

(** A collection reads its holder and the links of its chain. *)
Lemma collection_at_frame (this : VariantRef) (st st' : State) (l : list Z) :
  collection_at this st l ->
  get_var this st' = get_var this st ->
  (forall q, q ∈ l -> next_ <$> slots st' !! q = next_ <$> slots st !! q) ->
  collection_at this st' l.
Proof.
  intros (v & Hv & Hc & Ht & Hh) Hg Hl. exists v.
  split; [now rewrite Hg|]. split; [|done].
  eapply chain_frame; eassumption.
Qed.

End CopySteps.

(** One member copied: the new slot and its key. *)
Section CopyMember.
Context `{VariantFlags} `{Platform} (layout : flags_layout).
Variable pool0 : list (Z * StringNode).
Hypothesis Hpool : pool_ok pool0.

Lemma find_node_of (l : list (Z * StringNode)) (e : Z * StringNode) :
  NoDup (fst <$> l) -> e ∈ l -> find_node (fst e + DATA_OFFSET) l = Some e.
Proof.
  induction l as [|x l IH]; intros Hnd He; [now apply elem_of_nil in He|].
  cbn [fmap list_fmap] in Hnd. apply NoDup_cons in Hnd as [Hx Hnd].
  unfold find_node. cbn [List.find].
  apply elem_of_cons in He as [->|He].
  - now rewrite Z.eqb_refl.
  - destruct (Z.eqb_spec (fst x + DATA_OFFSET) (fst e + DATA_OFFSET)) as [Heq|_].
    + exfalso. apply Hx. replace (fst x) with (fst e) by lia.
      apply list_elem_of_fmap. now exists e.
    + now apply IH.
Qed.

Lemma pool_node (n : Z) :
  n ∈ fst <$> pool0 ->
  exists e, e ∈ pool0 /\ fst e = n /\ n <> 0 /\ n + DATA_OFFSET <> 0 /\
            1 <= references (snd e) /\
            find_node (n + DATA_OFFSET) pool0 = Some e /\
            text_in pool0 (n + DATA_OFFSET) = node_text (snd e).
Proof.
  intros Hn. apply list_elem_of_fmap in Hn as (e & -> & He). exists e.
  destruct Hpool as [Hnd Hall]. rewrite Forall_forall in Hall.
  destruct (Hall e He) as (Hz & Hq & Hr).
  pose proof (find_node_of _ e Hnd He) as Hf.
  repeat split; try assumption.
  unfold text_in. destruct (Z.eqb_spec (fst e + DATA_OFFSET) 0); [done|].
  now rewrite Hf.
Qed.

Lemma plus_single (n : Z) (delta : Z -> Z) (m : Z) :
  plus [n] delta m = plus_one n delta m.
Proof.
  unfold plus, plus_one, count. cbn [count_occ].
  destruct (Z.eq_dec n m) as [->|Hne].
  - now rewrite Z.eqb_refl.
  - destruct (Z.eqb_spec m n); [congruence|reflexivity].
Qed.

Lemma plus_nil (delta : Z -> Z) (m : Z) : plus [] delta m = delta m.
Proof. unfold plus, count. cbn. lia. Qed.

Lemma plus_app (h1 h2 : list Z) (delta : Z -> Z) (m : Z) :
  plus (h1 ++ h2) delta m = plus h2 (plus h1 delta) m.
Proof. unfold plus, count. rewrite count_occ_app. lia. Qed.

(** Saving a text that a node of the pool holds: a node with this text
    gets one more reference. *)
Lemma saveString_interned (n : Z) (st : State) (delta : Z -> Z) :
  strings st = shift_refs delta pool0 -> n ∈ fst <$> pool0 ->
  exists n',
    saveString (text_in pool0 (n + DATA_OFFSET)) st
    = (n', set_strings (shift_refs (plus [n'] delta) pool0) st) /\
    n' ∈ fst <$> pool0 /\ n' <> 0 /\ n' + DATA_OFFSET <> 0 /\
    text_in pool0 (n' + DATA_OFFSET) = text_in pool0 (n + DATA_OFFSET).
Proof.
  intros Hs Hn. destruct (pool_node n Hn) as (e & He & <- & _ & _ & _ & _ & Ht).
  rewrite Ht. unfold saveString. rewrite Hs, find_text_shift.
  destruct (List.find _ pool0) as [e'|] eqn:Hf.
  - apply find_some in Hf as [He' Htx]. apply String.eqb_eq in Htx.
    apply list_elem_of_In in He'.
    assert (Hn' : fst e' ∈ fst <$> pool0)
      by (apply list_elem_of_fmap; now exists e').
    destruct (pool_node _ Hn') as (e2 & He2 & Hfst & Hz & Hq & _ & Hfind & Ht').
    exists (fst e'). cbn [fmap option_fmap option_map shift_entry fst].
    split; [|repeat split; try assumption].
    + f_equal. f_equal. rewrite add_reference_shift by apply Hpool.
      apply shift_refs_ext. intros m. symmetry. apply plus_single.
    + rewrite Ht'. destruct Hpool as [Hnd _].
      rewrite (find_node_of _ e' Hnd He') in Hfind. now injection Hfind as <-.
  - exfalso. apply list_elem_of_In in He.
    pose proof (find_none _ _ Hf e He) as Hno.
    cbv beta in Hno. now rewrite String.eqb_refl in Hno.
Qed.

Lemma add_keeps_holder_link (this : VariantRef) (slot : Z) (st : State)
    (l : list Z) (q : Z) :
  collection_at this st l -> this = SlotVar q -> q ∉ l ->
  next_ <$> slots (CollectionData_add this slot st) !! q
  = next_ <$> slots st !! q.
Proof.
  intros (v & Hv & Hc & Ht & Hh) -> Hq. unfold CollectionData_add. rewrite Hv.
  destruct (Z.eqb_spec (tail_ (content_asCollection (content_ v))) 0)
    as [Hz|Hnz]; cbn [negb]; unfold update_collection;
    rewrite links_update_var; [reflexivity|].
  rewrite links_setNextNotNull; [reflexivity|].
  intros ->. apply Hq. rewrite Ht in Hnz |- *.
  destruct (last l) as [t|] eqn:Hl; [|done]. cbn.
  apply last_Some in Hl as [l' ->]. apply elem_of_app. right.
  apply list_elem_of_here.
Qed.

(** The cell of a new slot, after its key is set. *)
Lemma type_new_linked (k : Z) :
  type (data (setKey_linked k VariantSlot_new)) = VALUE_IS_NULL /\
  ownsKey (setKey_linked k VariantSlot_new) = false.
Proof.
  unfold ownsKey, type, setKey_linked, VariantSlot_new, VariantData_new.
  cbn [data flags_ content_].
  rewrite (kind_in_mask layout _ null_is_kind), uint8_t_land,
    (kind_byte layout _ null_is_kind), (kind_in_mask layout _ null_is_kind),
    (kind_no_key_bit layout _ null_is_kind).
  done.
Qed.

Lemma type_new_owned (node : Z) :
  OWNED_KEY_BIT <> 0 ->
  type (data (setKey_owned node VariantSlot_new)) = VALUE_IS_NULL /\
  ownsKey (setKey_owned node VariantSlot_new) = true.
Proof.
  intros Hbit.
  unfold ownsKey, type, setKey_owned, VariantSlot_new, VariantData_new.
  cbn [data flags_ content_]. rewrite uint8_t_land.
  pose proof (kind_in_mask layout _ null_is_kind) as Hm.
  pose proof (kind_byte layout _ null_is_kind) as Hb.
  pose proof (key_bit_outside_mask layout) as Ho.
  pose proof (key_bit_byte layout) as Hkb.
  split.
  - apply Z.bits_inj'. intros n Hn.
    read_bit n Hm. read_bit n Hb. read_bit n Ho. bit_specs. split_bits.
  - replace (Z.land (Z.land (Z.lor VALUE_IS_NULL OWNED_KEY_BIT) 255) OWNED_KEY_BIT)
      with OWNED_KEY_BIT.
    + now destruct (Z.eqb_spec OWNED_KEY_BIT 0).
    + apply Z.bits_inj'. intros n Hn.
      read_bit n Hkb. bit_specs. split_bits.
Qed.

Lemma type_new : type (data VariantSlot_new) = VALUE_IS_NULL /\
                 ownsKey VariantSlot_new = false.
Proof.
  unfold ownsKey, type, VariantSlot_new, VariantData_new. cbn [data flags_].
  rewrite (kind_in_mask layout _ null_is_kind),
    (kind_no_key_bit layout _ null_is_kind). done.
Qed.

End CopyMember.

Section CopyAppend.
Context `{VariantFlags} `{Platform} (layout : flags_layout).
Variable pool0 : list (Z * StringNode).
Hypothesis Hpool : pool_ok pool0.

Lemma holder_not_free (dst : VariantRef) (st : State) (v : VariantData) (p : Z) :
  free_ok st -> get_var dst st = Some v -> p ∈ free_slots st ->
  dst <> SlotVar p.
Proof.
  intros [_ Hf] Hv Hp ->. destruct (Hf p Hp) as [_ Hn]. cbn in Hv.
  now rewrite Hn in Hv.
Qed.

Lemma chain_not_free (st : State) (h : Z) (l : list Z) (p : Z) :
  free_ok st -> chain (slots st) h l -> p ∈ free_slots st -> p ∉ l.
Proof.
  intros [_ Hf] Hc Hp Hin.
  destruct (chain_in_store _ _ _ Hc p Hin) as [_ [s Hs]].
  destruct (Hf p Hp) as [_ Hn]. congruence.
Qed.

(** The slot a loop of the copy appends for the source slot [sl]: a member
    with the key of [sl] when it has one, an element otherwise. *)
Definition appended_slot (dst : VariantRef) (sl : VariantSlot) (st : State)
    : option VariantRef * State :=
  if negb (key_ sl =? 0)
  then collectionAddMember dst (mkStr (key_ sl) (negb (ownsKey sl))) st
  else ArrayData_addElement dst st.

Lemma member_added (t : Z) (dst : VariantRef) (sa : VariantSlot)
    (hk : list Z) (st : State) (delta : Z -> Z) (lb : list Z) (pb : Z)
    (rest : list Z) :
  key_ok pool0 t sa hk ->
  collection_at dst st lb -> (forall q, q ∈ lb -> dst <> SlotVar q) ->
  free_ok st -> free_slots st = pb :: rest ->
  strings st = shift_refs delta pool0 ->
  exists st1 sb hk',
    appended_slot dst sa st = (Some (SlotVar pb), st1) /\
    slots st1 !! pb = Some sb /\ type (data sb) = VALUE_IS_NULL /\
    ownsKey sb = ownsKey sa /\
    key_ok pool0 t sb hk' /\
    text_in pool0 (key_ sb) = text_in pool0 (key_ sa) /\
    collection_at dst st1 (lb ++ [pb]) /\
    strings st1 = shift_refs (plus hk' delta) pool0 /\
    free_slots st1 = rest /\ free_nodes st1 = free_nodes st /\
    (dst <> RootVar -> root st1 = root st) /\
    flags_ <$> get_var dst st1 = flags_ <$> get_var dst st /\
    (forall q, q <> pb -> dst <> SlotVar q ->
       data <$> slots st1 !! q = data <$> slots st !! q) /\
    (forall q, q <> pb -> key_ <$> slots st1 !! q = key_ <$> slots st !! q) /\
    (forall q, q <> pb -> q ∉ lb -> dst <> SlotVar q ->
       slots st1 !! q = slots st !! q) /\
    (forall q, dst = SlotVar q ->
       next_ <$> slots st1 !! q = next_ <$> slots st !! q).
Proof.
  intros Hkey Hcoll Hlb Hfree Hfs Hs.
  assert (Hpbf : pb ∈ free_slots st) by (rewrite Hfs; apply list_elem_of_here).
  destruct (proj2 Hfree pb Hpbf) as [Hpb0 Hpbn].
  destruct Hcoll as (v & Hv & Hc & Ht & Hh).
  pose proof (holder_not_free dst st v pb Hfree Hv Hpbf) as Hdst.
  pose proof (chain_not_free st _ lb pb Hfree Hc Hpbf) as Hpblb.
  assert (Hpre : exists sb hk' strs,
    appended_slot dst sa st
    = (Some (SlotVar pb),
       CollectionData_add dst pb
         (mkState (root st) (<[pb := sb]> (slots st)) rest strs (free_nodes st))) /\
    type (data sb) = VALUE_IS_NULL /\ next_ sb = 0 /\
    ownsKey sb = ownsKey sa /\
    key_ok pool0 t sb hk' /\
    text_in pool0 (key_ sb) = text_in pool0 (key_ sa) /\
    strs = shift_refs (plus hk' delta) pool0).
  { unfold appended_slot, key_ok in *.
    destruct (Z.eqb_spec t VALUE_IS_OBJECT) as [Hobj|Hobj].
    - destruct Hkey as [Hk0 Hown].
      destruct (Z.eqb_spec (key_ sa) 0) as [|_]; [done|]. cbn [negb].
      unfold collectionAddMember, allocVariant. rewrite Hfs.
      destruct (Z.eqb_spec pb 0) as [|_]; [done|]. cbn [isLinked str_].
      destruct (ownsKey sa) eqn:Ho; cbn [negb].
      + destruct Hown as (kn & Hkn & Hin & ->).
        rewrite text_at_text_in. cbn [strings].
        rewrite Hs, text_in_shift, Hkn.
        match goal with
        | |- context [saveString _ ?s] => set (st1 := s)
        end.
        destruct (saveString_interned pool0 Hpool kn st1 delta eq_refl Hin)
          as (n' & Hsave & Hn' & Hn0 & Hnq & Htx).
        rewrite Hsave. destruct (Z.eqb_spec n' 0) as [|_]; [done|].
        unfold update_slot. subst st1. cbn [slots set_strings].
        rewrite lookup_insert_eq.
        assert (Hbit : OWNED_KEY_BIT <> 0).
        { intros Hz. unfold ownsKey in Ho. rewrite Hz, Z.land_0_r in Ho.
          discriminate. }
        destruct (type_new_owned layout n' Hbit) as [Hty Hok].
        exists (setKey_owned n' VariantSlot_new), [n'],
          (shift_refs (plus [n'] delta) pool0).
        split; [|split; [assumption|split; [reflexivity|split; [assumption|split;
          [|split; [|reflexivity]]]]]].
        * unfold set_slots. cbn. now rewrite insert_insert_eq.
        * rewrite Hok. cbn [key_ setKey_owned]. split; [assumption|].
          exists n'. done.
        * cbn [key_ setKey_owned]. exact Htx.
      + subst hk. unfold update_slot. cbn [slots]. rewrite lookup_insert_eq.
        destruct (type_new_linked layout (key_ sa)) as [Hty Hok].
        exists (setKey_linked (key_ sa) VariantSlot_new), [], (strings st).
        split; [|split; [assumption|split; [reflexivity|split; [assumption|split;
          [|split; [reflexivity|]]]]]].
        * unfold set_slots. cbn. now rewrite insert_insert_eq.
        * rewrite Hok. cbn [key_ setKey_linked]. done.
        * rewrite Hs. apply shift_refs_ext. intros m. symmetry. apply plus_nil.
    - destruct Hkey as (Hk0 & Hown & ->). rewrite Hk0. cbn [Z.eqb negb].
      unfold ArrayData_addElement, allocVariant. rewrite Hfs.
      destruct (Z.eqb_spec pb 0) as [|_]; [done|].
      destruct (type_new layout) as [Hty Hok].
      exists VariantSlot_new, [], (strings st).
      split; [reflexivity|split; [assumption|split; [reflexivity|split;
        [congruence|split; [|split; [|]]]]]].
      + rewrite Hok. done.
      + reflexivity.
      + rewrite Hs. apply shift_refs_ext. intros m. symmetry. apply plus_nil. }
  destruct Hpre as (sb & hk' & strs & Hcall & Hty & Hnx & Hown' & Hkey' & Htx
                    & Hstrs).
  set (st2 := mkState (root st) (<[pb := sb]> (slots st)) rest strs
                (free_nodes st)) in *.
  assert (Hg2 : get_var dst st2 = get_var dst st).
  { destruct dst as [|q]; cbn; [reflexivity|].
    rewrite lookup_insert_ne; [reflexivity|congruence]. }
  assert (Hcoll2 : collection_at dst st2 lb).
  { apply (collection_at_frame dst st st2 lb); [now exists v|assumption|].
    intros q Hq. cbn. rewrite lookup_insert_ne; [reflexivity|].
    intros ->. contradiction. }
  assert (Hsb2 : slots st2 !! pb = Some sb) by apply lookup_insert_eq.
  destruct (add_step dst pb st2 lb sb Hcoll2 Hpb0 Hpblb Hsb2 Hnx Hdst Hlb)
    as [Hcoll3 Hframe].
  destruct (add_fields dst pb st2) as (Hf1 & Hf2 & Hf3 & Hf4).
  exists (CollectionData_add dst pb st2), sb, hk'.
  split; [assumption|]. split; [now rewrite Hframe|].
  split; [assumption|]. split; [assumption|]. split; [assumption|].
  split; [assumption|].
  split; [assumption|]. split; [now rewrite Hf1|]. split; [assumption|].
  split; [assumption|]. split; [assumption|].
  split; [now rewrite add_keeps_flags, Hg2|].
  split; [|split; [|split]].
  - intros q Hq Hdq. rewrite add_keeps_cells by assumption. cbn.
    now rewrite lookup_insert_ne.
  - intros q Hq. rewrite add_keeps_keys. cbn. now rewrite lookup_insert_ne.
  - intros q Hq Hql Hdq. rewrite Hframe by assumption. cbn.
    now rewrite lookup_insert_ne.
  - intros q Hdq. rewrite (add_keeps_holder_link dst pb st2 lb q Hcoll2 Hdq).
    + cbn. rewrite lookup_insert_ne; [reflexivity|]. congruence.
    + intros Hin. now apply (Hlb q Hin).
Qed.

End CopyAppend.

Lemma in_take (q : Z) (n : nat) (l : list Z) : q ∈ take n l -> q ∈ l.
Proof.
  intros Hq. rewrite <- (take_drop n l). apply elem_of_app. now left.
Qed.

Lemma in_drop (q : Z) (n : nat) (l : list Z) : q ∈ drop n l -> q ∈ l.
Proof.
  intros Hq. rewrite <- (take_drop n l). apply elem_of_app. now right.
Qed.

Lemma take_drop_disjoint (q : Z) (n : nat) (l : list Z) :
  NoDup l -> q ∈ take n l -> q ∉ drop n l.
Proof.
  intros Hnd Hq. rewrite <- (take_drop n l) in Hnd.
  apply NoDup_app in Hnd as (_ & Hdis & _). now apply Hdis.
Qed.

Lemma NoDup_take (n : nat) (l : list Z) : NoDup l -> NoDup (take n l).
Proof.
  intros Hnd. rewrite <- (take_drop n l) in Hnd.
  now apply NoDup_app in Hnd as (? & _ & _).
Qed.

Lemma NoDup_drop (n : nat) (l : list Z) : NoDup l -> NoDup (drop n l).
Proof.
  intros Hnd. rewrite <- (take_drop n l) in Hnd.
  now apply NoDup_app in Hnd as (_ & _ & ?).
Qed.

(** ** The copy of a document

    [copies k]: from any state whose store holds a document of nesting at
    most [k], with enough free slots and enough fuel, [copyFrom] into a
    Null cell succeeds; the slots of the copy are the first free slots,
    in the order of the source; it holds one more reference of a pool
    node for each owned string and key, and nothing else changes. *)
Section CopyMain.
Context `{VariantFlags} `{Platform} (layout : flags_layout).
Variable pool0 : list (Z * StringNode).
Hypothesis Hpool : pool_ok pool0.
Variable m0 : gmap Z VariantSlot.

Definition owns (v : VariantData) : bool :=
  negb (Z.land (flags_ v) OWNED_KEY_BIT =? 0).

(** What a copy into [dst] that takes [n] slots leaves alone. *)
Definition copy_kept (dst : VariantRef) (n : nat) (st st' : State) : Prop :=
  free_slots st' = drop n (free_slots st) /\
  free_nodes st' = free_nodes st /\
  free_ok st' /\
  (dst <> RootVar -> root st' = root st) /\
  (forall q, q ∉ take n (free_slots st) -> dst <> SlotVar q ->
     slots st' !! q = slots st !! q) /\
  (forall q, dst = SlotVar q ->
     next_ <$> slots st' !! q = next_ <$> slots st !! q /\
     key_ <$> slots st' !! q = key_ <$> slots st !! q).

Definition copies (k : nat) : Prop :=
  forall a fa hsA, document k m0 pool0 a fa hsA ->
  forall dst src st delta fuel vb,
    get_var src st = Some a ->
    get_var dst st = Some vb -> type vb = VALUE_IS_NULL ->
    (forall q, q ∈ fa -> dst <> SlotVar q) ->
    (forall q, q ∈ fa -> slots st !! q = m0 !! q) ->
    strings st = shift_refs delta pool0 ->
    free_ok st ->
    (length fa <= length (free_slots st))%nat ->
    (2 * length fa + 2 <= fuel)%nat ->
    exists st' vb' hsB,
      VariantData_copyFrom fuel dst (Some src) st = (true, st') /\
      get_var dst st' = Some vb' /\
      (owns vb' = owns vb \/ owns vb' = owns a) /\
      copy_of k (slots st') pool0 a vb' fa
        (take (length fa) (free_slots st)) hsB /\
      strings st' = shift_refs (plus hsB delta) pool0 /\
      copy_kept dst (length fa) st st'.

(** An in-place change of an existing cell keeps the rest. *)
Lemma update_kept (dst : VariantRef) (f : VariantData -> VariantData)
    (st : State) (vb : VariantData) :
  get_var dst st = Some vb -> free_ok st ->
  copy_kept dst 0 st (update_var dst f st).
Proof.
  intros Hvb Hfree.
  destruct (update_var_fields dst f st) as (Hs & Hfs & Hfn & Hr).
  unfold copy_kept. rewrite Hfs, Hfn, drop_0.
  split; [reflexivity|]. split; [reflexivity|]. split; [|split; [assumption|split]].
  - split; [rewrite Hfs; apply Hfree|]. intros p Hp. rewrite Hfs in Hp.
    destruct (proj2 Hfree p Hp) as [Hp0 Hpn]. split; [assumption|].
    rewrite slots_update_var_ne; [assumption|].
    exact (holder_not_free dst st vb p Hfree Hvb Hp).
  - intros q _ Hq. now apply slots_update_var_ne.
  - intros q _. split; [apply links_update_var|apply keys_update_var].
Qed.

Lemma type_set_content (c : VariantContent) (v : VariantData) :
  type (set_content c v) = type v.
Proof. reflexivity. Qed.

Lemma owns_set_type (c : VariantContent) (t : Z) (v : VariantData) :
  t ∈ kinds -> owns (set_content c (setType t v)) = owns v.
Proof.
  intros Ht. unfold owns. cbn [set_content flags_].
  now rewrite (key_bit_setType layout t v Ht).
Qed.

(** A cell that is not a collection is copied by one step. *)
Lemma copies_leaf (k : nat) (a : VariantData) (fa hsA : list Z) :
  document k m0 pool0 a fa hsA -> isCollection a = false ->
  forall dst src st delta fuel vb,
    get_var src st = Some a ->
    get_var dst st = Some vb -> type vb = VALUE_IS_NULL ->
    strings st = shift_refs delta pool0 ->
    free_ok st ->
    (2 <= fuel)%nat ->
    fa = [] /\
    exists st' vb' hsB,
      VariantData_copyFrom fuel dst (Some src) st = (true, st') /\
      get_var dst st' = Some vb' /\
      (owns vb' = owns vb \/ owns vb' = owns a) /\
      copy_of k (slots st') pool0 a vb' [] [] hsB /\
      strings st' = shift_refs (plus hsB delta) pool0 /\
      copy_kept dst 0 st st'.
Proof.
  intros Hdoc Hcol dst src st delta fuel vb Hsrc Hdst Hnull Hs Hfree Hfuel.
  assert (Hleaf : type a ∈ kinds /\ fa = [] /\
    (if is_owned_kind (type a)
     then exists nd, content_ a = asOwnedString nd /\ nd ∈ fst <$> pool0 /\
                     hsA = [nd]
     else hsA = []) /\
    (type a = VALUE_IS_FLOAT ->
     PrimFloat.eqb (content_asFloat (content_ a)) (content_asFloat (content_ a))
     = true)).
  { destruct k; destruct Hdoc as [Hk Hd]; cbn in Hd; rewrite Hcol in Hd;
      tauto. }
  destruct Hleaf as (Hkind & -> & Hown & Hfloat). split; [reflexivity|].
  destruct fuel as [|f]; [lia|].
  rewrite VariantData_copyFrom_S. cbv zeta.
  rewrite (release_null layout (S f) dst st vb Hdst Hnull), Hsrc.
  rewrite (isCollection_kind layout a Hkind) in Hcol.
  apply orb_false_elim in Hcol as [Hno Hna].
  apply bool_decide_eq_false in Hno, Hna.
  destruct (Z.eqb_spec (type a) VALUE_IS_ARRAY) as [|_]; [done|].
  destruct (Z.eqb_spec (type a) VALUE_IS_OBJECT) as [|_]; [done|].
  destruct (copy_kinds layout)
    as (_ & _ & _ & _ & _ & Hor & _ & _ & _ & _ & Hlo).
  assert (Hcp : forall m b hs,
    type b = type a ->
    (if is_owned_kind (type a)
     then exists nb, content_ b = asOwnedString nb /\ nb ∈ fst <$> pool0 /\
            hs = [nb] /\
            text_in pool0 (nb + DATA_OFFSET)
            = text_in pool0 (content_asOwnedString (content_ a) + DATA_OFFSET)
     else content_ b = content_ a /\ hs = []) ->
    copy_of k m pool0 a b [] [] hs).
  { intros m b hs Hty Hb.
    assert (Hcol : isCollection a = false).
    { rewrite (isCollection_kind layout a Hkind).
      now rewrite !bool_decide_eq_false_2. }
    destruct k; (split; [assumption|split; [assumption|]]); cbn;
      rewrite Hcol; tauto. }
  unfold is_owned_kind in Hown, Hcp.
  destruct (Z.eqb_spec (type a) VALUE_IS_OWNED_STRING) as [Hto|Hto].
  - (* an owned string *)
    cbn [orb] in Hown, Hcp. destruct Hown as (nd & Hc & Hnd & ->).
    unfold VariantData_asString. rewrite Hto.
    destruct (Z.eqb_spec VALUE_IS_OWNED_STRING VALUE_IS_LINKED_STRING)
      as [Heq|_]; [now symmetry in Heq|].
    rewrite Z.eqb_refl. cbn [str_]. rewrite Hc. cbn [content_asOwnedString].
    rewrite text_at_text_in, Hs, text_in_shift.
    destruct (saveString_interned pool0 Hpool nd st delta Hs Hnd)
      as (n' & Hsave & Hn' & Hn0 & Hnq & Htx).
    rewrite Hsave. destruct (Z.eqb_spec n' 0) as [|_]; [done|].
    set (st1 := set_strings _ st).
    assert (Hdst1 : get_var dst st1 = Some vb) by (now destruct dst).
    assert (Hfree1 : free_ok st1) by exact Hfree.
    exists (update_var dst (setOwnedString n') st1), (setOwnedString n' vb), [n'].
    split; [reflexivity|]. split; [rewrite get_var_update_var, Hdst1; reflexivity|].
    split; [left; apply owns_set_type; unfold kinds; in_list|].
    split; [|split].
    + apply Hcp.
      * unfold setOwnedString. rewrite type_set_content, Hto.
        apply (type_setType layout). unfold kinds. in_list.
      * exists n'. rewrite Hc. done.
    + now destruct (update_var_fields dst (setOwnedString n') st1) as (-> & _).
    + exact (update_kept dst (setOwnedString n') st1 vb Hdst1 Hfree1).
  - destruct (Z.eqb_spec (type a) VALUE_IS_RAW_STRING) as [Htr|Htr].
    + (* a raw string *)
      cbn [orb] in Hown, Hcp. destruct Hown as (nd & Hc & Hnd & ->).
      unfold VariantData_asRawString. rewrite Htr, Z.eqb_refl. cbn [str_].
      rewrite Hc. cbn [content_asOwnedString].
      rewrite text_at_text_in, Hs, text_in_shift.
      destruct (saveString_interned pool0 Hpool nd st delta Hs Hnd)
        as (n' & Hsave & Hn' & Hn0 & Hnq & Htx).
      rewrite Hsave. destruct (Z.eqb_spec n' 0) as [|_]; [done|].
      set (st1 := set_strings _ st).
      assert (Hdst1 : get_var dst st1 = Some vb) by (now destruct dst).
      assert (Hfree1 : free_ok st1) by exact Hfree.
      exists (update_var dst (setRawString n') st1), (setRawString n' vb), [n'].
      split; [reflexivity|]. split; [rewrite get_var_update_var, Hdst1; reflexivity|].
      split; [left; apply owns_set_type; unfold kinds; in_list|].
      split; [|split].
      * apply Hcp.
        -- unfold setRawString. rewrite type_set_content, Htr.
           apply (type_setType layout). unfold kinds. in_list.
        -- exists n'. rewrite Hc. done.
      * now destruct (update_var_fields dst (setRawString n') st1) as (-> & _).
      * exact (update_kept dst (setRawString n') st1 vb Hdst1 Hfree1).
    + (* a scalar or a linked string *)
      cbn [orb] in Hown, Hcp. subst hsA.
      exists (update_var dst (fun _ => a) st), a, [].
      split; [reflexivity|]. split; [rewrite get_var_update_var, Hdst; reflexivity|].
      split; [now right|]. split; [|split].
      * now apply Hcp.
      * destruct (update_var_fields dst (fun _ => a) st) as (-> & _).
        rewrite Hs. apply shift_refs_ext. intros m. symmetry. apply plus_nil.
      * exact (update_kept dst _ st vb Hdst Hfree).
Qed.

(** What the members of a collection of kind [t] are, in the store [m0]. *)
Definition kid_facts (t : Z) (k : nat) (kid : Kid) : Prop :=
  exists s hk hv,
    m0 !! kid_slot kid = Some s /\
    key_ok pool0 t s hk /\
    document k m0 pool0 (data s) (kid_fp kid) hv /\
    kid_hs kid = hk ++ hv.

(** What the copied members are, in the store [m]. *)
Definition pair_facts (t : Z) (k : nat) (m : gmap Z VariantSlot) (pr : Pair)
    : Prop :=
  exists sa sb hk hv,
    m !! pair_a pr = Some sa /\
    m !! pair_b pr = Some sb /\
    key_ok pool0 t sb hk /\
    text_in pool0 (key_ sb) = text_in pool0 (key_ sa) /\
    copy_of k m pool0 (data sa) (data sb) (pair_fa pr) (pair_fb pr) hv /\
    pair_hs pr = hk ++ hv.

Lemma kids_in_store (t : Z) (k : nat) (p : Z) (kids : list Kid) :
  chain m0 p (kid_slot <$> kids) -> Forall (kid_facts t k) kids ->
  forall q, q ∈ concat (kid_all <$> kids) -> q <> 0 /\ is_Some (m0 !! q).
Proof.
  intros Hc Hkids q Hq.
  apply in_concat_fmap_inv in Hq as (kid & Hkid & Hq).
  apply elem_of_cons in Hq as [->|Hq].
  - apply (chain_in_store _ _ _ Hc). apply list_elem_of_fmap. now exists kid.
  - rewrite Forall_forall in Hkids.
    destruct (Hkids kid Hkid) as (s & hk & hv & _ & _ & Hd & _).
    exact (document_slots _ _ _ _ _ _ Hd q Hq).
Qed.

End CopyMain.

Section CopyLoop.
Context `{VariantFlags} `{Platform} (layout : flags_layout).
Variable pool0 : list (Z * StringNode).
Hypothesis Hpool : pool_ok pool0.
Variable m0 : gmap Z VariantSlot.
(** The two loops, [ArrayData::copyFrom] and [collectionCopy], have the
    same step on the slots of a collection of kind [t]. *)
Variable loop : nat -> VariantRef -> Z -> State -> bool * State.
Variable t : Z.
Variable k : nat.
Hypothesis IHk : copies pool0 m0 k.
Hypothesis loop_nil : forall f dst st, loop (S f) dst 0 st = (true, st).
Hypothesis loop_step : forall f dst s sl st,
  s <> 0 -> slots st !! s = Some sl -> (t <> VALUE_IS_OBJECT -> key_ sl = 0) ->
  loop (S f) dst s st =
  let '(var, st1) := appended_slot dst sl st in
  match var with
  | None => (false, st1)
  | Some v =>
      let '(ok, st2) := VariantData_copyFrom f v (Some (SlotVar s)) st1 in
      if negb ok then (false, st2)
      else match slots st2 !! s with
           | None => (false, st2)
           | Some sl2 => loop f dst (slot_next s sl2) st2
           end
  end.

Lemma loop_copies (kids : list Kid) :
  forall p dst st delta fuel lb,
  chain m0 p (kid_slot <$> kids) ->
  Forall (kid_facts pool0 m0 t k) kids ->
  (forall q, q ∈ concat (kid_all <$> kids) -> slots st !! q = m0 !! q) ->
  collection_at dst st lb ->
  (forall q, q ∈ lb -> dst <> SlotVar q) ->
  (forall q, q ∈ concat (kid_all <$> kids) -> dst <> SlotVar q) ->
  (forall q, q ∈ concat (kid_all <$> kids) -> q ∉ lb) ->
  strings st = shift_refs delta pool0 ->
  free_ok st ->
  (length (concat (kid_all <$> kids)) <= length (free_slots st))%nat ->
  (2 * length (concat (kid_all <$> kids)) + 1 <= fuel)%nat ->
  exists st' ps,
    loop fuel dst p st = (true, st') /\
    pair_a <$> ps = kid_slot <$> kids /\
    pair_all_a <$> ps = kid_all <$> kids /\
    concat (pair_all_b <$> ps)
    = take (length (concat (kid_all <$> kids))) (free_slots st) /\
    collection_at dst st' (lb ++ (pair_b <$> ps)) /\
    Forall (pair_facts pool0 t k (slots st')) ps /\
    strings st' = shift_refs (plus (concat (pair_hs <$> ps)) delta) pool0 /\
    flags_ <$> get_var dst st' = flags_ <$> get_var dst st /\
    free_slots st' = drop (length (concat (kid_all <$> kids))) (free_slots st) /\
    free_nodes st' = free_nodes st /\
    free_ok st' /\
    (dst <> RootVar -> root st' = root st) /\
    (forall q, q ∉ take (length (concat (kid_all <$> kids))) (free_slots st) ->
       dst <> SlotVar q ->
       data <$> slots st' !! q = data <$> slots st !! q /\
       key_ <$> slots st' !! q = key_ <$> slots st !! q) /\
    (forall q, q ∉ take (length (concat (kid_all <$> kids))) (free_slots st) ->
       q ∉ lb -> dst <> SlotVar q -> slots st' !! q = slots st !! q) /\
    (forall q, dst = SlotVar q ->
       next_ <$> slots st' !! q = next_ <$> slots st !! q /\
       key_ <$> slots st' !! q = key_ <$> slots st !! q).
Proof.
  induction kids as [|kid rest IH];
    intros p dst st delta fuel lb Hc Hkids Hagree Hcoll Hlb HdF HFlb Hs Hfree
      Hlen Hfuel.
  - (* no member is left *)
    inversion Hc; subst. destruct fuel as [|f]; [cbn in Hfuel; lia|].
    exists st, []. cbn [fmap list_fmap concat length take drop].
    rewrite loop_nil, app_nil_r.
    split; [reflexivity|]. split; [reflexivity|]. split; [reflexivity|].
    split; [reflexivity|]. split; [assumption|]. split; [constructor|].
    split; [rewrite Hs; apply shift_refs_ext; intros m; symmetry; apply plus_nil|].
    split; [reflexivity|]. split; [reflexivity|]. split; [reflexivity|].
    split; [assumption|]. done.
  - (* one member, then the others *)
    pose proof (kids_in_store pool0 m0 t k p (kid :: rest) Hc Hkids) as Hstore.
    cbn [fmap list_fmap] in Hc.
    inversion Hc as [|p' s l' Hp0 Hms Hc']; subst p' l'. subst p.
    apply Forall_cons in Hkids as [Hkid Hrest].
    destruct Hkid as (s' & hk & hv & Hms' & Hkey & Hdoc & Hhs).
    rewrite Hms in Hms'. injection Hms' as <-.
    set (p := kid_slot kid) in *. set (F1 := kid_fp kid) in *.
    set (Fr := concat (kid_all <$> rest)) in *.
    change (concat (kid_all <$> kid :: rest)) with ((p :: F1) ++ Fr) in *.
    rewrite length_app in Hlen, Hfuel |- *. cbn [length Nat.add] in Hlen, Hfuel |- *.
    destruct (free_slots st) as [|pb fr] eqn:Hfs; [cbn in Hlen; lia|].
    cbn [length] in Hlen.
    destruct fuel as [|f]; [lia|].
    set (used1 := take (length F1) fr).
    set (usedr := take (length Fr) (drop (length F1) fr)).
    assert (Htake : take (S (length F1 + length Fr)) (pb :: fr)
                    = pb :: used1 ++ usedr).
    { cbn [take]. f_equal. symmetry. apply take_take_drop. }
    rewrite Htake.
    pose proof (proj1 Hfree) as Hnd. rewrite Hfs in Hnd.
    apply NoDup_cons in Hnd as [Hpbfr Hndfr].
    (* what lives in the store is not free *)
    assert (Hlive : forall q, is_Some (slots st !! q) -> q ∉ pb :: fr).
    { intros q [sq Hq] Hin. rewrite <- Hfs in Hin.
      destruct (proj2 Hfree q Hin) as [_ Hn]. congruence. }
    assert (Hout : forall q, q ∉ pb :: fr ->
                     q <> pb /\ (q ∉ fr) /\ (q ∉ used1) /\ (q ∉ usedr)).
    { intros q Hq. apply not_elem_of_cons in Hq as [Hq1 Hq2].
      split; [assumption|]. split; [assumption|]. split.
      - intros Hin. apply Hq2. exact (in_take _ _ _ Hin).
      - intros Hin. apply Hq2. exact (in_drop _ _ _ (in_take _ _ _ Hin)). }
    assert (HF : forall q, q ∈ (p :: F1) ++ Fr -> q ∉ pb :: fr).
    { intros q Hq. apply Hlive. rewrite (Hagree q Hq). now apply Hstore. }
    destruct Hcoll as (v & Hv & Hch & Htl & Hhd).
    assert (Hdlive : forall q, dst = SlotVar q -> q ∉ pb :: fr).
    { intros q -> . apply Hlive. cbn in Hv.
      destruct (slots st !! q); [eauto|discriminate]. }
    assert (Hlblive : forall q, q ∈ lb -> q ∉ pb :: fr).
    { intros q Hq. apply Hlive. now apply (chain_in_store _ _ _ Hch). }
    assert (Hcoll : collection_at dst st lb) by (now exists v).
    assert (HpF : p ∈ (p :: F1) ++ Fr) by apply list_elem_of_here.
    assert (HF1 : forall q, q ∈ F1 -> q ∈ (p :: F1) ++ Fr).
    { intros q Hq. apply elem_of_app. left. now apply list_elem_of_further. }
    assert (HFr : forall q, q ∈ Fr -> q ∈ (p :: F1) ++ Fr).
    { intros q Hq. apply elem_of_app. now right. }
    assert (Hsp : slots st !! p = Some s) by (now rewrite (Hagree p HpF)).
    assert (Hk0 : t <> VALUE_IS_OBJECT -> key_ s = 0).
    { intros Ht. unfold key_ok in Hkey.
      destruct (Z.eqb_spec t VALUE_IS_OBJECT); [done|]. tauto. }
    (* the new slot *)
    destruct (member_added layout pool0 Hpool t dst s hk st delta lb pb fr
                Hkey Hcoll Hlb Hfree Hfs Hs)
      as (st1 & sb & hk' & Hcall & Hsb & Hnull & Hown & Hkey' & Htx & Hcoll1
          & Hs1 & Hfs1 & Hfn1 & Hroot1 & Hflags1 & Hcells1 & Hkeys1 & Hframe1
          & Hlink1).
    assert (Hst1 : forall q, q ∉ pb :: fr -> q ∉ lb -> dst <> SlotVar q ->
                     slots st1 !! q = slots st !! q).
    { intros q Hq Hql Hqd. apply Hframe1; [|assumption|assumption].
      now apply Hout. }
    assert (Hfree1 : free_ok st1).
    { split; [now rewrite Hfs1|]. intros q Hq. rewrite Hfs1 in Hq.
      assert (Hqf : q ∈ free_slots st)
        by (rewrite Hfs; now apply list_elem_of_further).
      destruct (proj2 Hfree q Hqf) as [Hq0 Hqn]. split; [assumption|].
      rewrite Hframe1; [assumption| | |].
      - intros ->. contradiction.
      - intros Hin. apply (Hlblive q Hin). now rewrite <- Hfs.
      - intros Heq. apply (Hdlive q Heq). now rewrite <- Hfs. }
    (* the copy of the value *)
    destruct (IHk (data s) F1 hv Hdoc (SlotVar pb) (SlotVar p) st1
                (plus hk' delta) f (data sb))
      as (st2 & vb' & hsB & Hcopy & Hvb' & Howns & Hcp & Hs2 & Hkept).
    { cbn [get_var]. rewrite Hst1; [now rewrite Hsp|now apply HF|now apply HFlb
        |now apply HdF]. }
    { cbn [get_var]. now rewrite Hsb. }
    { assumption. }
    { intros q Hq Heq. injection Heq as <-.
      apply (HF pb (HF1 pb Hq)). apply list_elem_of_here. }
    { intros q Hq. rewrite Hst1; [apply Hagree|apply HF|apply HFlb|apply HdF];
        now apply HF1. }
    { assumption. }
    { assumption. }
    { rewrite Hfs1. lia. }
    { lia. }
    destruct Hkept as (Hfs2 & Hfn2 & Hfree2 & Hroot2 & Hframe2 & Hlink2).
    rewrite Hfs1 in Hfs2, Hframe2, Hcp. fold used1 in Hframe2, Hcp.
    assert (Hst2 : forall q, q ∉ pb :: fr -> slots st2 !! q = slots st1 !! q).
    { intros q Hq. apply Hframe2; [now apply Hout|].
      intros Heq. injection Heq as <-. apply Hq, list_elem_of_here. }
    assert (Hsp2 : slots st2 !! p = Some s).
    { rewrite Hst2 by (now apply HF).
      rewrite Hst1; [assumption|now apply HF|now apply HFlb|now apply HdF]. }
    assert (Hg21 : get_var dst st2 = get_var dst st1).
    { destruct dst as [|q]; cbn [get_var].
      - now rewrite Hroot2.
      - rewrite Hst2; [reflexivity|]. now apply Hdlive. }
    (* the other members *)
    destruct (IH (slot_next p s) dst st2 (plus hsB (plus hk' delta)) f
                (lb ++ [pb]))
      as (st' & ps & Hloop & Hpa & Hpall & Hpb & Hcoll' & Hpf & Hs' & Hflags'
          & Hfs' & Hfn' & Hfree' & Hroot' & Hcells' & Hframe' & Hlink').
    { assumption. }
    { assumption. }
    { intros q Hq. rewrite Hst2 by (now apply HF, HFr).
      rewrite Hst1; [apply Hagree|apply HF|apply HFlb|apply HdF];
        now apply HFr. }
    { apply (collection_at_frame dst st1 st2); [assumption|assumption|].
      intros q Hq. apply elem_of_app in Hq as [Hq|Hq].
      - rewrite Hst2; [reflexivity|]. now apply Hlblive.
      - apply list_elem_of_singleton in Hq as ->. now apply Hlink2. }
    { intros q Hq. apply elem_of_app in Hq as [Hq|Hq]; [now apply Hlb|].
      apply list_elem_of_singleton in Hq as ->. intros Heq.
      apply (Hdlive pb Heq), list_elem_of_here. }
    { intros q Hq. now apply HdF, HFr. }
    { intros q Hq Hin. apply elem_of_app in Hin as [Hin|Hin].
      - now apply (HFlb q (HFr q Hq)).
      - apply list_elem_of_singleton in Hin as ->.
        apply (HF pb (HFr pb Hq)), list_elem_of_here. }
    { assumption. }
    { assumption. }
    { rewrite Hfs2, length_drop. fold Fr. lia. }
    { fold Fr. lia. }
    fold Fr in Hpb, Hfs', Hcells', Hframe'.
    rewrite Hfs2 in Hpb, Hfs', Hcells', Hframe'.
    fold usedr in Hpb, Hcells', Hframe'.
    (* the facts on the slots the first copy took *)
    assert (Hused1 : forall q, q ∈ used1 ->
              q <> pb /\ (q ∉ usedr) /\ (q ∉ lb) /\ dst <> SlotVar q).
    { intros q Hq. pose proof (in_take _ _ _ Hq) as Hqfr.
      assert (Hqf : q ∈ pb :: fr) by (now apply list_elem_of_further).
      split; [intros ->; contradiction|]. split; [|split].
      - intros Hin. apply (take_drop_disjoint q (length F1) fr Hndfr Hq).
        exact (in_take _ _ _ Hin).
      - intros Hin. now apply (Hlblive q Hin).
      - intros Heq. now apply (Hdlive q Heq). }
    assert (Hpbu : pb ∉ usedr).
    { intros Hin. apply Hpbfr. exact (in_drop _ _ _ (in_take _ _ _ Hin)). }
    assert (Hpbd : dst <> SlotVar pb).
    { intros Heq. apply (Hdlive pb Heq), list_elem_of_here. }
    exists st', (mkPair p pb F1 used1 (hk' ++ hsB) :: ps).
    split.
    { rewrite (loop_step f dst p s st Hp0 Hsp Hk0), Hcall.
      cbv beta iota zeta. rewrite Hcopy. cbn [negb]. rewrite Hsp2.
      exact Hloop. }
    split; [cbn [fmap list_fmap pair_a]; now f_equal|].
    split; [cbn [fmap list_fmap]; now f_equal|].
    split.
    { cbn [fmap list_fmap concat pair_all_b pair_b pair_fb].
      rewrite Hpb. reflexivity. }
    split; [now rewrite <- app_assoc in Hcoll'|].
    split.
    { apply Forall_cons. split; [|assumption].
      destruct (Hcells' pb Hpbu Hpbd) as [Hd' Hk'].
      destruct (Hlink2 pb eq_refl) as [_ Hk2].
      cbn [get_var] in Hvb'. rewrite Hvb' in Hd'. rewrite Hk2, Hsb in Hk'.
      destruct (slots st' !! pb) as [sb'|] eqn:Hsb'; [|discriminate].
      cbn in Hd', Hk'. injection Hd' as Hd'. injection Hk' as Hk'.
      exists s, sb', hk', hsB. cbn [pair_a pair_b pair_fa pair_fb pair_hs].
      split; [|split; [exact Hsb'|split; [|split; [|split; [|reflexivity]]]]].
      - rewrite Hframe'; [assumption|now apply Hout, HF| |now apply HdF].
        intros Hin. apply elem_of_app in Hin as [Hin|Hin].
        + now apply (HFlb p HpF).
        + apply list_elem_of_singleton in Hin. apply (HF p HpF).
          rewrite Hin. apply list_elem_of_here.
      - apply (key_ok_same pool0 t sb sb'); [assumption| |assumption].
        change (owns (data sb') = owns (data sb)). rewrite Hd'.
        destruct Howns as [Ho|Ho]; [assumption|]. rewrite Ho. symmetry.
        exact Hown.
      - now rewrite Hk'.
      - rewrite Hd'. apply (copy_of_frame k (slots st2)); [assumption|].
        intros q Hq. apply elem_of_app in Hq as [Hq|Hq].
        + apply Hframe'; [now apply Hout, HF, HF1| |now apply HdF, HF1].
          intros Hin. apply elem_of_app in Hin as [Hin|Hin].
          * now apply (HFlb q (HF1 q Hq)).
          * apply list_elem_of_singleton in Hin. apply (HF q (HF1 q Hq)).
            rewrite Hin. apply list_elem_of_here.
        + destruct (Hused1 q Hq) as (Hq1 & Hq2 & Hq3 & Hq4).
          apply Hframe'; [assumption| |assumption].
          intros Hin. apply elem_of_app in Hin as [Hin|Hin]; [contradiction|].
          now apply list_elem_of_singleton in Hin. }
    split.
    { rewrite Hs'. apply shift_refs_ext. intros m.
      cbn [fmap list_fmap concat pair_hs]. unfold plus, count.
      rewrite !count_occ_app. lia. }
    split; [now rewrite Hflags', Hg21, Hflags1|].
    split; [rewrite Hfs'; cbn [drop]; now rewrite drop_drop|].
    split; [now rewrite Hfn', Hfn2, Hfn1|].
    split; [assumption|].
    split; [intros Hr; now rewrite Hroot', Hroot2, Hroot1|].
    split; [|split].
    + intros q Hq Hqd.
      apply not_elem_of_cons in Hq as [Hq1 Hq].
      apply not_elem_of_app in Hq as [Hq2 Hq3].
      destruct (Hcells' q Hq3 Hqd) as [-> ->].
      rewrite Hframe2 by (assumption || congruence).
      split; [now apply Hcells1|now apply Hkeys1].
    + intros q Hq Hql Hqd.
      apply not_elem_of_cons in Hq as [Hq1 Hq].
      apply not_elem_of_app in Hq as [Hq2 Hq3].
      rewrite Hframe'; [|assumption| |assumption].
      * rewrite Hframe2 by (assumption || congruence). now apply Hframe1.
      * intros Hin. apply elem_of_app in Hin as [Hin|Hin]; [contradiction|].
        now apply list_elem_of_singleton in Hin.
    + intros q Hqd. destruct (Hlink' q Hqd) as [-> ->].
      pose proof (Hdlive q Hqd) as Hqf.
      rewrite Hst2 by assumption.
      split; [now apply Hlink1|]. apply Hkeys1. now apply Hout.
Qed.

(** A collection is copied: the holder is made an empty collection of
    the kind of the source, and the loop copies the members. *)
Lemma collection_copied (to : VariantData -> VariantData) (a : VariantData)
    (kids : list Kid) :
  (forall v, content_ (to v) = asCollection (mkCollection 0 0)) ->
  (forall v, type (to v) = t) -> (forall v, owns (to v) = owns v) ->
  type a = t -> type a ∈ kinds -> isCollection a = true ->
  chain m0 (head_ (content_asCollection (content_ a))) (kid_slot <$> kids) ->
  Forall (kid_facts pool0 m0 t k) kids ->
  (type a = VALUE_IS_OBJECT ->
   NoDup (slot_key_text m0 pool0 <$> (kid_slot <$> kids))) ->
  forall dst st delta f vb,
    get_var dst st = Some vb ->
    (forall q, q ∈ concat (kid_all <$> kids) -> dst <> SlotVar q) ->
    (forall q, q ∈ concat (kid_all <$> kids) -> slots st !! q = m0 !! q) ->
    strings st = shift_refs delta pool0 ->
    free_ok st ->
    (length (concat (kid_all <$> kids)) <= length (free_slots st))%nat ->
    (2 * length (concat (kid_all <$> kids)) + 1 <= f)%nat ->
    exists st' vb' hsB,
      loop f dst (head_ (content_asCollection (content_ a)))
        (update_var dst to st) = (true, st') /\
      get_var dst st' = Some vb' /\
      owns vb' = owns vb /\
      copy_of (S k) (slots st') pool0 a vb' (concat (kid_all <$> kids))
        (take (length (concat (kid_all <$> kids))) (free_slots st)) hsB /\
      strings st' = shift_refs (plus hsB delta) pool0 /\
      copy_kept dst (length (concat (kid_all <$> kids))) st st'.
Proof.
  intros Hto Htype Howns Hta Hkind Hcol Hc Hkids Hkeys dst st delta f vb Hvb HdF
    Hagree Hs Hfree Hlen Hfuel.
  set (F := concat (kid_all <$> kids)) in *.
  set (st0 := update_var dst to st).
  destruct (update_var_fields dst to st) as (Hs0 & Hfs0 & Hfn0 & Hroot0).
  fold st0 in Hs0, Hfs0, Hfn0, Hroot0.
  destruct (update_kept dst to st vb Hvb Hfree) as (_ & _ & Hfree0 & _).
  fold st0 in Hfree0.
  assert (Hv0 : get_var dst st0 = Some (to vb)).
  { unfold st0. rewrite get_var_update_var, Hvb. reflexivity. }
  assert (Hsl0 : forall q, dst <> SlotVar q -> slots st0 !! q = slots st !! q).
  { intros q Hq. now apply slots_update_var_ne. }
  destruct (loop_copies kids (head_ (content_asCollection (content_ a))) dst
              st0 delta f [])
    as (st' & ps & Hloop & Hpa & Hpall & Hpb & Hcoll' & Hpf & Hs' & Hflags'
        & Hfs' & Hfn' & Hfree' & Hroot' & Hcells' & Hframe' & Hlink').
  { assumption. }
  { assumption. }
  { intros q Hq. rewrite Hsl0 by (now apply HdF). now apply Hagree. }
  { exists (to vb). split; [assumption|]. rewrite Hto.
    cbn [content_asCollection head_ tail_]. split; [constructor|]. done. }
  { intros q Hq. now apply elem_of_nil in Hq. }
  { assumption. }
  { intros q _ Hq. now apply elem_of_nil in Hq. }
  { now rewrite Hs0. }
  { assumption. }
  { now rewrite Hfs0. }
  { assumption. }
  fold F in Hpb, Hfs', Hcells', Hframe'.
  rewrite Hfs0 in Hpb, Hfs', Hcells', Hframe'.
  destruct Hcoll' as (v' & Hv' & Hch' & Htl' & Hhd'). cbn [app] in Hch', Htl'.
  rewrite Hv', Hv0 in Hflags'. cbn in Hflags'. injection Hflags' as Hflags'.
  pose proof (kids_in_store pool0 m0 t k _ kids Hc Hkids) as Hstore.
  fold F in Hstore.
  assert (HFfree : forall q, q ∈ F -> q ∉ take (length F) (free_slots st)).
  { intros q Hq Hin. apply in_take in Hin.
    destruct (proj2 Hfree q Hin) as [_ Hn].
    destruct (Hstore q Hq) as [_ [sq Hsq]].
    rewrite <- (Hagree q Hq) in Hsq. congruence. }
  exists st', v', (concat (pair_hs <$> ps)).
  split; [assumption|]. split; [assumption|].
  split.
  { rewrite <- (Howns vb). unfold owns. now rewrite Hflags'. }
  split; [|split; [assumption|]].
  - assert (Hsame : forall q, q ∈ kid_slot <$> kids ->
                        slots st' !! q = m0 !! q).
    { intros q Hq. apply (in_heads kid_slot kid_fp) in Hq. fold F in Hq.
      rewrite Hframe'; [|now apply HFfree|apply not_elem_of_nil|now apply HdF].
      rewrite Hsl0 by (now apply HdF). now rewrite Hagree. }
    split; [assumption|]. split.
    + unfold type. rewrite Hflags'. fold (type (to vb)). now rewrite Htype.
    + cbn [copy_of]. rewrite Hcol. exists ps.
      split; [|split; [assumption|split; [assumption|split; [|
        split; [|split; [now rewrite Hpall|split; [now rewrite Hpb|split;
        [reflexivity|]]]]]]]].
      * rewrite Hpa. apply (chain_frame m0); [assumption|].
        intros q Hq. now rewrite Hsame.
      * now rewrite Hta.
      * intros Hobj. rewrite Hpa, (slot_key_text_frame m0 (slots st')).
        -- now apply Hkeys.
        -- intros q Hq. now rewrite Hsame.
      * apply NoDup_take, Hfree.
  - split; [assumption|]. split; [now rewrite Hfn'|]. split; [assumption|].
    split; [intros Hr; now rewrite Hroot', Hroot0|]. split.
    + intros q Hq Hqd. rewrite Hframe'; [now apply Hsl0|assumption|
        apply not_elem_of_nil|assumption].
    + intros q Hqd. destruct (Hlink' q Hqd) as [-> ->].
      split; [apply links_update_var|apply keys_update_var].
Qed.

End CopyLoop.

Section CopyTheorem.
Context `{VariantFlags} `{Platform} (layout : flags_layout).
Variable pool0 : list (Z * StringNode).
Hypothesis Hpool : pool_ok pool0.
Variable m0 : gmap Z VariantSlot.

Lemma owns_toArray (v : VariantData) : owns (toArray v) = owns v.
Proof. apply (owns_set_type layout). unfold kinds. in_list. Qed.

Lemma owns_toObject (v : VariantData) : owns (toObject v) = owns v.
Proof. apply (owns_set_type layout). unfold kinds. in_list. Qed.

Lemma copies_step (k : nat) : copies pool0 m0 k -> copies pool0 m0 (S k).
Proof.
  intros IHk a fa hsA Hdoc dst src st delta fuel vb Hsrc Hdst Hnull HdF Hagree
    Hs Hfree Hlen Hfuel.
  destruct (isCollection a) eqn:Hcol.
  - pose proof Hdoc as [Hkind Hd]. cbn [document] in Hd. rewrite Hcol in Hd.
    destruct Hd as (kids & Hc & Ht & Hkids & Hkeys & -> & -> & Hnd).
    destruct fuel as [|f]; [lia|].
    rewrite VariantData_copyFrom_S. cbv zeta.
    rewrite (release_null layout (S f) dst st vb Hdst Hnull), Hsrc.
    destruct (copy_kinds layout) as (Hao & _).
    pose proof Hcol as Hcol'.
    rewrite (isCollection_kind layout a Hkind) in Hcol'.
    destruct (Z.eqb_spec (type a) VALUE_IS_ARRAY) as [Hta|Hta].
    + (* an array *)
      destruct (collection_copied layout pool0 Hpool m0 ArrayData_copyFrom
                  (type a) k IHk) with (to := toArray) (a := a) (kids := kids)
                  (dst := dst) (st := st) (delta := delta) (f := f) (vb := vb)
        as (st' & vb' & hsB & Hloop & Hvb' & Howns & Hcp & Hs' & Hkept);
        try assumption; try reflexivity.
      * intros f0 dst0 s sl st0 Hs0 Hsl Hk0. rewrite ArrayData_copyFrom_S.
        destruct (Z.eqb_spec s 0) as [|_]; [done|].
        unfold appended_slot. rewrite Hk0 by congruence. reflexivity.
      * intros v. rewrite Hta. apply (type_toArray layout).
      * apply owns_toArray.
      * lia.
      * exists st', vb', hsB. split; [assumption|]. split; [assumption|].
        split; [now left|]. done.
    + (* an object *)
      assert (Hto : type a = VALUE_IS_OBJECT).
      { apply orb_true_iff in Hcol' as [Ho|Ha].
        - now apply bool_decide_eq_true in Ho.
        - now apply bool_decide_eq_true in Ha. }
      rewrite Hto, Z.eqb_refl.
      destruct (collection_copied layout pool0 Hpool m0 collectionCopy
                  (type a) k IHk) with (to := toObject) (a := a) (kids := kids)
                  (dst := dst) (st := st) (delta := delta) (f := f) (vb := vb)
        as (st' & vb' & hsB & Hloop & Hvb' & Howns & Hcp & Hs' & Hkept);
        try assumption; try reflexivity.
      * intros f0 dst0 s sl st0 Hs0 Hsl Hk0. rewrite collectionCopy_S.
        destruct (Z.eqb_spec s 0) as [|_]; [done|]. now rewrite Hsl.
      * intros v. rewrite Hto. apply (type_toObject layout).
      * apply owns_toObject.
      * lia.
      * exists st', vb', hsB. split; [assumption|]. split; [assumption|].
        split; [now left|]. done.
  - destruct (copies_leaf layout pool0 Hpool m0 (S k) a fa hsA Hdoc Hcol dst src
                st delta fuel vb Hsrc Hdst Hnull Hs Hfree)
      as (-> & st' & vb' & hsB & R); [lia|].
    exists st', vb', hsB. exact R.
Qed.

Lemma copies_all (k : nat) : copies pool0 m0 k.
Proof.
  induction k as [|k IH]; [|now apply copies_step].
  intros a fa hsA Hdoc dst src st delta fuel vb Hsrc Hdst Hnull HdF Hagree
    Hs Hfree Hlen Hfuel.
  destruct (isCollection a) eqn:Hcol.
  - destruct Hdoc as [_ Hd]. cbn [document] in Hd. now rewrite Hcol in Hd.
  - destruct (copies_leaf layout pool0 Hpool m0 0 a fa hsA Hdoc Hcol dst src
                st delta fuel vb Hsrc Hdst Hnull Hs Hfree)
      as (-> & st' & vb' & hsB & R); [lia|].
    exists st', vb', hsB. exact R.
Qed.

End CopyTheorem.

(** ** A copy compares equal to its source *)

Lemma length_heads {A : Type} (h : A -> Z) (t : A -> list Z) (l : list A) :
  (length l <= length (concat ((fun x => h x :: t x) <$> l)))%nat.
Proof.
  induction l as [|x l IH]; [reflexivity|].
  rewrite fmap_cons. cbn [concat]. rewrite length_app. cbn [length]. lia.
Qed.

Lemma length_tails {A : Type} (h : A -> Z) (t : A -> list Z) (x : A)
    (l : list A) :
  x ∈ l ->
  (length (t x) < length (concat ((fun x => h x :: t x) <$> l)))%nat.
Proof.
  induction l as [|y l IH]; intros Hx; [now apply elem_of_nil in Hx|].
  rewrite fmap_cons. cbn [concat]. rewrite length_app. cbn [length].
  apply elem_of_cons in Hx as [->|Hx]; [lia|]. specialize (IH Hx). lia.
Qed.

Section CopyCompare.
Context `{VariantFlags} `{Platform} (layout : flags_layout).
Variable pool : list (Z * StringNode).

(** Element by element, two chains of equal elements are equal arrays. *)
Lemma arrayEquals_pairs
    (compare : State -> VariantRef -> VariantRef -> CompareResult)
    (st : State) (ps : list Pair) :
  forall fuel ha hb,
  chain (slots st) hb (pair_b <$> ps) ->
  chain (slots st) ha (pair_a <$> ps) ->
  Forall (fun pr => compare st (SlotVar (pair_b pr)) (SlotVar (pair_a pr))
                    = COMPARE_RESULT_EQUAL) ps ->
  (length ps < fuel)%nat ->
  arrayEquals_loop compare fuel st hb ha = true.
Proof.
  induction ps as [|pr ps IH]; intros fuel ha hb Hb Ha Hall Hf.
  - inversion Ha; inversion Hb; subst. destruct fuel; [lia|]. reflexivity.
  - cbn [fmap list_fmap] in Ha, Hb.
    inversion Ha as [|pa sa la Ha0 Hsa Ha']; subst.
    inversion Hb as [|pb sb lb Hb0 Hsb Hb']; subst.
    apply Forall_cons in Hall as [Heq Hall].
    destruct fuel as [|f]; [cbn in Hf; lia|]. cbn [arrayEquals_loop].
    destruct (Z.eqb_spec (pair_b pr) 0) as [|_]; [done|].
    destruct (Z.eqb_spec (pair_a pr) 0) as [|_]; [done|].
    cbn [andb orb]. rewrite Heq, Hsa, Hsb. cbn [is_equal negb].
    apply IH; try assumption. cbn in Hf. lia.
Qed.

Section Leaf.
Variables (n f : nat) (st : State) (a b : VariantData) (ra rb : VariantRef).
Hypothesis Htext : forall q, text_at st q = text_in pool q.
Hypothesis Hra : get_var ra st = Some a.
Hypothesis Hrb : get_var rb st = Some b.

Lemma leaf_compares_equal (k : nat) (fa fb hs : list Z) :
  copy_of k (slots st) pool a b fa fb hs -> isCollection a = false ->
  variantCompare n (S f) st rb ra = COMPARE_RESULT_EQUAL.
Proof.
  intros Hcp Hcol.
  assert (Hleaf : type a ∈ kinds /\ type b = type a /\
    (if is_owned_kind (type a)
     then exists nb,
            content_ b = asOwnedString nb /\ nb ∈ fst <$> pool /\ hs = [nb] /\
            text_in pool (nb + DATA_OFFSET)
            = text_in pool (content_asOwnedString (content_ a) + DATA_OFFSET)
     else content_ b = content_ a /\ hs = []) /\
    (type a = VALUE_IS_FLOAT ->
     PrimFloat.eqb (content_asFloat (content_ a)) (content_asFloat (content_ a))
     = true)).
  { destruct k; destruct Hcp as (Hk & Hty & Hd); cbn in Hd; rewrite Hcol in Hd;
      tauto. }
  destruct Hleaf as (Hkind & Hty & Hown & Hfloat).
  rewrite (isCollection_kind layout a Hkind) in Hcol.
  apply orb_false_elim in Hcol as [Hno Hna].
  apply bool_decide_eq_false in Hno, Hna.
  cbn [variantCompare]. rewrite Hrb, Hra. cbv zeta. rewrite Hty.
  unfold is_string_kind, is_integer_kind, numbers_equal, is_integer_kind,
    integer_value, string_text, raw_text, VariantData_asString,
    VariantData_asRawString.
  rewrite !Hty, !Htext.
  kinds_apart layout.
  unfold is_owned_kind in Hown.
  destruct (Z.eqb_spec (type a) VALUE_IS_OWNED_STRING) as [Hto|Hto];
    [|destruct (Z.eqb_spec (type a) VALUE_IS_RAW_STRING) as [Htr|Htr]];
    cbn [orb] in Hown.
  - destruct Hown as (nb & Hcb & _ & _ & Htx). rewrite Hto in *.
    switch_on. cbn [str_]. rewrite Hcb. cbn [content_asOwnedString].
    now rewrite Htx, String.eqb_refl.
  - destruct Hown as (nb & Hcb & _ & _ & Htx). rewrite Htr in *.
    switch_on. cbn [str_]. rewrite Hcb. cbn [content_asOwnedString].
    now rewrite Htx, String.eqb_refl.
  - destruct Hown as [Hcb _]. rewrite Hcb.
    unfold kinds in Hkind.
    repeat (apply elem_of_cons in Hkind as [Hk|Hkind]);
      try (now apply elem_of_nil in Hkind);
      try congruence;
      try (specialize (Hfloat Hk)); rewrite Hk in *; switch_on;
      cbn [str_ andb orb];
      rewrite ?Bool.eqb_reflx, ?String.eqb_refl, ?Hfloat; reflexivity.
Qed.

End Leaf.

Lemma key_text_slot (st : State) (x : Z) :
  (forall q, text_at st q = text_in pool q) ->
  key_text st x = slot_key_text (slots st) pool x.
Proof.
  intros Htext. unfold key_text, slot_key_text.
  destruct (slots st !! x); [apply Htext|reflexivity].
Qed.

(** The copy compares equal to its source, under the equality of the
    specification: [n] bounds the chains and [fuel] the nesting. *)
Lemma copy_compares_equal (n : nat) :
  forall k fuel, (k < fuel)%nat ->
  forall a b fa fb hs ra rb st,
    copy_of k (slots st) pool a b fa fb hs ->
    (forall q, text_at st q = text_in pool q) ->
    get_var ra st = Some a -> get_var rb st = Some b ->
    (length fa < n)%nat ->
    variantCompare n fuel st rb ra = COMPARE_RESULT_EQUAL.
Proof.
  induction k as [|k IH];
    intros fuel Hfuel a b fa fb hs ra rb st Hcp Htext Hra Hrb Hn;
    (destruct fuel as [|f]; [lia|]);
    destruct (isCollection a) eqn:Hcol;
    try (now apply (leaf_compares_equal n f st a b ra rb Htext Hra Hrb
                      _ fa fb hs Hcp Hcol)).
  - destruct Hcp as (_ & _ & Hd). cbn in Hd. now rewrite Hcol in Hd.
  - pose proof Hcp as (Hkind & Hty & Hd). cbn [copy_of] in Hd.
    rewrite Hcol in Hd.
    destruct Hd as (ps & Hca & Hcb & Htl & Hps & Hkeys & -> & -> & -> & Hnd).
    assert (Hkids : Forall (fun pr =>
              variantCompare n f st (SlotVar (pair_b pr)) (SlotVar (pair_a pr))
              = COMPARE_RESULT_EQUAL) ps).
    { rewrite Forall_forall in Hps |- *. intros pr Hpr.
      destruct (Hps pr Hpr) as (sa & sb & hk & hv & Hsa & Hsb & Hk & Htx & Hc
                                & Hh).
      apply (IH f ltac:(lia) (data sa) (data sb) (pair_fa pr) (pair_fb pr) hv);
        try assumption.
      - cbn. now rewrite Hsa.
      - cbn. now rewrite Hsb.
      - pose proof (length_tails pair_a pair_fa pr ps Hpr) as Hlt.
        unfold pair_all_a in Hn. lia. }
    pose proof (length_heads pair_a pair_fa ps) as Hlen.
    unfold pair_all_a in Hn.
    cbn [variantCompare]. rewrite Hrb, Hra. cbv zeta. rewrite Hty.
    rewrite (isCollection_kind layout a Hkind) in Hcol.
    destruct (copy_kinds layout) as (Hao & _).
    destruct (Z.eqb_spec (type a) VALUE_IS_ARRAY) as [Hta|Hta].
    + unfold arrayEquals.
      rewrite (arrayEquals_pairs _ st ps); try assumption; [reflexivity|lia].
    + assert (Hto : type a = VALUE_IS_OBJECT).
      { apply orb_true_iff in Hcol as [Ho|Ha].
        - now apply bool_decide_eq_true in Ho.
        - now apply bool_decide_eq_true in Ha. }
      rewrite Hto, Z.eqb_refl. unfold objectEquals.
      rewrite (objectEquals_loop_chain _ st _ _ (pair_b <$> ps) (pair_a <$> ps));
        try assumption; try (rewrite length_fmap; lia).
      rewrite !length_fmap, Z.add_0_l, Z.eqb_refl, andb_true_r.
      cbn [andb].
      assert (Hall : forallb
                (member_matches (variantCompare n f) st (pair_a <$> ps))
                (pair_b <$> ps) = true).
      { apply forallb_forall. intros x Hx. apply list_elem_of_In in Hx.
        apply list_elem_of_fmap in Hx as (pr & -> & Hpr).
        rewrite Forall_forall in Hps, Hkids.
        destruct (Hps pr Hpr) as (sa & sb & hk & hv & Hsa & Hsb & Hk & Htx & Hc
                                  & Hh).
        unfold member_matches. rewrite Hsb.
        unfold key_ok in Hk. rewrite Hto, Z.eqb_refl in Hk.
        destruct Hk as [Hk0 _].
        destruct (Z.eqb_spec (key_ sb) 0) as [|_]; [done|]. cbn [negb andb].
        replace (text_at st (key_ sb)) with (key_text st (pair_a pr)).
        2:{ unfold key_text. rewrite Hsa. now rewrite !Htext. }
        rewrite first_match_unique.
        - now rewrite (Hkids pr Hpr).
        - replace (key_text st <$> (pair_a <$> ps))
            with (slot_key_text (slots st) pool <$> (pair_a <$> ps)).
          + now apply Hkeys.
          + apply list_fmap_ext. intros i x _. symmetry.
            now apply key_text_slot.
        - apply list_elem_of_fmap. now exists pr.
        - now rewrite Hsa. }
      now rewrite Hall.
Qed.

End CopyCompare.

(** ** The copy is a document of its own *)

Section CopyIsDocument.
Context `{VariantFlags} `{Platform} (layout : flags_layout).
Variable pool : list (Z * StringNode).
Variable m : gmap Z VariantSlot.

Definition kid_of (pr : Pair) : Kid :=
  mkKid (pair_b pr) (pair_fb pr) (pair_hs pr).

Lemma copy_is_document (k : nat) :
  forall a b fa fb hs,
  copy_of k m pool a b fa fb hs -> document k m pool b fb hs.
Proof.
  induction k as [|k IH]; intros a b fa fb hs (Hkind & Hty & Hd);
    (split; [now rewrite Hty|]);
    assert (Hcolb : isCollection b = isCollection a)
      by (rewrite !(isCollection_kind layout) by (now rewrite ?Hty);
          now rewrite Hty);
    cbn [copy_of] in Hd; cbn [document]; rewrite Hcolb;
    destruct (isCollection a) eqn:Hcol; try contradiction.
  1,3: destruct Hd as (_ & -> & Hown & Hfloat); rewrite Hty;
    (split; [reflexivity|]); (split;
    [destruct (is_owned_kind (type a));
      [destruct Hown as (nb & Hc & Hin & -> & _); now exists nb|tauto]|]);
    intros Hfl; unfold is_owned_kind in Hown; rewrite Hfl in Hown;
    pose proof (kinds_differ layout 4 6 _ _ eq_refl eq_refl ltac:(lia));
    pose proof (kinds_differ layout 4 7 _ _ eq_refl eq_refl ltac:(lia));
    destruct (Z.eqb_spec VALUE_IS_FLOAT VALUE_IS_OWNED_STRING); [done|];
    destruct (Z.eqb_spec VALUE_IS_FLOAT VALUE_IS_RAW_STRING); [done|];
    cbn [orb] in Hown; destruct Hown as [-> _]; now apply Hfloat.
  destruct Hd as (ps & Hca & Hcb & Htl & Hps & Hkeys & -> & -> & -> & Hnd).
  exists (kid_of <$> ps).
  assert (Hslots : kid_slot <$> (kid_of <$> ps) = pair_b <$> ps).
  { rewrite <- list_fmap_compose. reflexivity. }
  assert (Hall : kid_all <$> (kid_of <$> ps) = pair_all_b <$> ps).
  { rewrite <- list_fmap_compose. reflexivity. }
  assert (Hhs : kid_hs <$> (kid_of <$> ps) = pair_hs <$> ps).
  { rewrite <- list_fmap_compose. reflexivity. }
  rewrite Hslots, Hall, Hhs.
  split; [assumption|]. split; [assumption|].
  split; [|split; [|done]].
  - apply Forall_fmap. rewrite Forall_forall in Hps |- *. intros pr Hpr.
    destruct (Hps pr Hpr) as (sa & sb & hk & hv & Hsa & Hsb & Hk & Htx & Hc & Hh).
    exists sb, hk, hv. cbn [kid_of kid_slot kid_fp kid_hs compose].
    split; [assumption|]. split; [now rewrite Hty|].
    split; [now apply (IH _ _ _ _ _ Hc)|assumption].
  - intros Hobj. rewrite Hty in Hobj.
    replace (slot_key_text m pool <$> (pair_b <$> ps))
      with (slot_key_text m pool <$> (pair_a <$> ps)); [now apply Hkeys|].
    rewrite <- !list_fmap_compose. apply Forall_fmap_ext_1.
    rewrite Forall_forall in Hps |- *. intros pr Hpr.
    destruct (Hps pr Hpr) as (sa & sb & hk & hv & Hsa & Hsb & Hk & Htx & Hc & Hh).
    cbn [compose]. unfold slot_key_text. now rewrite Hsa, Hsb.
Qed.

End CopyIsDocument.

(** ** Releasing a document

    [release] gives back one reference for each owned string and key of
    the document and touches the cells of its own slots only.  As long as
    every node keeps a reference of its own, no node is freed. *)
Section ReleaseDocument.
Context `{VariantFlags} `{Platform} (layout : flags_layout).
Variable pool0 : list (Z * StringNode).
Hypothesis Hpool : pool_ok pool0.
Variable m0 : gmap Z VariantSlot.

Lemma minus_single (n : Z) (delta : Z -> Z) (m : Z) :
  minus [n] delta m = minus_one n delta m.
Proof.
  unfold minus, minus_one, count. cbn [count_occ].
  destruct (Z.eq_dec n m) as [->|Hne].
  - now rewrite Z.eqb_refl.
  - destruct (Z.eqb_spec m n); [congruence|reflexivity].
Qed.

Lemma count_single (n m : Z) : count m [n] = if Z.eq_dec n m then 1 else 0.
Proof. unfold count. cbn [count_occ]. now destruct (Z.eq_dec n m). Qed.

Lemma count_nonneg (n : Z) (hs : list Z) : 0 <= count n hs.
Proof. unfold count. lia. Qed.

Lemma count_app (n : Z) (h1 h2 : list Z) :
  count n (h1 ++ h2) = count n h1 + count n h2.
Proof. unfold count. rewrite count_occ_app. lia. Qed.

(** One reference of a node of the pool given back. *)
Lemma dereference_node (nd : Z) (st : State) (delta : Z -> Z) :
  strings st = shift_refs delta pool0 -> nd ∈ fst <$> pool0 ->
  1 <= delta nd ->
  dereferenceString (nd + DATA_OFFSET) st
  = set_strings (shift_refs (minus [nd] delta) pool0) st.
Proof.
  intros Hs Hnd Hd. unfold dereferenceString. rewrite Hs.
  rewrite drop_reference_shift.
  - unfold set_strings. cbn [app]. f_equal.
    apply shift_refs_ext. intros m. symmetry. apply minus_single.
  - apply Hpool.
  - intros e He Hfst. destruct Hpool as [_ Hall].
    rewrite Forall_forall in Hall. destruct (Hall e He) as (_ & _ & Hr). lia.
Qed.

Definition releases (k : nat) : Prop :=
  forall v fp hs, document k m0 pool0 v fp hs ->
  forall this st delta fuel,
    get_var this st = Some v ->
    (forall q, q ∈ fp -> this <> SlotVar q) ->
    (forall q, q ∈ fp -> slots st !! q = m0 !! q) ->
    strings st = shift_refs delta pool0 ->
    (forall n, count n hs <= delta n) ->
    (3 * length fp + 1 <= fuel)%nat ->
    strings (release fuel this st) = shift_refs (minus hs delta) pool0 /\
    free_nodes (release fuel this st) = free_nodes st /\
    free_slots (release fuel this st) = free_slots st /\
    root (release fuel this st) = root st /\
    (forall q, q ∉ fp -> slots (release fuel this st) !! q = slots st !! q) /\
    (forall q, next_ <$> slots (release fuel this st) !! q
               = next_ <$> slots st !! q).

Lemma releases_leaf (k : nat) (v : VariantData) (fp hs : list Z) :
  document k m0 pool0 v fp hs -> isCollection v = false ->
  forall this st delta fuel,
    get_var this st = Some v ->
    strings st = shift_refs delta pool0 ->
    (forall n, count n hs <= delta n) ->
    (1 <= fuel)%nat ->
    fp = [] /\
    strings (release fuel this st) = shift_refs (minus hs delta) pool0 /\
    free_nodes (release fuel this st) = free_nodes st /\
    free_slots (release fuel this st) = free_slots st /\
    root (release fuel this st) = root st /\
    slots (release fuel this st) = slots st.
Proof.
  intros Hdoc Hcol this st delta fuel Hv Hs Hcount Hfuel.
  assert (Hleaf : type v ∈ kinds /\ fp = [] /\
    (if is_owned_kind (type v)
     then exists nd, content_ v = asOwnedString nd /\ nd ∈ fst <$> pool0 /\
                     hs = [nd]
     else hs = [])).
  { destruct k; destruct Hdoc as [Hk Hd]; cbn in Hd; rewrite Hcol in Hd;
      tauto. }
  destruct Hleaf as (Hkind & -> & Hown). split; [reflexivity|].
  destruct fuel as [|f]; [lia|]. rewrite release_S, Hv. cbv zeta.
  rewrite Hcol, (owned_value_kind layout v Hkind).
  unfold is_owned_kind in Hown.
  destruct (Z.eqb_spec (type v) VALUE_IS_OWNED_STRING) as [Hto|Hto];
    [|destruct (Z.eqb_spec (type v) VALUE_IS_RAW_STRING) as [Htr|Htr]];
    cbn [orb] in Hown;
    rewrite ?(bool_decide_eq_true_2 _ Hto), ?(bool_decide_eq_false_2 _ Hto),
      ?(bool_decide_eq_true_2 _ Htr), ?(bool_decide_eq_false_2 _ Htr);
    cbn [orb].
  - destruct Hown as (nd & Hc & Hnd & ->). rewrite Hc.
    cbn [content_asOwnedString].
    rewrite (dereference_node nd st delta Hs Hnd).
    + done.
    + specialize (Hcount nd). rewrite count_single in Hcount.
      now destruct (Z.eq_dec nd nd).
  - destruct Hown as (nd & Hc & Hnd & ->). rewrite Hc.
    cbn [content_asOwnedString].
    rewrite (dereference_node nd st delta Hs Hnd).
    + done.
    + specialize (Hcount nd). rewrite count_single in Hcount.
      now destruct (Z.eq_dec nd nd).
  - subst hs. split; [|done]. rewrite Hs. apply shift_refs_ext.
    intros m. unfold minus, count. cbn. lia.
Qed.

Section ReleaseLoop.
Variable k : nat.
Variable t : Z.
Hypothesis IHk : releases k.

Lemma release_loop_kids (kids : list Kid) :
  forall p st delta fuel,
    chain m0 p (kid_slot <$> kids) ->
    Forall (kid_facts pool0 m0 t k) kids ->
    NoDup (concat (kid_all <$> kids)) ->
    (forall q, q ∈ concat (kid_all <$> kids) -> slots st !! q = m0 !! q) ->
    strings st = shift_refs delta pool0 ->
    (forall n, count n (concat (kid_hs <$> kids)) <= delta n) ->
    (3 * length (concat (kid_all <$> kids)) <= fuel)%nat ->
    strings (release_loop fuel p st)
    = shift_refs (minus (concat (kid_hs <$> kids)) delta) pool0 /\
    free_nodes (release_loop fuel p st) = free_nodes st /\
    free_slots (release_loop fuel p st) = free_slots st /\
    root (release_loop fuel p st) = root st /\
    (forall q, q ∉ concat (kid_all <$> kids) ->
       slots (release_loop fuel p st) !! q = slots st !! q) /\
    (forall q, next_ <$> slots (release_loop fuel p st) !! q
               = next_ <$> slots st !! q).
Proof.
  induction kids as [|kid rest IH];
    intros p st delta fuel Hc Hkids Hnd Hagree Hs Hcount Hfuel.
  - inversion Hc; subst.
    assert (Hrl : release_loop fuel 0 st = st) by (now destruct fuel).
    rewrite Hrl. cbn [fmap list_fmap concat]. split; [|done].
    rewrite Hs. apply shift_refs_ext. intros m. unfold minus, count. cbn. lia.
  - cbn [fmap list_fmap] in Hc.
    inversion Hc as [|p' s l' Hp0 Hms Hc']; subst p' l'. subst p.
    apply Forall_cons in Hkids as [Hkid Hrest].
    destruct Hkid as (s' & hk & hv & Hms' & Hkey & Hdoc & Hhs).
    rewrite Hms in Hms'. injection Hms' as <-.
    set (p := kid_slot kid) in *. set (F1 := kid_fp kid) in *.
    set (Fr := concat (kid_all <$> rest)) in *.
    change (concat (kid_all <$> kid :: rest)) with ((p :: F1) ++ Fr) in *.
    change (concat (kid_hs <$> kid :: rest))
      with (kid_hs kid ++ concat (kid_hs <$> rest)) in *.
    rewrite Hhs in *. set (hr := concat (kid_hs <$> rest)) in *.
    rewrite length_app in Hfuel. cbn [length] in Hfuel.
    cbn [app] in Hnd. apply NoDup_cons in Hnd as [Hp Hnd].
    apply not_elem_of_app in Hp as [Hp1 Hpr].
    apply NoDup_app in Hnd as (Hnd1 & Hdis & Hndr).
    assert (HpF : p ∈ (p :: F1) ++ Fr) by apply list_elem_of_here.
    assert (HF1 : forall q, q ∈ F1 -> q ∈ (p :: F1) ++ Fr).
    { intros q Hq. apply elem_of_app. left. now apply list_elem_of_further. }
    assert (HFr : forall q, q ∈ Fr -> q ∈ (p :: F1) ++ Fr).
    { intros q Hq. apply elem_of_app. now right. }
    assert (Hsp : slots st !! p = Some s) by (now rewrite (Hagree p HpF)).
    destruct fuel as [|g]; [lia|]. destruct g as [|h]; [lia|].
    rewrite release_loop_S.
    destruct (Z.eqb_spec p 0) as [|_]; [done|].
    rewrite slotRelease_S, Hsp.
    (* the key *)
    set (st1 := if ownsKey s then dereferenceString (key_ s) st else st).
    assert (H1 : strings st1 = shift_refs (minus hk delta) pool0 /\
                 slots st1 = slots st /\ root st1 = root st /\
                 free_nodes st1 = free_nodes st /\
                 free_slots st1 = free_slots st).
    { assert (Hnone : hk = [] -> strings st = shift_refs (minus hk delta) pool0).
      { intros ->. rewrite Hs. apply shift_refs_ext. intros m.
        unfold minus, count. cbn. lia. }
      subst st1. unfold key_ok in Hkey.
      destruct (t =? VALUE_IS_OBJECT).
      - destruct Hkey as [Hk0 Hown]. destruct (ownsKey s).
        + destruct Hown as (kn & Hkn & Hin & ->). rewrite Hkn.
          rewrite (dereference_node kn st delta Hs Hin); [done|].
          specialize (Hcount kn). rewrite !count_app, count_single in Hcount.
          pose proof (count_nonneg kn hv). pose proof (count_nonneg kn hr).
          destruct (Z.eq_dec kn kn); [lia|done].
        + split; [now apply Hnone|done].
      - destruct Hkey as (Hk0 & -> & Hhk). split; [now apply Hnone|done]. }
    destruct H1 as (Hs1 & Hsl1 & Hr1 & Hfn1 & Hfs1).
    (* the value *)
    destruct (IHk (data s) F1 hv Hdoc (SlotVar p) st1 (minus hk delta) h)
      as (Hs2 & Hfn2 & Hfs2 & Hr2 & Hframe2 & Hlink2).
    { cbn [get_var]. now rewrite Hsl1, Hsp. }
    { intros q Hq Heq. injection Heq as <-. contradiction. }
    { intros q Hq. rewrite Hsl1. now apply Hagree, HF1. }
    { assumption. }
    { intros n. specialize (Hcount n). rewrite !count_app in Hcount.
      pose proof (count_nonneg n hr). unfold minus. lia. }
    { lia. }
    set (st2 := release h (SlotVar p) st1) in *.
    set (st3 := update_var (SlotVar p) setNull st2).
    destruct (update_var_fields (SlotVar p) setNull st2) as (Hs3 & Hfs3 & Hfn3 & Hr3).
    fold st3 in Hs3, Hfs3, Hfn3, Hr3.
    assert (Hlink3 : forall q, next_ <$> slots st3 !! q = next_ <$> slots st !! q).
    { intros q. unfold st3. now rewrite links_update_var, Hlink2, Hsl1. }
    pose proof (Hlink3 p) as Hnp. rewrite Hsp in Hnp.
    destruct (slots st3 !! p) as [s3|] eqn:Hs3p; [|discriminate].
    cbn in Hnp. injection Hnp as Hnp.
    replace (slot_next p s3) with (slot_next p s)
      by (unfold slot_next; now rewrite Hnp).
    (* the other slots *)
    destruct (IH (slot_next p s) st3 (minus hv (minus hk delta)) (S h))
      as (Hs' & Hfn' & Hfs' & Hr' & Hframe' & Hlink'); try assumption.
    { intros q Hq. unfold st3. rewrite slots_update_var_ne.
      - rewrite Hframe2, Hsl1; [now apply Hagree, HFr|].
        intros Hin. now apply (Hdis q Hin).
      - intros Heq. injection Heq as <-. contradiction. }
    { now rewrite Hs3. }
    { intros n. specialize (Hcount n). rewrite !count_app in Hcount.
      unfold minus. lia. }
    { fold Fr. lia. }
    fold Fr in Hframe'. fold hr in Hs'.
    split; [|split; [|split; [|split; [|split]]]].
    + rewrite Hs'. apply shift_refs_ext. intros m. unfold minus.
      rewrite !count_app. lia.
    + now rewrite Hfn', Hfn3, Hfn2.
    + now rewrite Hfs', Hfs3, Hfs2.
    + rewrite Hr', Hr3 by done. now rewrite Hr2.
    + intros q Hq. apply not_elem_of_app in Hq as [Hq1 Hq2].
      apply not_elem_of_cons in Hq1 as [Hqp Hq1].
      rewrite Hframe' by assumption. unfold st3.
      rewrite slots_update_var_ne by congruence.
      now rewrite Hframe2, Hsl1.
    + intros q. now rewrite Hlink', Hlink3.
Qed.

End ReleaseLoop.

Lemma releases_all (k : nat) : releases k.
Proof.
  induction k as [|k IH];
    intros v fp hs Hdoc this st delta fuel Hv Hthis Hagree Hs Hcount Hfuel;
    destruct (isCollection v) eqn:Hcol;
    try (destruct (releases_leaf _ v fp hs Hdoc Hcol this st delta fuel Hv Hs
                     Hcount ltac:(lia)) as (-> & R1 & R2 & R3 & R4 & R5);
         rewrite R5; done).
  - destruct Hdoc as [_ Hd]. cbn [document] in Hd. now rewrite Hcol in Hd.
  - pose proof Hdoc as [Hkind Hd]. cbn [document] in Hd. rewrite Hcol in Hd.
    destruct Hd as (kids & Hc & Ht & Hkids & Hkeys & -> & -> & Hnd).
    destruct fuel as [|f]; [lia|]. rewrite release_S, Hv. cbv zeta.
    rewrite Hcol, (owned_value_kind layout v Hkind).
    pose proof Hcol as Hcol'.
    rewrite (isCollection_kind layout v Hkind) in Hcol'.
    destruct (copy_kinds layout) as (_ & Hao & Har & Hoo & Hor & _).
    assert (Hno : type v <> VALUE_IS_OWNED_STRING /\
                  type v <> VALUE_IS_RAW_STRING).
    { apply orb_true_iff in Hcol' as [Ho|Ha];
        [apply bool_decide_eq_true in Ho|apply bool_decide_eq_true in Ha];
        split; congruence. }
    destruct Hno as [Hno Hnr].
    rewrite !bool_decide_eq_false_2 by assumption. cbn [orb].
    apply (release_loop_kids k (type v) IH kids); try assumption. lia.
Qed.

End ReleaseDocument.

(** ** Deep copy: the theorem *)

Section DeepCopy.
Context `{VariantFlags} `{Platform} (layout : flags_layout).

Lemma plus_minus (hs : list Z) (l : list (Z * StringNode)) :
  shift_refs (minus hs (plus hs (fun _ => 0))) l = l.
Proof.
  rewrite <- (shift_refs_zero l) at 2. apply shift_refs_ext.
  intros n. unfold minus, plus. lia.
Qed.


End DeepCopy.

(** A document to copy: at slot 50 the object whose member [x] (a linked
    key) is the owned string [abc] and whose member [kk] (an owned key) is
    the array [[7]]; the root is a Null cell, four slots are free, and the
    pool holds the two texts with one reference each. *)
Definition copy_demo : State :=
  mkState (mkVariant (asUnsignedInteger 0) 0)
    (list_to_map
       [ (50, mkSlot (mkVariant (asCollection (mkCollection 200 216)) 0x20) 0 0);
         (200, mkSlot (mkVariant (asOwnedString 5000) 0x05) 16 3000);
         (216, mkSlot (mkVariant (asCollection (mkCollection 300 300)) 0xC0)
                 0 5108);
         (300, mkSlot (mkVariant (asUnsignedInteger 7) 0x08) 0 0) ])
    [400; 416; 432; 448]
    [ (5000, mkNode 1 "abc"); (5100, mkNode 1 "kk") ]
    [].

Lemma copy_demo_document :
  @document arduino_flags demo_platform 2 (slots copy_demo) (strings copy_demo)
    (mkVariant (asCollection (mkCollection 200 216)) 0x20)
    [200; 216; 300] [5000; 5100].
Proof.
  split; [decided|].
  exists [mkKid 200 [] [5000]; mkKid 216 [300] [5100]].
  split; [cbn [fmap list_fmap kid_slot head_ tail_ content_asCollection content_ data]; chain_steps|]. split; [reflexivity|].
  split; [|split; [intros _; decided|split; [reflexivity|split;
    [reflexivity|decided]]]].
  constructor; [|constructor; [|constructor]].
  - eexists _, [], [5000]. split; [vm_compute; reflexivity|].
    split; [split; [discriminate|reflexivity]|]. split; [|reflexivity].
    split; [decided|]. split; [reflexivity|]. split; [|discriminate].
    exists 5000. split; [reflexivity|]. split; [decided|reflexivity].
  - eexists _, [5100], []. split; [vm_compute; reflexivity|].
    split; [split; [discriminate|]|].
    + exists 5100. split; [reflexivity|]. split; [decided|reflexivity].
    + split; [|reflexivity]. split; [decided|].
      exists [mkKid 300 [] []].
      split; [cbn [fmap list_fmap kid_slot head_ tail_ content_asCollection content_ data]; chain_steps|]. split; [reflexivity|].
      split; [|split; [discriminate|split; [reflexivity|split;
        [reflexivity|decided]]]].
      constructor; [|constructor].
      eexists _, [], []. split; [vm_compute; reflexivity|].
      split; [done|]. split; [|reflexivity].
      split; [decided|]. split; [reflexivity|]. split; [reflexivity|discriminate].
Qed.


(** Without distinct keys the copy does not compare equal: the object
    with the two members [k:1] and [k:2] is copied member by member, and
    the lookup of the second [k] finds the first. *)
Definition duplicate_keys : State :=
  mkState (mkVariant (asUnsignedInteger 0) 0)
    (list_to_map
       [ (50, mkSlot (mkVariant (asCollection (mkCollection 200 216)) 0x20) 0 0);
         (200, mkSlot (mkVariant (asUnsignedInteger 1) 0x08) 16 3000);
         (216, mkSlot (mkVariant (asUnsignedInteger 2) 0x08) 0 3000) ])
    [400; 416; 432; 448] [] [].


(** ** The owned-key bit *)

Section KeyBit.
Context `{VariantFlags} `{Platform} (layout : flags_layout).


End KeyBit.


(** The owned-key bit is not invariant under every value mutation.  Slot
    100 holds the boolean member of an owned key (flags [0x86]), slot 200
    a Null element without a key, slot 300 a Null member of an owned key
    (flags [0x80]) and slot 400 a boolean without a key.  [copyFrom] from
    100 into 200 sets the owned-key bit of 200, which has no key;
    [copyFrom] from 400 into 300 clears the bit of 300, whose key is
    still there; and [reset] clears the bit of the cell of 100. *)
Definition key_bits : State :=
  mkState (mkVariant (asUnsignedInteger 0) 0)
    (list_to_map
       [ (100, mkSlot (mkVariant (asBoolean true) 0x86) 0 5008);
         (200, mkSlot (mkVariant (asUnsignedInteger 0) 0) 0 0);
         (300, mkSlot (mkVariant (asUnsignedInteger 0) 0x80) 0 5108);
         (400, mkSlot (mkVariant (asBoolean true) 0x06) 0 0) ])
    []
    [ (5000, mkNode 1 "k"); (5100, mkNode 1 "q") ]
    [].


(** ** What a release gives back

    [release] gives one reference back for each owned string and each
    owned key of the document, in the order of the document, and leaves
    every slot of the document Null. *)
Section ReleaseTrace.
Context `{VariantFlags} `{Platform} (layout : flags_layout).
Variable pool : list (Z * StringNode).
Variable m0 : gmap Z VariantSlot.

(** The pool and the free nodes, after the reference held through the
    character pointer [q] is given back. *)
Definition pool_release (pf : list (Z * StringNode) * list Z) (q : Z)
    : list (Z * StringNode) * list Z :=
  let '(l, freed) := drop_reference q (fst pf) in (l, freed ++ snd pf).

Definition given_back (hs : list Z) (pf : list (Z * StringNode) * list Z)
    : list (Z * StringNode) * list Z :=
  fold_left pool_release ((fun n => n + DATA_OFFSET) <$> hs) pf.

Definition pool_of (st : State) : list (Z * StringNode) * list Z :=
  (strings st, free_nodes st).

Lemma pool_of_dereference (q : Z) (st : State) :
  pool_of (dereferenceString q st) = pool_release (pool_of st) q.
Proof.
  unfold pool_of, dereferenceString, pool_release. cbn [fst snd].
  now destruct (drop_reference q (strings st)).
Qed.

Lemma free_slots_dereferenceString (q : Z) (st : State) :
  free_slots (dereferenceString q st) = free_slots st.
Proof. unfold dereferenceString. now destruct (drop_reference q (strings st)). Qed.

Lemma given_back_app (h1 h2 : list Z) (pf : list (Z * StringNode) * list Z) :
  given_back (h1 ++ h2) pf = given_back h2 (given_back h1 pf).
Proof. unfold given_back. now rewrite fmap_app, fold_left_app. Qed.

Definition null_at (st : State) (q : Z) : Prop :=
  exists s, slots st !! q = Some s /\ type (data s) = VALUE_IS_NULL.

Definition release_trace (k : nat) : Prop :=
  forall v fp hs, document k m0 pool v fp hs ->
  forall this st fuel,
    get_var this st = Some v ->
    (forall q, q ∈ fp -> this <> SlotVar q) ->
    (forall q, q ∈ fp -> slots st !! q = m0 !! q) ->
    (3 * length fp + 1 <= fuel)%nat ->
    pool_of (release fuel this st) = given_back hs (pool_of st) /\
    free_slots (release fuel this st) = free_slots st /\
    root (release fuel this st) = root st /\
    (forall q, q ∉ fp -> slots (release fuel this st) !! q = slots st !! q) /\
    (forall q, next_ <$> slots (release fuel this st) !! q
               = next_ <$> slots st !! q) /\
    (forall q, q ∈ fp -> null_at (release fuel this st) q).

Lemma trace_leaf (k : nat) (v : VariantData) (fp hs : list Z) :
  document k m0 pool v fp hs -> isCollection v = false ->
  forall this st fuel,
    get_var this st = Some v ->
    (1 <= fuel)%nat ->
    fp = [] /\
    pool_of (release fuel this st) = given_back hs (pool_of st) /\
    free_slots (release fuel this st) = free_slots st /\
    root (release fuel this st) = root st /\
    slots (release fuel this st) = slots st.
Proof.
  intros Hdoc Hcol this st fuel Hv Hfuel.
  assert (Hleaf : type v ∈ kinds /\ fp = [] /\
    (if is_owned_kind (type v)
     then exists nd, content_ v = asOwnedString nd /\ nd ∈ fst <$> pool /\
                     hs = [nd]
     else hs = [])).
  { destruct k; destruct Hdoc as [Hk Hd]; cbn in Hd; rewrite Hcol in Hd;
      tauto. }
  destruct Hleaf as (Hkind & -> & Hown). split; [reflexivity|].
  destruct fuel as [|f]; [lia|]. rewrite release_S, Hv. cbv zeta.
  rewrite Hcol, (owned_value_kind layout v Hkind).
  unfold is_owned_kind in Hown.
  destruct (Z.eqb_spec (type v) VALUE_IS_OWNED_STRING) as [Hto|Hto];
    [|destruct (Z.eqb_spec (type v) VALUE_IS_RAW_STRING) as [Htr|Htr]];
    cbn [orb] in Hown;
    rewrite ?(bool_decide_eq_true_2 _ Hto), ?(bool_decide_eq_false_2 _ Hto),
      ?(bool_decide_eq_true_2 _ Htr), ?(bool_decide_eq_false_2 _ Htr);
    cbn [orb negb].
  - destruct Hown as (nd & Hc & Hnd & ->). rewrite Hc.
    cbn [content_asOwnedString].
    rewrite pool_of_dereference, free_slots_dereferenceString,
      root_dereferenceString, slots_dereferenceString. done.
  - destruct Hown as (nd & Hc & Hnd & ->). rewrite Hc.
    cbn [content_asOwnedString].
    rewrite pool_of_dereference, free_slots_dereferenceString,
      root_dereferenceString, slots_dereferenceString. done.
  - subst hs. done.
Qed.

Section TraceLoop.
Variable k : nat.
Variable t : Z.
Hypothesis IHk : release_trace k.

Lemma trace_loop (kids : list Kid) :
  forall p st fuel,
    chain m0 p (kid_slot <$> kids) ->
    Forall (kid_facts pool m0 t k) kids ->
    NoDup (concat (kid_all <$> kids)) ->
    (forall q, q ∈ concat (kid_all <$> kids) -> slots st !! q = m0 !! q) ->
    (3 * length (concat (kid_all <$> kids)) <= fuel)%nat ->
    pool_of (release_loop fuel p st)
    = given_back (concat (kid_hs <$> kids)) (pool_of st) /\
    free_slots (release_loop fuel p st) = free_slots st /\
    root (release_loop fuel p st) = root st /\
    (forall q, q ∉ concat (kid_all <$> kids) ->
       slots (release_loop fuel p st) !! q = slots st !! q) /\
    (forall q, next_ <$> slots (release_loop fuel p st) !! q
               = next_ <$> slots st !! q) /\
    (forall q, q ∈ concat (kid_all <$> kids) ->
       null_at (release_loop fuel p st) q).
Proof.
  induction kids as [|kid rest IH];
    intros p st fuel Hc Hkids Hnd Hagree Hfuel.
  - inversion Hc; subst.
    assert (Hrl : release_loop fuel 0 st = st) by (now destruct fuel).
    rewrite Hrl. cbn [fmap list_fmap concat].
    split; [reflexivity|]. split; [reflexivity|]. split; [reflexivity|].
    split; [done|]. split; [done|]. intros q Hq. now apply elem_of_nil in Hq.
  - cbn [fmap list_fmap] in Hc.
    inversion Hc as [|p' s l' Hp0 Hms Hc']; subst p' l'. subst p.
    apply Forall_cons in Hkids as [Hkid Hrest].
    destruct Hkid as (s' & hk & hv & Hms' & Hkey & Hdoc & Hhs).
    rewrite Hms in Hms'. injection Hms' as <-.
    set (p := kid_slot kid) in *. set (F1 := kid_fp kid) in *.
    set (Fr := concat (kid_all <$> rest)) in *.
    change (concat (kid_all <$> kid :: rest)) with ((p :: F1) ++ Fr) in *.
    change (concat (kid_hs <$> kid :: rest))
      with (kid_hs kid ++ concat (kid_hs <$> rest)) in *.
    rewrite Hhs in *. set (hr := concat (kid_hs <$> rest)) in *.
    rewrite length_app in Hfuel. cbn [length] in Hfuel.
    cbn [app] in Hnd. apply NoDup_cons in Hnd as [Hp Hnd].
    apply not_elem_of_app in Hp as [Hp1 Hpr].
    apply NoDup_app in Hnd as (Hnd1 & Hdis & Hndr).
    assert (HpF : p ∈ (p :: F1) ++ Fr) by apply list_elem_of_here.
    assert (HF1 : forall q, q ∈ F1 -> q ∈ (p :: F1) ++ Fr).
    { intros q Hq. apply elem_of_app. left. now apply list_elem_of_further. }
    assert (HFr : forall q, q ∈ Fr -> q ∈ (p :: F1) ++ Fr).
    { intros q Hq. apply elem_of_app. now right. }
    assert (Hsp : slots st !! p = Some s) by (now rewrite (Hagree p HpF)).
    destruct fuel as [|g]; [lia|]. destruct g as [|h]; [lia|].
    rewrite release_loop_S.
    destruct (Z.eqb_spec p 0) as [|_]; [done|].
    rewrite slotRelease_S, Hsp.
    (* the key *)
    set (st1 := if ownsKey s then dereferenceString (key_ s) st else st).
    assert (H1 : pool_of st1 = given_back hk (pool_of st) /\
                 slots st1 = slots st /\ root st1 = root st /\
                 free_slots st1 = free_slots st).
    { subst st1. unfold key_ok in Hkey.
      destruct (t =? VALUE_IS_OBJECT).
      - destruct Hkey as [Hk0 Hown]. destruct (ownsKey s).
        + destruct Hown as (kn & Hkn & Hin & ->). rewrite Hkn.
          rewrite pool_of_dereference, free_slots_dereferenceString,
            root_dereferenceString, slots_dereferenceString. done.
        + subst hk. done.
      - destruct Hkey as (Hk0 & -> & ->). done. }
    destruct H1 as (Hs1 & Hsl1 & Hr1 & Hfs1).
    (* the value *)
    destruct (IHk (data s) F1 hv Hdoc (SlotVar p) st1 h)
      as (Hs2 & Hfs2 & Hr2 & Hframe2 & Hlink2 & Hnull2).
    { cbn [get_var]. now rewrite Hsl1, Hsp. }
    { intros q Hq Heq. injection Heq as <-. contradiction. }
    { intros q Hq. rewrite Hsl1. now apply Hagree, HF1. }
    { lia. }
    set (st2 := release h (SlotVar p) st1) in *.
    set (st3 := update_var (SlotVar p) setNull st2).
    destruct (update_var_fields (SlotVar p) setNull st2)
      as (Hs3 & Hfs3 & Hfn3 & Hr3).
    fold st3 in Hs3, Hfs3, Hfn3, Hr3.
    assert (Hp3 : pool_of st3 = pool_of st2)
      by (unfold pool_of; now rewrite Hs3, Hfn3).
    assert (Hlink3 : forall q, next_ <$> slots st3 !! q = next_ <$> slots st !! q).
    { intros q. unfold st3. now rewrite links_update_var, Hlink2, Hsl1. }
    assert (Hnp3 : null_at st3 p).
    { assert (Hg : get_var (SlotVar p) st3 = setNull <$> get_var (SlotVar p) st2)
        by apply get_var_update_var.
      cbn [get_var] in Hg. rewrite Hframe2, Hsl1, Hsp in Hg by assumption.
      cbn in Hg. destruct (slots st3 !! p) as [s3|] eqn:Hs3p; [|discriminate].
      injection Hg as Hg. exists s3. split; [exact Hs3p|]. rewrite Hg.
      apply (type_setType layout), null_is_kind. }
    pose proof (Hlink3 p) as Hnp. rewrite Hsp in Hnp.
    destruct (slots st3 !! p) as [s3|] eqn:Hs3p; [|discriminate].
    cbn in Hnp. injection Hnp as Hnp.
    replace (slot_next p s3) with (slot_next p s)
      by (unfold slot_next; now rewrite Hnp).
    (* the other slots *)
    destruct (IH (slot_next p s) st3 (S h))
      as (Hs' & Hfs' & Hr' & Hframe' & Hlink' & Hnull'); try assumption.
    { intros q Hq. unfold st3. rewrite slots_update_var_ne.
      - rewrite Hframe2, Hsl1; [now apply Hagree, HFr|].
        intros Hin. now apply (Hdis q Hin).
      - intros Heq. injection Heq as <-. contradiction. }
    { fold Fr. lia. }
    fold Fr in Hframe', Hnull'. fold hr in Hs'.
    split; [|split; [|split; [|split; [|split]]]].
    + rewrite Hs', Hp3, Hs2, Hs1. now rewrite !given_back_app.
    + now rewrite Hfs', Hfs3, Hfs2.
    + rewrite Hr', Hr3 by done. now rewrite Hr2.
    + intros q Hq. apply not_elem_of_app in Hq as [Hq1 Hq2].
      apply not_elem_of_cons in Hq1 as [Hqp Hq1].
      rewrite Hframe' by assumption. unfold st3.
      rewrite slots_update_var_ne by congruence.
      now rewrite Hframe2, Hsl1.
    + intros q. now rewrite Hlink', Hlink3.
    + intros q Hq. apply elem_of_app in Hq as [Hq|Hq]; [|now apply Hnull'].
      unfold null_at. rewrite Hframe'.
      * apply elem_of_cons in Hq as [->|Hq]; [exact Hnp3|].
        destruct (Hnull2 q Hq) as (s2 & Hs2q & Hty).
        exists s2. split; [|assumption]. unfold st3.
        rewrite slots_update_var_ne; [assumption|]. congruence.
      * apply elem_of_cons in Hq as [->|Hq]; [assumption|].
        intros Hin. now apply (Hdis q Hq).
Qed.

End TraceLoop.

Lemma release_trace_all (k : nat) : release_trace k.
Proof.
  induction k as [|k IH];
    intros v fp hs Hdoc this st fuel Hv Hthis Hagree Hfuel;
    destruct (isCollection v) eqn:Hcol;
    try (destruct (trace_leaf _ v fp hs Hdoc Hcol this st fuel Hv
                     ltac:(lia)) as (-> & R1 & R2 & R3 & R4);
         rewrite R4; split; [assumption|]; split; [assumption|];
         split; [assumption|]; split; [done|]; split; [done|];
         intros q Hq; now apply elem_of_nil in Hq).
  - destruct Hdoc as [_ Hd]. cbn [document] in Hd. now rewrite Hcol in Hd.
  - pose proof Hdoc as [Hkind Hd]. cbn [document] in Hd. rewrite Hcol in Hd.
    destruct Hd as (kids & Hc & Ht & Hkids & Hkeys & -> & -> & Hnd).
    destruct fuel as [|f]; [lia|]. rewrite release_S, Hv. cbv zeta.
    rewrite Hcol, (owned_value_kind layout v Hkind).
    pose proof Hcol as Hcol'.
    rewrite (isCollection_kind layout v Hkind) in Hcol'.
    destruct (copy_kinds layout) as (_ & Hao & Har & Hoo & Hor & _).
    assert (Hno : type v <> VALUE_IS_OWNED_STRING /\
                  type v <> VALUE_IS_RAW_STRING).
    { apply orb_true_iff in Hcol' as [Ho|Ha];
        [apply bool_decide_eq_true in Ho|apply bool_decide_eq_true in Ha];
        split; congruence. }
    destruct Hno as [Hno Hnr].
    rewrite !bool_decide_eq_false_2 by assumption. cbn [orb].
    apply (trace_loop k (type v) IH kids); try assumption. lia.
Qed.

End ReleaseTrace.

Section NullSource.
Context `{VariantFlags} `{Platform} (layout : flags_layout).

(** C9.  With a null source, [copyFrom] releases what the destination
    holds, leaves the destination Null and reports success.  A
    destination that owns a string has given one reference of it back.  A
    destination that holds a document, with enough fuel for its slots,
    has given back one reference for each owned string and each owned key
    of the document, in the order of the document; the destination is
    the cell it was, made Null by [setNull] (which keeps its owned-key
    bit), every slot of the document is left Null and the other slots are
    as before.  With a null destination, [variantCopyFrom] reports
    failure and changes nothing. *)
Theorem copyFrom_null_source (fuel : nat) (this : VariantRef)
    (v : VariantData) (st : State) :
  get_var this st = Some v ->
  type v ∈ kinds ->
  let r := VariantData_copyFrom (S fuel) this None st in
  fst r = true /\
  snd r = update_var this setNull (release (S fuel) this st) /\
  (exists v', get_var this (snd r) = Some v' /\ type v' = VALUE_IS_NULL) /\
  (type v = VALUE_IS_OWNED_STRING \/ type v = VALUE_IS_RAW_STRING ->
   strings (snd r)
   = fst (drop_reference (content_asOwnedString (content_ v) + DATA_OFFSET)
                         (strings st))) /\
  (forall k fp hs,
     document k (slots st) (strings st) v fp hs ->
     (forall q, q ∈ fp -> this <> SlotVar q) ->
     (3 * length fp <= fuel)%nat ->
     (strings (snd r), free_nodes (snd r))
     = given_back hs (strings st, free_nodes st) /\
     get_var this (snd r) = Some (setNull v) /\
     (forall q, q ∈ fp -> null_at (snd r) q) /\
     (forall q, q ∉ fp -> this <> SlotVar q ->
        slots (snd r) !! q = slots st !! q)) /\
  (forall n src, variantCopyFrom n None src st = (false, st)).
Proof.
  intros Hv Hk r. subst r. cbn [VariantData_copyFrom fst snd].
  split; [reflexivity|]. split; [reflexivity|].
  split; [|split; [|split]].
  - destruct (release_keeps_cell (S fuel) this this st) as [w Hw];
      [now rewrite Hv|].
    exists (setNull w). rewrite get_var_update_var, Hw. split; [reflexivity|].
    apply (type_setType layout). unfold kinds. in_list.
  - intros Hstr. kinds_apart layout.
    assert (Hcoll : isCollection v = false).
    { rewrite (isCollection_kind layout) by done.
      destruct Hstr as [Hs|Hs]; rewrite Hs;
        rewrite !bool_decide_eq_false_2 by congruence; reflexivity. }
    assert (Hown : negb (Z.land (flags_ v) OWNED_VALUE_BIT =? 0) = true).
    { rewrite (owned_value_kind layout) by done.
      destruct Hstr as [Hs|Hs]; rewrite Hs.
      - now rewrite bool_decide_eq_true_2.
      - rewrite (bool_decide_eq_true_2
                   (VALUE_IS_RAW_STRING = VALUE_IS_RAW_STRING)) by done.
        apply orb_true_r. }
    rewrite release_S, Hv. cbv zeta. rewrite Hcoll, Hown.
    unfold update_var.
    set (st1 := dereferenceString _ st).
    assert (Hs1 : strings st1
                  = fst (drop_reference
                           (content_asOwnedString (content_ v) + DATA_OFFSET)
                           (strings st))).
    { subst st1. unfold dereferenceString.
      now destruct (drop_reference _ (strings st)). }
    rewrite <- Hs1.
    destruct (get_var this st1) as [w|]; [|reflexivity].
    destruct this as [|p]; cbn; [reflexivity|].
    now destruct (slots st1 !! p).
  - intros k fp hs Hdoc Hthis Hfuel.
    destruct (release_trace_all layout (strings st) (slots st) k v fp hs
                Hdoc this st (S fuel) Hv Hthis ltac:(done) ltac:(lia))
      as (Hp & _ & Hr & Hframe & _ & Hnull).
    set (st1 := release (S fuel) this st) in *.
    destruct (update_var_fields this setNull st1) as (Hs2 & _ & Hfn2 & _).
    assert (Hv1 : get_var this st1 = Some v).
    { rewrite <- Hv. destruct this as [|p]; cbn [get_var].
      - now rewrite Hr.
      - rewrite Hframe; [reflexivity|]. intros Hin. now apply (Hthis p Hin). }
    split; [|split; [|split]].
    + rewrite Hs2, Hfn2. exact Hp.
    + rewrite get_var_update_var, Hv1. reflexivity.
    + intros q Hq. destruct (Hnull q Hq) as (s & Hs & Hty).
      exists s. split; [|assumption].
      rewrite slots_update_var_ne; [assumption|now apply Hthis].
    + intros q Hq Hqt. rewrite slots_update_var_ne by assumption.
      now apply Hframe.
  - reflexivity.
Qed.

End NullSource.

(** C9 at an array that holds the one reference to an interned text: the
    copy from a null source frees the node and leaves the root and the
    slot Null. *)
Definition array_of_text : State :=
  mkState (mkVariant (asCollection (mkCollection 100 100)) 0x40)
    (list_to_map [ (100, mkSlot (mkVariant (asOwnedString 5000) 0x05) 0 0) ])
    [] [ (5000, mkNode 1 "abc") ] [].

Lemma copyFrom_null_source_witness :
  let r := @VariantData_copyFrom arduino_flags demo_platform 4 RootVar None
             array_of_text in
  fst r = true /\ strings (snd r) = [] /\ free_nodes (snd r) = [5000].
Proof.
  intros r.
  destruct (@copyFrom_null_source arduino_flags demo_platform arduino_layout 3
              RootVar (root array_of_text) array_of_text eq_refl)
    as (W1 & _ & _ & _ & W & _); [decided|].
  destruct (W 1%nat [100] [5000]) as (Wp & _).
  - split; [decided|]. exists [mkKid 100 [] [5000]].
    split; [cbn [fmap list_fmap kid_slot head_ tail_ content_asCollection
                 content_ data root array_of_text]; chain_steps|].
    split; [reflexivity|].
    split; [|split; [discriminate|split; [reflexivity|split;
      [reflexivity|decided]]]].
    constructor; [|constructor].
    eexists _, [], [5000]. split; [vm_compute; reflexivity|].
    split; [done|]. split; [|reflexivity].
    split; [decided|]. split; [reflexivity|]. split; [|discriminate].
    exists 5000. split; [reflexivity|]. split; [decided|reflexivity].
  - intros q _. discriminate.
  - cbn. lia.
  - split; [exact W1|].
    split; [exact (f_equal fst Wp)|exact (f_equal snd Wp)].
Defined.

(** * Further properties of the code *)

(** ** [movePointers]: one pass *)

Section OnePass.
Context `{VariantFlags}.

(** After the pool has moved by [d], one call of [movePointers(d)] on the
    root makes the document a tree again, on the slots where they now
    are: every head and tail leads to the moved slots.  The strings, the
    keys and the links of the slots are not touched. *)
Theorem movePointers_follows_the_pool (n : nat) (st : State) (fp : list Z)
    (d : Z) (fuel : nat) :
  tree n (slots st) (root st) fp ->
  (forall p, p ∈ fp -> p + d <> 0) ->
  (4 * length fp + 3 <= fuel)%nat ->
  let st' := VariantData_movePointers fuel d RootVar (relocate d st) in
  tree n (slots st') (root st') ((fun a => a + d) <$> fp) /\
  strings st' = strings st /\
  (forall p, p ∈ fp ->
     key_ <$> slots st' !! (p + d) = key_ <$> slots st !! p /\
     next_ <$> slots st' !! (p + d) = next_ <$> slots st !! p).
Proof.
  intros Htree Hnz Hfuel st'.
  pose proof (movePointers_rebases_tree n (slots st) d (root st) fp Htree
                RootVar (relocate d st) fuel Hnz eq_refl
                (fun p _ => slots_relocate d st p)
                (fun p _ => ltac:(discriminate)) Hfuel) as Hone.
  fold st' in Hone.
  destruct Hone as (Hr & Hin & Hout & Hf & Hs & Hn). cbn in Hr.
  assert (Hslots : forall p, p ∈ fp ->
            slots st' !! (p + d) = moved_slot d <$> slots st !! p).
  { intros p Hp. rewrite Hin by (right; now exists p).
    now rewrite slots_relocate. }
  split; [|split; [exact Hs|]].
  - rewrite Hr. now apply (tree_relocated n (slots st)).
  - intros p Hp. rewrite (Hslots p Hp).
    destruct (slots st !! p); split; reflexivity.
Qed.

End OnePass.

(** At the document [[1, [7]]] moved by 4096 bytes. *)
Lemma movePointers_follows_the_pool_witness :
  let st' := @VariantData_movePointers arduino_flags 15 4096 RootVar
               (@relocate 4096 demo_document) in
  @tree arduino_flags 2 (slots st') (root st') [4196; 4212; 4296].
Proof.
  intros st'.
  destruct (@movePointers_follows_the_pool arduino_flags 2 demo_document
              [100; 116; 200] 4096 15 demo_document_tree) as [W _].
  - intros p Hp. repeat (apply elem_of_cons in Hp as [->|Hp]); try lia.
    now apply elem_of_nil in Hp.
  - cbn. lia.
  - exact W.
Defined.

(** ** [arrayEquals] and [CollectionData::get] *)

Section Lookups.
Context `{VariantFlags} `{Platform}.
Variable compare : State -> VariantRef -> VariantRef -> CompareResult.

Lemma arrayEquals_loop_chain (st : State) (la : list Z) :
  forall lb fuel a b,
  chain (slots st) a la -> chain (slots st) b lb -> (length la < fuel)%nat ->
  (arrayEquals_loop compare fuel st a b = true <->
   Forall2 (fun x y => compare st (SlotVar x) (SlotVar y)
                       = COMPARE_RESULT_EQUAL) la lb).
Proof.
  induction la as [|x la IH]; intros [|y lb] fuel a b Ha Hb Hf;
    (destruct fuel as [|f]; [cbn in Hf; lia|]);
    inversion Ha as [|pa sa la' Ha0 Hsa Ha']; subst;
    inversion Hb as [|pb sb lb' Hb0 Hsb Hb']; subst;
    cbn [arrayEquals_loop].
  - split; [constructor|reflexivity].
  - destruct (Z.eqb_spec y 0) as [|_]; [done|]. cbn [andb orb].
    split; [discriminate|]. intros HF. inversion HF.
  - destruct (Z.eqb_spec x 0) as [|_]; [done|]. cbn [andb orb].
    split; [discriminate|]. intros HF. inversion HF.
  - destruct (Z.eqb_spec x 0) as [|_]; [done|].
    destruct (Z.eqb_spec y 0) as [|_]; [done|]. cbn [andb orb].
    rewrite Hsa, Hsb.
    destruct (compare st (SlotVar x) (SlotVar y)) eqn:Hcmp; cbn [is_equal negb];
      try (split; [discriminate|]; intros HF; inversion HF; congruence).
    rewrite (IH lb f _ _ Ha' Hb') by (cbn in Hf; lia).
    split.
    + intros HF. now constructor.
    + intros HF. now inversion HF.
Qed.


Lemma get_loop_first (st : State) (key : AdaptedString) (lb : list Z) :
  forall p fuel,
  chain (slots st) p lb -> (length lb < fuel)%nat ->
  (get_loop fuel st key p = 0 /\
   forall q, q ∈ lb -> key_text st q <> text_at st (str_ key)) \/
  (exists l1 l2, lb = l1 ++ get_loop fuel st key p :: l2 /\
     key_text st (get_loop fuel st key p) = text_at st (str_ key) /\
     forall q, q ∈ l1 -> key_text st q <> text_at st (str_ key)).
Proof.
  induction lb as [|x lb IH]; intros p fuel Hc Hf;
    (destruct fuel as [|f]; [cbn in Hf; lia|]);
    inversion Hc as [|p' s l' Hp0 Hs Hc']; subst; cbn [get_loop].
  - left. split; [reflexivity|]. intros q Hq. now apply elem_of_nil in Hq.
  - destruct (Z.eqb_spec x 0) as [|_]; [done|]. rewrite Hs.
    unfold stringEquals. cbn [str_].
    assert (Hkx : key_text st x = text_at st (key_ s))
      by (unfold key_text; now rewrite Hs).
    destruct (String.eqb_spec (text_at st (str_ key)) (text_at st (key_ s)))
      as [Heq|Hne].
    + right. exists [], lb. split; [reflexivity|]. split; [congruence|].
      intros q Hq. now apply elem_of_nil in Hq.
    + destruct (IH (slot_next x s) f Hc' ltac:(cbn in Hf; lia))
        as [[Hz Hall]|(l1 & l2 & Hl & Hk & Hall)].
      * left. split; [assumption|]. intros q Hq.
        apply elem_of_cons in Hq as [->|Hq]; [congruence|now apply Hall].
      * right. exists (x :: l1), l2. split; [cbn; now f_equal|].
        split; [assumption|]. intros q Hq.
        apply elem_of_cons in Hq as [->|Hq]; [congruence|now apply Hall].
Qed.

(** [get(key)] answers null for a null key; otherwise it answers the
    first slot of the chain whose key has the text of [key], and null
    when no slot has it. *)
Theorem get_finds_the_first_key (fuel : nat) (st : State) (c : CollectionData)
    (key : AdaptedString) (lb : list Z) :
  chain (slots st) (head_ c) lb -> (length lb < fuel)%nat ->
  let r := CollectionData_get fuel st c key in
  (str_ key = 0 -> r = 0) /\
  (str_ key <> 0 ->
   (r = 0 /\ forall q, q ∈ lb -> key_text st q <> text_at st (str_ key)) \/
   (exists l1 l2, lb = l1 ++ r :: l2 /\
      key_text st r = text_at st (str_ key) /\
      forall q, q ∈ l1 -> key_text st q <> text_at st (str_ key))).
Proof.
  intros Hc Hf r. subst r. unfold CollectionData_get, AdaptedString_isNull.
  split.
  - intros ->. reflexivity.
  - intros Hk. destruct (Z.eqb_spec (str_ key) 0) as [|_]; [done|].
    now apply get_loop_first.
Qed.

End Lookups.


Lemma get_finds_the_first_key_witness :
  @CollectionData_get arduino_flags demo_platform 8 demo_objects
     (mkCollection 100 116) (mkStr 3100 true) = 116.
Proof.
  destruct (@get_finds_the_first_key arduino_flags demo_platform 8
              demo_objects (mkCollection 100 116) (mkStr 3100 true)
              [100; 116]) as [_ W].
  - chain_steps.
  - cbn. lia.
  - remember (@CollectionData_get arduino_flags demo_platform 8 demo_objects
                (mkCollection 100 116) (mkStr 3100 true)) as r eqn:Hr.
    clear Hr.
    destruct (W ltac:(discriminate))
      as [[_ Hall]|(l1 & l2 & Hl & Hk & _)].
    + exfalso. apply (Hall 116); [in_list|reflexivity].
    + assert (Hin : r ∈ [100; 116]).
      { rewrite Hl. apply elem_of_app. right. apply list_elem_of_here. }
      repeat (apply elem_of_cons in Hin as [->|Hin]);
        try (now apply elem_of_nil in Hin); [|reflexivity].
      vm_compute in Hk. discriminate.
Defined.

(** ** Failure and type mismatch *)

Lemma first_split_unique {A : Type} (P : A -> Prop) (l1 : list A) :
  forall l1' x l2 x' l2',
  l1 ++ x :: l2 = l1' ++ x' :: l2' -> P x -> P x' ->
  (forall q, q ∈ l1 -> ~ P q) -> (forall q, q ∈ l1' -> ~ P q) -> x = x'.
Proof.
  induction l1 as [|a l1 IH]; intros [|b l1'] x l2 x' l2' Heq Hx Hx' H1 H1';
    cbn in Heq; injection Heq as Hh Ht.
  - assumption.
  - subst b. exfalso. apply (H1' x); [apply list_elem_of_here|assumption].
  - subst a. exfalso. apply (H1 x'); [apply list_elem_of_here|assumption].
  - apply (IH l1' x l2 x' l2' Ht Hx Hx').
    + intros q Hq. apply H1. now apply list_elem_of_further.
    + intros q Hq. apply H1'. now apply list_elem_of_further.
Qed.

Section Failures.
Context `{VariantFlags} `{Platform} (layout : flags_layout).

(** With no free slot, the copy of a collection that has a member fails
    at the first member: the destination, a Null cell, is left an empty
    collection of the kind of the source, and nothing else has changed. *)
Theorem copyFrom_without_free_slot (fuel : nat) (dst src : VariantRef)
    (st : State) (a vb : VariantData) (s : VariantSlot) :
  get_var src st = Some a ->
  get_var dst st = Some vb -> type vb = VALUE_IS_NULL -> dst <> src ->
  head_ (content_asCollection (content_ a)) <> 0 ->
  slots st !! head_ (content_asCollection (content_ a)) = Some s ->
  dst <> SlotVar (head_ (content_asCollection (content_ a))) ->
  free_slots st = [] ->
  let r := VariantData_copyFrom (S (S fuel)) dst (Some src) st in
  (type a = VALUE_IS_ARRAY ->
   r = (false, update_var dst toArray st)) /\
  (type a = VALUE_IS_OBJECT ->
   r = (false, update_var dst toObject st)).
Proof.
  intros Hsrc Hdst Hnull Hne Hhead Hs Hdh Hfree r. subst r.
  rewrite VariantData_copyFrom_S. cbv zeta.
  rewrite (release_null layout (S (S fuel)) dst st vb Hdst Hnull), Hsrc.
  destruct (copy_kinds layout) as (Hao & _).
  split; intros Ht; rewrite Ht.
  - rewrite Z.eqb_refl, ArrayData_copyFrom_S.
    destruct (Z.eqb_spec (head_ (content_asCollection (content_ a))) 0)
      as [|_]; [done|].
    unfold ArrayData_addElement, allocVariant.
    destruct (update_var_fields dst toArray st) as (_ & -> & _).
    rewrite Hfree. reflexivity.
  - destruct (Z.eqb_spec VALUE_IS_OBJECT VALUE_IS_ARRAY) as [Heq|_];
      [now symmetry in Heq|].
    rewrite Z.eqb_refl, collectionCopy_S.
    destruct (Z.eqb_spec (head_ (content_asCollection (content_ a))) 0)
      as [|_]; [done|].
    rewrite slots_update_var_ne, Hs by assumption.
    unfold collectionAddMember, ArrayData_addElement, allocVariant.
    destruct (update_var_fields dst toObject st) as (_ & -> & _).
    rewrite Hfree. now destruct (negb (key_ s =? 0)).
Qed.

(** [getOrAddMember] on a cell that is neither Null nor an object answers
    null and changes nothing; on an object that has the key it answers
    the first member of that key and changes nothing. *)
Theorem getOrAddMember_without_adding (fuel : nat) (this : VariantRef)
    (key : AdaptedString) (st : State) (v : VariantData) (lb : list Z) :
  get_var this st = Some v -> type v ∈ kinds -> str_ key <> 0 ->
  (type v <> VALUE_IS_NULL -> type v <> VALUE_IS_OBJECT ->
   VariantData_getOrAddMember fuel this key st = (None, st)) /\
  (type v = VALUE_IS_OBJECT ->
   chain (slots st) (head_ (content_asCollection (content_ v))) lb ->
   (length lb < fuel)%nat ->
   forall l1 r l2, lb = l1 ++ r :: l2 ->
     key_text st r = text_at st (str_ key) ->
     (forall q, q ∈ l1 -> key_text st q <> text_at st (str_ key)) ->
     VariantData_getOrAddMember fuel this key st = (Some (SlotVar r), st)).
Proof.
  intros Hv Hk Hkey.
  assert (Hnn : AdaptedString_isNull key = false).
  { unfold AdaptedString_isNull. now destruct (Z.eqb_spec (str_ key) 0). }
  unfold VariantData_getOrAddMember. rewrite Hnn, Hv. unfold isNull.
  split.
  - intros Hn Ho. destruct (Z.eqb_spec (type v) VALUE_IS_NULL) as [|_]; [done|].
    unfold VariantData_asObject. rewrite Hv, (isObject_kind layout v Hk).
    now rewrite bool_decide_eq_false_2.
  - intros Ho Hc Hf l1 r l2 Hl Hkr Hfirst.
    destruct (copy_kinds layout) as (_ & _ & _ & _ & _ & _ & _ & Hno & _).
    destruct (Z.eqb_spec (type v) VALUE_IS_NULL) as [Heq|_]; [congruence|].
    unfold VariantData_asObject. rewrite Hv, (isObject_kind layout v Hk).
    rewrite bool_decide_eq_true_2 by assumption.
    unfold CollectionData_getOrAddMember. rewrite Hv.
    assert (Hget : CollectionData_get fuel st
                     (content_asCollection (content_ v)) key = r).
    { unfold CollectionData_get. rewrite Hnn.
      destruct (get_loop_first st key lb _ fuel Hc Hf)
        as [[_ Hall]|(l1' & l2' & Hl' & Hk' & Hall')].
      - exfalso. apply (Hall r); [|assumption]. rewrite Hl.
        apply elem_of_app. right. apply list_elem_of_here.
      - symmetry.
        apply (first_split_unique
                 (fun q => key_text st q = text_at st (str_ key))
                 l1 l1' r l2 _ l2'); try assumption. congruence. }
    rewrite Hget.
    assert (Hr0 : r <> 0).
    { apply (chain_in_store _ _ _ Hc). rewrite Hl. apply elem_of_app. right.
      apply list_elem_of_here. }
    now destruct (Z.eqb_spec r 0).
Qed.

End Failures.

(** On the document of [copy_demo], with the free list emptied: the copy
    of the object at slot 50 into the root fails and leaves the root an
    empty object. *)
Lemma copyFrom_without_free_slot_witness :
  let st := mkState (root copy_demo) (slots copy_demo) [] (strings copy_demo) [] in
  @VariantData_copyFrom arduino_flags demo_platform 2 RootVar
    (Some (SlotVar 50)) st
  = (false, update_var RootVar (@toObject arduino_flags) st).
Proof.
  intros st.
  assert (Hd : RootVar <> SlotVar 50) by discriminate.
  assert (Hh : (200 : Z) <> 0) by discriminate.
  assert (Hdh : RootVar <> SlotVar 200) by discriminate.
  exact (proj2 (@copyFrom_without_free_slot arduino_flags demo_platform
                  arduino_layout 0 RootVar (SlotVar 50) st
                  (mkVariant (asCollection (mkCollection 200 216)) 0x20)
                  (mkVariant (asUnsignedInteger 0) 0)
                  (mkSlot (mkVariant (asOwnedString 5000) 0x05) 16 3000)
                  eq_refl eq_refl eq_refl Hd Hh eq_refl Hdh eq_refl)
           eq_refl).
Defined.

(** In [demo_objects]: the key [y] of the object at slot 500 is found at
    its second member, and nothing is added. *)
Lemma getOrAddMember_without_adding_witness :
  let st := set_slots
              (<[500 := mkSlot (mkVariant (asCollection (mkCollection 100 116))
                                  0x20) 0 0]> (slots demo_objects))
              demo_objects in
  @VariantData_getOrAddMember arduino_flags demo_platform 8 (SlotVar 500)
    (mkStr 3100 true) st
  = (Some (SlotVar 116), st).
Proof.
  intros st.
  destruct (@getOrAddMember_without_adding arduino_flags demo_platform
              arduino_layout 8 (SlotVar 500) (mkStr 3100 true) st
              (mkVariant (asCollection (mkCollection 100 116)) 0x20)
              [100; 116]) as [_ W].
  - reflexivity.
  - decided.
  - discriminate.
  - apply (W eq_refl) with (l1 := [100]) (l2 := @nil Z).
    + cbn [head_ content_asCollection content_]. chain_steps.
    + cbn. lia.
    + reflexivity.
    + reflexivity.
    + intros q Hq. apply list_elem_of_singleton in Hq as ->. vm_compute.
      discriminate.
Defined.

(** ** [CollectionData::remove] *)

Section Remove.
Context `{VariantFlags} `{Platform}.

(** [CollectionData::getPrevious]: the loop, then the method. *)
Fixpoint getPrevious_loop (fuel : nat) (st : State) (current target : Z) : Z :=
  match fuel with
  | O => 0
  | S f =>
      if current =? 0 then 0
      else match slots st !! current with
           | None => 0
           | Some s =>
               let next := slot_next current s in
               if next =? target then current
               else getPrevious_loop f st next target
           end
  end.

Definition CollectionData_getPrevious (fuel : nat) (st : State)
    (c : CollectionData) (target : Z) : Z :=
  getPrevious_loop fuel st (head_ c) target.

(** [CollectionData::remove]. [this] is the cell that holds the
    collection; [slot->next()] of a slot the store does not have is read
    as null. *)
Definition CollectionData_remove (fuel : nat) (this : VariantRef) (slot : Z)
    (st : State) : State :=
  match get_var this st with
  | None => st
  | Some v =>
      let prev :=
        CollectionData_getPrevious fuel st
          (content_asCollection (content_ v)) slot in
      let next := match slots st !! slot with
                  | Some s => slot_next slot s
                  | None => 0
                  end in
      let st1 :=
        if negb (prev =? 0) then setNext prev next st
        else update_collection this (fun c => mkCollection next (tail_ c)) st in
      if next =? 0
      then update_collection this (fun c => mkCollection (head_ c) prev) st1
      else st1
  end.

Lemma get_var_setNext (r : VariantRef) (t slot : Z) (st : State) :
  get_var r (setNext t slot st) = get_var r st.
Proof.
  unfold setNext, update_slot.
  destruct (slots st !! t) as [s|] eqn:Hs; [|reflexivity].
  destruct r as [|q]; cbn; [reflexivity|].
  destruct (decide (t = q)) as [->|Hne].
  - now rewrite lookup_insert_eq, Hs.
  - now rewrite lookup_insert_ne.
Qed.

Lemma slots_setNext_ne (t slot : Z) (st : State) (q : Z) :
  q <> t -> slots (setNext t slot st) !! q = slots st !! q.
Proof.
  intros Hne. unfold setNext, update_slot.
  destruct (slots st !! t) as [s|]; [|reflexivity]. cbn.
  now rewrite lookup_insert_ne.
Qed.

(** The successor of a slot of a chain is the head of what follows. *)
Lemma chain_head (m : gmap Z VariantSlot) (p : Z) (l : list Z) :
  chain m p l -> p = default 0 (head l).
Proof. now intros [|q s l' _ _ _]. Qed.

Lemma getPrevious_absent (st : State) (target : Z) :
  forall fuel p l,
  chain (slots st) p l -> target <> 0 -> target ∉ tail l ->
  getPrevious_loop fuel st p target = 0.
Proof.
  induction fuel as [|f IH]; intros p l Hc Ht Hn; [reflexivity|].
  cbn [getPrevious_loop]. destruct (Z.eqb_spec p 0) as [|Hp]; [reflexivity|].
  inversion Hc as [|p' s l' Hp0 Hs Hc']; subst; [done|]. rewrite Hs.
  cbn [tail] in Hn.
  destruct (Z.eqb_spec (slot_next p s) target) as [Heq|_].
  - exfalso. apply Hn. rewrite (chain_head _ _ _ Hc') in Heq.
    destruct l' as [|x l']; cbn in Heq; [congruence|]. subst x.
    apply list_elem_of_here.
  - apply (IH _ l' Hc' Ht). intros Hin. apply Hn.
    destruct l' as [|x l']; [now apply elem_of_nil in Hin|].
    now apply list_elem_of_further.
Qed.

(** [getPrevious] answers the slot before the target, null for the
    first slot. *)
Lemma getPrevious_chain (st : State) (slot : Z) (l2 : list Z) :
  forall l1 fuel p,
  chain (slots st) p (l1 ++ slot :: l2) -> NoDup (l1 ++ slot :: l2) ->
  (length l1 < fuel)%nat ->
  getPrevious_loop fuel st p slot = default 0 (last l1).
Proof.
  induction l1 as [|a l1 IH]; intros fuel p Hc Hnd Hf.
  - cbn [app] in Hc, Hnd. apply NoDup_cons in Hnd as [Hn _].
    destruct (chain_in_store _ _ _ Hc slot (list_elem_of_here _ _)) as [Hs0 _].
    now apply (getPrevious_absent st slot fuel p _ Hc).
  - destruct fuel as [|f]; [cbn in Hf; lia|]. cbn [app] in Hc, Hnd.
    inversion Hc as [|p' sa l' Ha0 Hsa Hc']; subst.
    cbn [getPrevious_loop]. destruct (Z.eqb_spec a 0) as [|_]; [done|].
    rewrite Hsa. apply NoDup_cons in Hnd as [Ha Hnd].
    pose proof (chain_head _ _ _ Hc') as Hnext.
    destruct l1 as [|b l1].
    + cbn in Hnext. rewrite Hnext, Z.eqb_refl. reflexivity.
    + cbn in Hnext. rewrite Hnext in Hc' |- *.
      destruct (Z.eqb_spec b slot) as [->|_].
      * exfalso. cbn [app] in Hnd. apply NoDup_cons in Hnd as [Hb _].
        apply Hb, elem_of_app. right. apply list_elem_of_here.
      * rewrite last_cons_cons. apply IH; [assumption|assumption|].
        cbn in Hf |- *. lia.
Qed.

(** Linking the slot before the removed one to the slot after it. *)
Lemma chain_bypass (m : gmap Z VariantSlot) (t slot nx : Z) (l2 : list Z)
    (s_t : VariantSlot) :
  forall l1 p,
  chain m p (l1 ++ t :: slot :: l2) -> NoDup (l1 ++ t :: slot :: l2) ->
  m !! t = Some s_t -> chain m nx l2 ->
  chain (<[t := mkSlot (data s_t) (if nx =? 0 then 0 else nx - t) (key_ s_t)]> m)
    p (l1 ++ t :: l2).
Proof.
  induction l1 as [|a l1 IH]; intros p Hc Hnd Ht Hnx; cbn [app] in *.
  - inversion Hc as [|p' s l' Ht0 Hs Hc']; subst.
    apply NoDup_cons in Hnd as [Hn Hnd].
    assert (Htl2 : t ∉ l2).
    { intros Hin. apply Hn. now apply list_elem_of_further. }
    eapply chain_cons; [assumption|apply lookup_insert_eq|].
    replace (slot_next t _) with nx.
    + apply (chain_frame m); [assumption|]. intros q Hq.
      rewrite lookup_insert_ne; [reflexivity|]. intros ->. contradiction.
    + unfold slot_next. cbn [next_].
      destruct (Z.eqb_spec nx 0) as [->|Hn0]; [reflexivity|].
      destruct (Z.eqb_spec (nx - t) 0) as [Hz|_]; [|lia].
      exfalso. apply Htl2. replace t with nx by lia.
      rewrite (chain_head _ _ _ Hnx) in Hn0 |- *.
      destruct l2; cbn in *; [done|apply list_elem_of_here].
  - inversion Hc as [|p' sa l' Ha0 Hsa Hc']; subst.
    apply NoDup_cons in Hnd as [Ha Hnd].
    eapply chain_cons; [assumption| |].
    + rewrite lookup_insert_ne; [eassumption|]. intros ->. apply Ha.
      apply elem_of_app. right. apply list_elem_of_here.
    + now apply IH.
Qed.

Lemma remove_frame (fuel : nat) (this : VariantRef) (slot : Z) (st : State)
    (r : VariantRef) :
  this <> r ->
  get_var r (CollectionData_remove fuel this slot st) = get_var r st.
Proof.
  intros Hne. unfold CollectionData_remove.
  destruct (get_var this st) as [v|]; [|reflexivity]. cbv zeta.
  destruct (negb _), (_ =? 0); unfold update_collection;
    rewrite ?get_var_update_var_ne by assumption;
    rewrite ?get_var_setNext; reflexivity.
Qed.

(** [remove] keeps the invariant of a collection: the chain loses the
    slot and keeps the order of the others, the tail is the last slot
    left and the head is null only if none is left.  The cells of the
    slots are as before, and the removed slot too, with the link it had. *)
Theorem remove_keeps_collection (fuel : nat) (this : VariantRef) (slot : Z)
    (st : State) (l1 l2 : list Z) :
  collection_at this st (l1 ++ slot :: l2) ->
  (forall q, q ∈ l1 ++ slot :: l2 -> this <> SlotVar q) ->
  (length l1 < fuel)%nat ->
  let st' := CollectionData_remove fuel this slot st in
  collection_at this st' (l1 ++ l2) /\
  (forall q, this <> SlotVar q -> get_var (SlotVar q) st' = get_var (SlotVar q) st) /\
  slots st' !! slot = slots st !! slot.
Proof.
  intros (v & Hv & Hc & Ht & Hh) Hthis Hf st'.
  pose proof (chain_NoDup _ _ _ Hc) as Hnd.
  assert (Hin : slot ∈ l1 ++ slot :: l2)
    by (apply elem_of_app; right; apply list_elem_of_here).
  destruct (chain_in_store _ _ _ Hc slot Hin) as [Hs0 [s Hs]].
  pose proof (chain_suffix _ _ _ _ _ Hc) as Hsuf.
  inversion Hsuf as [|p' s' l' _ Hs' Hnx]; subst p' l'.
  rewrite Hs in Hs'. injection Hs' as <-.
  set (nx := slot_next slot s) in *.
  pose proof (chain_null _ _ _ Hnx) as Hnull.
  assert (Hsd : this <> SlotVar slot) by (now apply Hthis).
  subst st'. unfold CollectionData_remove. rewrite Hv. cbv zeta.
  unfold CollectionData_getPrevious.
  rewrite (getPrevious_chain st slot l2 l1 fuel _ Hc Hnd Hf), Hs. fold nx.
  set (c := content_asCollection (content_ v)) in *.
  induction l1 as [|t l1 _] using rev_ind.
  - (* the first slot is removed *)
    cbn [last default app Z.eqb negb] in *. unfold update_collection.
    destruct (Z.eqb_spec nx 0) as [Hz|Hnz].
    + assert (Hl2 : l2 = []) by (now apply Hnull). subst l2.
      split; [|split; [intros q Hq|]].
      * eexists. rewrite !get_var_update_var, Hv.
        split; [reflexivity|]. cbn. rewrite Hz. split; [constructor|]. done.
      * now rewrite !get_var_update_var_ne.
      * now rewrite !slots_update_var_ne.
    + assert (Hl2 : l2 <> []) by (intros Hl; now apply Hnz, Hnull).
      split; [|split; [intros q Hq|]].
      * eexists. rewrite get_var_update_var, Hv.
        split; [reflexivity|]. cbn. fold c. split; [|split].
        -- apply (chain_frame (slots st)); [assumption|].
           intros q _. apply links_update_var.
        -- rewrite Ht. destruct l2 as [|y l2]; [done|].
           now rewrite last_cons_cons.
        -- split; [done|]. intros Hl. contradiction.
      * now rewrite get_var_update_var_ne.
      * now rewrite slots_update_var_ne.
  - (* a slot with a predecessor is removed *)
    rewrite last_snoc. change (default 0 (Some t)) with t.
    assert (Htin : t ∈ (l1 ++ [t]) ++ slot :: l2).
    { apply elem_of_app. left. apply elem_of_app. right.
      apply list_elem_of_here. }
    destruct (chain_in_store _ _ _ Hc t Htin) as [Ht0 [s_t Hst]].
    destruct (Z.eqb_spec t 0) as [|_]; [done|]. cbn [negb].
    assert (Htd : this <> SlotVar t) by (now apply Hthis).
    assert (Hts : slot <> t).
    { intros ->. rewrite <- app_assoc in Hnd. cbn [app] in Hnd.
      apply NoDup_app in Hnd as (_ & _ & Hnd).
      apply NoDup_cons in Hnd as [Hn _]. apply Hn, list_elem_of_here. }
    assert (Hc1 : chain (slots (setNext t nx st)) (head_ c) (l1 ++ t :: l2)).
    { unfold setNext, update_slot. rewrite Hst. cbn [slots set_slots].
      rewrite <- app_assoc in Hc, Hnd. cbn [app] in Hc, Hnd.
      now apply (chain_bypass (slots st) t slot nx l2 s_t l1). }
    assert (Hhead : head_ c <> 0).
    { intros Hz. apply Hh in Hz. now destruct l1. }
    unfold update_collection.
    destruct (Z.eqb_spec nx 0) as [Hz|Hnz].
    + assert (Hl2 : l2 = []) by (now apply Hnull). subst l2.
      split; [|split; [intros q Hq|]].
      * eexists. rewrite get_var_update_var, get_var_setNext, Hv.
        split; [reflexivity|]. cbn. fold c. rewrite app_nil_r.
        split; [|split].
        -- apply (chain_frame (slots (setNext t nx st))); [assumption|].
           intros q _. apply links_update_var.
        -- now rewrite last_snoc.
        -- split; [done|]. intros Hl. now destruct l1.
      * now rewrite get_var_update_var_ne, get_var_setNext.
      * rewrite slots_update_var_ne by assumption.
        now rewrite slots_setNext_ne.
    + assert (Hl2 : l2 <> []) by (intros Hl; now apply Hnz, Hnull).
      split; [|split; [intros q Hq|]].
      * exists v. rewrite get_var_setNext. split; [assumption|]. fold c.
        rewrite <- app_assoc. cbn [app]. split; [assumption|]. split.
        -- rewrite Ht. destruct l2 as [|y l2]; [done|].
           rewrite <- app_assoc. cbn [app].
           now rewrite !last_app_cons, !last_cons_cons.
        -- split; [done|]. intros Hl. now destruct l1.
      * now rewrite get_var_setNext.
      * now rewrite slots_setNext_ne.
Qed.

End Remove.

(** In [demo_objects], with the object of the three members [x], [y],
    [z] held by the root: removing the member [y] leaves [x] and [z]. *)
Lemma remove_keeps_collection_witness :
  let st := set_root (mkVariant (asCollection (mkCollection 400 432)) 0x20)
              demo_objects in
  collection_at RootVar (CollectionData_remove 8 RootVar 416 st) [400; 432].
Proof.
  intros st.
  destruct (remove_keeps_collection 8 RootVar 416 st [400] [432]) as [W _].
  - exists (root st). split; [reflexivity|].
    split; [cbn [head_ content_asCollection content_ root set_root st];
            chain_steps|].
    split; [reflexivity|]. done.
  - intros q _. discriminate.
  - cbn. lia.
  - exact W.
Defined.

(** ** The setters and the kind tests *)

Section Setters.
Context `{VariantFlags} (layout : flags_layout).


End Setters.


(** ** [CollectionData::clear] and [CollectionData::size] *)

Section ClearAndSize.
Context `{VariantFlags} `{Platform}.

(** [size] counts the slots of the collection's chain.  [clear] leaves
    the empty collection in the cell, of size zero; it writes the head
    and the tail only: every slot, the former members included, and every
    other cell is as before. *)
Theorem clear_empties_the_collection (fuel : nat) (this : VariantRef)
    (st : State) (v : VariantData) (l : list Z) :
  get_var this st = Some v ->
  collection_at this st l ->
  (forall q, q ∈ l -> this <> SlotVar q) ->
  (length l < fuel)%nat ->
  let st' := CollectionData_clear this st in
  CollectionData_size fuel st (content_asCollection (content_ v))
  = Z.of_nat (length l) /\
  collection_at this st' [] /\
  (exists v', get_var this st' = Some v' /\ flags_ v' = flags_ v /\
     CollectionData_size fuel st' (content_asCollection (content_ v')) = 0) /\
  (forall q, q ∈ l -> slots st' !! q = slots st !! q) /\
  (forall r, r <> this -> get_var r st' = get_var r st).
Proof.
  intros Hv (v0 & Hv0 & Hc & Ht & Hh) Hthis Hf st'.
  rewrite Hv in Hv0. injection Hv0 as <-.
  assert (Hget : get_var this st'
                 = Some (set_content (asCollection (mkCollection 0 0)) v)).
  { subst st'. unfold CollectionData_clear, update_collection.
    now rewrite get_var_update_var, Hv. }
  split; [now apply slotSize_chain|].
  split; [|split; [|split]].
  - eexists. split; [exact Hget|]. cbn. split; [constructor|]. done.
  - eexists. split; [exact Hget|]. split; [reflexivity|].
    destruct fuel; reflexivity.
  - intros q Hq. subst st'. unfold CollectionData_clear, update_collection.
    apply slots_update_var_ne. now apply Hthis.
  - intros r Hr. subst st'. unfold CollectionData_clear, update_collection.
    apply get_var_update_var_ne. congruence.
Qed.

End ClearAndSize.

(** In [demo_objects], with the object of the three members [x], [y],
    [z] held by the root: the size is three, and zero once cleared. *)
Lemma clear_empties_the_collection_witness :
  let st := set_root (mkVariant (asCollection (mkCollection 400 432)) 0x20)
              demo_objects in
  CollectionData_size 8 st (mkCollection 400 432) = 3 /\
  collection_at RootVar (CollectionData_clear RootVar st) [].
Proof.
  intros st.
  destruct (clear_empties_the_collection 8 RootVar st (root st) [400; 416; 432])
    as (W1 & W2 & _).
  - reflexivity.
  - exists (root st). split; [reflexivity|].
    split; [cbn [head_ content_asCollection content_ root set_root st];
            chain_steps|].
    split; [reflexivity|]. done.
  - intros q _. discriminate.
  - cbn. lia.
  - split; [exact W1 | exact W2].
Defined.
